(** * mac2bdf: Macintosh FONT/NFNT resource to BDF conversion

    A shallow embedding of [mac2bdf.c] (the byte decoder [toushort] /
    [toshort], the global pass [FontInfo], the style namer
    [FontStyleName] and the emitter [FontDump]) together with the
    properties of the conversion that are stated about it.

    Conventions of the embedding.
    - C integers are [Z].  Conversions to the 16-bit types [CARD16] and
      [INT16] are written out where the source stores into a variable of
      that type; [int] expressions are computed in [Z].  The ones that
      can leave the range of a 32-bit [int] are [( rw * ht ) << 1],
      which is checked where it is computed, and [p[0] << 24], which
      sets the sign bit of the [int] and is read in two's complement.
    - Pointers into the font resource are offsets from its start; an
      access is checked against the size of the object, the computation
      of an address is not.
    - A run of C code that has no defined result (a read or a write
      outside an object, an [int] computation that leaves the range of
      [int], or a loop that never exits) is [None].
    - The font resource is a byte list together with the address it is
      loaded at; the address only matters for the alignment test of the
      bitmap image. *)

From Stdlib Require Import ZArith.
From Stdlib.Strings Require Import String Ascii Byte.
From stdpp Require Import base tactics option list list_numbers strings numbers pretty.

Open Scope Z_scope.

(** ** Integer types *)

Module CInt.

(** Conversion to [unsigned short]. *)
Definition CARD16 (z : Z) : Z := z mod 65536.

(** Conversion to [short] (two's complement). *)
Definition INT16 (z : Z) : Z := (z + 32768) mod 65536 - 32768.

(** The value of an [int] seen as [unsigned int], as the conversions
    [%x] and [%X] of [printf] read it. *)
Definition UINT (z : Z) : Z := z mod 4294967296.

(** The [int] (32 bits, two's complement) with the bits of [z]. *)
Definition INT (z : Z) : Z := (z + 2147483648) mod 4294967296 - 2147483648.

End CInt.
Export CInt.

(** ** Loops *)

(** A counted [for] loop whose body may fail: the iterations are the
    elements of the list, in order, each threading the state. *)
Fixpoint foldM {A S : Type} (f : A -> S -> option S) (l : list A) (s : S)
  : option S :=
  match l with
  | [] => Some s
  | x :: l' => s' ← f x s; foldM f l' s'
  end.

(** [for ( g = fg; g <= lg; g++ )] with [g] a [CARD16]: the increment
    wraps at 16 bits.  [fuel] counts the loop tests still allowed. *)
Fixpoint glyph_loop {S : Type} (body : Z -> S -> option S) (lg : Z)
    (fuel : nat) (g : Z) (s : S) : option S :=
  match fuel with
  | O => None
  | Datatypes.S fuel' =>
      if g <=? lg
      then s' ← body g s; glyph_loop body lg fuel' (CARD16 (g + 1)) s'
      else Some s
  end.

(** When the loop exits at all, it does so at the test that follows the
    last of its [lg - fg + 1] iterations (none when [lg < fg]); with one
    more unit of fuel than that, [None] stands for a loop that never
    exits ([lg = 65535]) or for an undefined iteration. *)
Definition for_glyphs {S : Type} (body : Z -> S -> option S) (fg lg : Z)
    (s : S) : option S :=
  glyph_loop body lg (Datatypes.S (Z.to_nat (lg - fg + 1))) fg s.

(** ** Memory *)

Definition byte_val (b : byte) : Z := Z.of_N (Byte.to_N b).

(** [p[k]] for a [CARD8 *] into an object holding the bytes [m]. *)
Definition rd (m : list byte) (k : Z) : option Z :=
  if k <? 0 then None else byte_val <$> m !! Z.to_nat k.

(** ** Byte decoder *)

(** [toushort ( p )], with [p] pointing at offset [p] of [m]. *)
Definition toushort (m : list byte) (p : Z) : option Z :=
  p0 ← rd m p;
  p1 ← rd m (p + 1);
  Some (CARD16 (Z.lor (Z.shiftl p0 8) p1)).

(** [toshort ( p )]. *)
Definition toshort (m : list byte) (p : Z) : option Z :=
  INT16 <$> toushort m p.

(** Conversion to [unsigned long] and to [long] (two's complement), for
    a host whose [long] has [bits] bits. *)
Definition ULONG (bits z : Z) : Z := z mod 2 ^ bits.

Definition LONG (bits z : Z) : Z :=
  (z + 2 ^ (bits - 1)) mod 2 ^ bits - 2 ^ (bits - 1).

(** [toulong ( p )].  The operands of [|] are [int]s, and the cast
    converts an [int]: with [p[0]] 128 or more, [p[0] << 24] has its
    sign bit set and is a negative [int], which the conversion to
    [unsigned long] reduces modulo 2^[long_bits]. *)
Definition toulong (long_bits : Z) (m : list byte) (p : Z) : option Z :=
  p0 ← rd m p;
  p1 ← rd m (p + 1);
  p2 ← rd m (p + 2);
  p3 ← rd m (p + 3);
  Some (ULONG long_bits
          (Z.lor (Z.lor (Z.lor (INT (Z.shiftl p0 24)) (Z.shiftl p1 16))
                    (Z.shiftl p2 8)) p3)).

(** [tolong ( p )]. *)
Definition tolong (long_bits : Z) (m : list byte) (p : Z) : option Z :=
  LONG long_bits <$> toulong long_bits m p.

(** ** Formatted output *)

Module Printf.

(** [%d]. *)
Definition dec (z : Z) : string := pretty z.

(** The sixteen digits [printf] uses for [%X] and for [%x]. *)
Definition hex_digits (upper : bool) : string :=
  if upper then "0123456789ABCDEF" else "0123456789abcdef".

Definition hex_digit (upper : bool) (d : Z) : ascii :=
  default "0"%char (String.get (Z.to_nat d) (hex_digits upper)).

(** The hexadecimal digits of [n], most significant first, in front of
    [acc]; eight digits are enough for an [unsigned int]. *)
Fixpoint hex_go (upper : bool) (fuel : nat) (n : Z) (acc : string) : string :=
  match fuel with
  | O => acc
  | S fuel' =>
      let acc' := String (hex_digit upper (n mod 16)) acc in
      if n / 16 =? 0 then acc' else hex_go upper fuel' (n / 16) acc'
  end.

(** Minimum field width 2, padded with zeros (the flag [0]). *)
Definition pad02 (s : string) : string :=
  if (String.length s <? 2)%nat then "0" +:+ s else s.

(** [%02x] ([upper = false]) and [%02X] ([upper = true]) of an [int]. *)
Definition hex02 (upper : bool) (v : Z) : string :=
  pad02 (hex_go upper 8 (UINT v) "").

Definition nl : string := String "010"%char "".

End Printf.
Export Printf.

(** ** Style namer *)

(** [strcat ( dst, src )] on the contents of the strings. *)
Definition strcat (dst src : string) : string := dst +:+ src.

(** [FontStyleName ( style )].  [sname] is what the static buffer holds
    on entry; the result is the string copied out of it, which is also
    what the buffer holds afterwards.  The buffer and the block asked
    from [malloc] are followed character by character in [Buffers]. *)
Definition FontStyleName (sname : string) (style : Z) : string :=
  let sname := "" in (* sname [ 0 ] = 0 *)
  let sname := if Z.land style 1 =? 0 then sname else strcat sname "Bold" in
  let sname := if Z.land style 2 =? 0 then sname else strcat sname "Italic" in
  let sname := if Z.land style 4 =? 0 then sname else strcat sname "Underlined" in
  let sname := if Z.land style 8 =? 0 then sname else strcat sname "Outlined" in
  let sname := if Z.land style 16 =? 0 then sname else strcat sname "Shadowed" in
  let sname := if Z.land style 32 =? 0 then sname else strcat sname "Condensed" in
  let sname := if Z.land style 64 =? 0 then sname else strcat sname "Extended" in
  sname.

(** ** Strings in memory *)

(** The style namer and [strdup] once more, on the characters of their
    buffers: [sname] is [char sname [ 128 ]], a string is the characters
    before the first NUL. *)
Module Buffers.

(** [strlen ( s )], with [s] the characters from the one pointed at to
    the end of its object: the number of characters before the first
    NUL.  Without a NUL the search leaves the object. *)
Fixpoint strlen (s : list ascii) : option nat :=
  match s with
  | [] => None
  | c :: rest => if Ascii.eqb c zero then Some 0%nat else S <$> strlen rest
  end.

(** [strcat ( dst, src )] with [src] a string literal: the characters of
    [src] and a NUL are written from the first NUL of [dst] on. *)
Definition strcat (dst : list ascii) (src : string) : option (list ascii) :=
  n ← strlen dst;
  let chars := list_ascii_of_string src ++ [zero] in
  if (length dst <? n + length chars)%nat then None
  else Some (take n dst ++ chars ++ drop (n + length chars) dst).

(** A block obtained from [malloc] and filled by [strcpy]: the size that
    was asked for, the number of characters [strcpy] writes into it (the
    string and its NUL), and the string.  [malloc] is taken to succeed. *)
Record Block := {
  blk_size : nat;
  blk_written : nat;
  blk_string : string
}.

(** [strcpy ( malloc ( size ), src )]. *)
Definition strcpy_malloc (size : nat) (src : list ascii) : option Block :=
  n ← strlen src;
  Some {| blk_size := size;
          blk_written := S n;
          blk_string := string_of_list_ascii (take n src) |}.

(** [strdup ( s )]. *)
Definition strdup (s : list ascii) : option Block :=
  n ← strlen s;
  strcpy_malloc (n + 1) s.

(** [FontStyleName ( style )] on the static buffer [sname]: the buffer
    after the call and the block the call returns, whose size is
    [strlen ( sname + 1 )]. *)
Definition FontStyleName (sname : list ascii) (style : Z)
  : option (list ascii * Block) :=
  sname ← match sname with [] => None | _ :: rest => Some (zero :: rest) end;
  sname ← (if Z.land style 1 =? 0 then Some sname else strcat sname "Bold");
  sname ← (if Z.land style 2 =? 0 then Some sname else strcat sname "Italic");
  sname ← (if Z.land style 4 =? 0 then Some sname else strcat sname "Underlined");
  sname ← (if Z.land style 8 =? 0 then Some sname else strcat sname "Outlined");
  sname ← (if Z.land style 16 =? 0 then Some sname else strcat sname "Shadowed");
  sname ← (if Z.land style 32 =? 0 then Some sname else strcat sname "Condensed");
  sname ← (if Z.land style 64 =? 0 then Some sname else strcat sname "Extended");
  size ← strlen (drop 1 sname);
  retsname ← strcpy_malloc size sname;
  Some (sname, retsname).

(** [strcpy] stayed inside the block it filled.  For [malloc ( 0 )],
    which gives a block as if the size were some nonzero value, the
    block is taken to hold one character. *)
Definition in_block (b : Block) : bool :=
  (blk_written b <=? Nat.max 1 (blk_size b))%nat.

End Buffers.

(** ** The font resource *)

(** A font resource in memory: the address [fp] and the bytes found
    there (the [FontRsrcRec] header, then the bitmap image, the location
    table and the offset/width table). *)
Record FontRsrc := {
  fr_addr : Z;
  fr_bytes : list byte
}.

(** Offsets of the fields of [struct _FontRsrcRec]. *)
Module Hdr.
Definition ftFontType : Z := 0.
Definition ftFirstChar : Z := 2.
Definition ftLastChar : Z := 4.
Definition ftWidMax : Z := 6.
Definition ftKernMax : Z := 8.
Definition ftNDescent : Z := 10.
Definition ftFRectWidth : Z := 12.
Definition ftFRectHeight : Z := 14.
Definition ftOWTLoc : Z := 16.
Definition ftAscent : Z := 18.
Definition ftDescent : Z := 20.
Definition ftLeading : Z := 22.
Definition ftRowWords : Z := 24.
Definition size : Z := 26.
End Hdr.

(** The locals [fg], [lg], [mk], [wd], [ht], [wo], [rw] that both
    [FontInfo] and [FontDump] decode first. *)
Record Layout := {
  fg : Z; lg : Z; mk : Z; wd : Z; ht : Z; wo : Z; rw : Z
}.

(** The seven decoded fields, followed by the [int] computation
    [( rw * ht ) << 1] for the address of the location table. *)
Definition decode_header (m : list byte) : option Layout :=
  fg ← toushort m Hdr.ftFirstChar;
  lg ← toushort m Hdr.ftLastChar;
  mk ← toshort m Hdr.ftKernMax;
  wd ← toshort m Hdr.ftFRectWidth;
  ht ← toshort m Hdr.ftFRectHeight;
  wo ← toushort m Hdr.ftOWTLoc;
  rw ← toshort m Hdr.ftRowWords;
  if 2 ^ 31 <=? Z.shiftl (rw * ht) 1 then None
  else Some {| fg := fg; lg := lg; mk := mk; wd := wd; ht := ht; wo := wo; rw := rw |}.

(** [bitImage = & fp [ 1 ]], as an offset from [fp]. *)
Definition bitImage : Z := Hdr.size.

(** [locTable = & bitImage [ ( rw * ht ) << 1 ]]. *)
Definition locTable (L : Layout) : Z :=
  bitImage + Z.shiftl (rw L * ht L) 1.

(** [owTable = & locTable [ ( lg - fg + 3 ) << 1 ]]. *)
Definition owTable (L : Layout) : Z :=
  locTable L + Z.shiftl (lg L - fg L + 3) 1.

(** ** The environment of a run *)

Inductive byte_order := BigEndian | LittleEndian.

(** The values [FontInfo] stores through its five result parameters. *)
Record FontBox := {
  ret_top : Z; ret_left : Z; ret_bottom : Z; ret_right : Z; ret_ng : Z
}.

Record Env := {
  (** byte order of a [CARD16] load on the host *)
  host_order : byte_order;
  (** the globals [progname] and [quiet] *)
  progname : string;
  quiet : bool;
  (** the characters of the static buffer [sname] of [FontStyleName] *)
  sname_static : list ascii;
  (** what [FontDump]'s automatic variables [top], [left], [bot],
      [right], [ng] hold before anything is stored into them *)
  indeterminate : FontBox;
  (** whether [fopen ( fname, "w+" )] succeeds *)
  can_create : string -> bool
}.

(** ** Scanline words *)

(** A [CARD16] built by the host from two consecutive bytes. *)
Definition load16 (o : byte_order) (b0 b1 : Z) : Z :=
  match o with
  | BigEndian => Z.lor (Z.shiftl b0 8) b1
  | LittleEndian => Z.lor (Z.shiftl b1 8) b0
  end.

(** [bp [ k ]], where [bp] is a [CARD16 *] to the start of the object
    holding the bytes [obj]. *)
Definition word_at (o : byte_order) (obj : list byte) (k : Z) : option Z :=
  b0 ← rd obj (2 * k);
  b1 ← rd obj (2 * k + 1);
  Some (load16 o b0 b1).

(** [memcpy] of [n] bytes out of [m], starting at offset [off], into a
    fresh block of [n] bytes. *)
Definition memcpy_out (m : list byte) (off n : Z) : option (list byte) :=
  if (n <? 0) || (Z.of_nat (length m) <? off + n) then None
  else Some (take (Z.to_nat n) (drop (Z.to_nat off) m)).

(** The object [bp] points into: a copy of the bitmap image when the
    image starts at an odd address, the font resource itself (from
    [bitImage] on) otherwise. *)
Definition scanlines (fp : FontRsrc) (L : Layout) : option (list byte) :=
  if negb (Z.land (fr_addr fp + bitImage) 1 =? 0)
  then memcpy_out (fr_bytes fp) bitImage (ht L * rw L * 2)
  else Some (drop (Z.to_nat bitImage) (fr_bytes fp)).

(** [( bp [ i * rw + ( j / 16 ) ] >> ( 15 - ( j % 16 ) ) ) & 1]. *)
Definition image_bit (o : byte_order) (bp : list byte) (L : Layout) (i j : Z)
  : option Z :=
  w ← word_at o bp (i * rw L + Z.quot j 16);
  Some (Z.land (Z.shiftr w (15 - Z.rem j 16)) 1).

(** ** The raster *)

(** [gp = alloca ( wd * ht )] followed by [memset ( gp, 0, wd * ht )]. *)
Definition alloc_raster (L : Layout) : option (list Z) :=
  if wd L * ht L <? 0 then None
  else Some (replicate (Z.to_nat (wd L * ht L)) 0).

(** [memset ( gp, 0, wd * ht )] on the raster allocated above. *)
Definition clear_raster (gp : list Z) : list Z :=
  replicate (length gp) 0.

(** [gp [ k ]]. *)
Definition gp_get (gp : list Z) (k : Z) : option Z :=
  if k <? 0 then None else gp !! Z.to_nat k.

(** [gp [ k ] = v]. *)
Definition gp_set (gp : list Z) (k v : Z) : option (list Z) :=
  if (k <? 0) || (Z.of_nat (length gp) <=? k) then None
  else Some (<[Z.to_nat k := v]> gp).

(** The two searches for the top and the bottom of the bounding box
    (identical in [FontInfo] and [FontDump]). *)
Definition scan_rows (gp : list Z) (L : Layout) : option (Z * Z) :=
  foldM (fun i tb =>
    foldM (fun j '(top, bot) =>
      bit ← gp_get gp (i * wd L + j);
      let top := if negb (bit =? 0) && (i <? top) then i else top in
      let bot := if negb (bit =? 0) && (bot <? i) then i else bot in
      Some (top, bot))
      (seqZ 0 (wd L)) tb)
    (seqZ 0 (ht L)) (ht L, 0).

(** The search for the left and the right of the bounding box. *)
Definition scan_cols (gp : list Z) (L : Layout) : option (Z * Z) :=
  foldM (fun i lr =>
    foldM (fun j '(lft, rgt) =>
      bit ← gp_get gp (i * wd L + j);
      let lft := if negb (bit =? 0) && (j <? lft) then j else lft in
      let rgt := if negb (bit =? 0) && (rgt <? j) then j else rgt in
      Some (lft, rgt))
      (seqZ 0 (wd L)) lr)
    (seqZ 0 (ht L)) (wd L, 0).

(** ** The global pass *)

(** [coff0] and [coff1] of glyph [g]: two adjacent entries of the
    location table. *)
Definition glyph_columns (m : list byte) (L : Layout) (g : Z) : option (Z * Z) :=
  coff0 ← toushort m (locTable L + Z.shiftl (g - fg L + 0) 1);
  coff1 ← toushort m (locTable L + Z.shiftl (g - fg L + 1) 1);
  Some (coff0, coff1).

(** [ow] of glyph [g]: its entry of the offset/width table. *)
Definition glyph_ow (m : list byte) (L : Layout) (g : Z) : option Z :=
  toushort m (owTable L + Z.shiftl (g - fg L) 1).

(** The overlay of one glyph image on the font raster. *)
Definition overlay_glyph (o : byte_order) (bp : list byte) (L : Layout)
    (coff0 coff1 xoff : Z) (gp : list Z) : option (list Z) :=
  foldM (fun i gp =>
    foldM (fun j gp =>
      if (j - coff0) + xoff <? 0 then Some gp
      else
        bit ← image_bit o bp L i j;
        old ← gp_get gp (i * wd L + (j - coff0) + xoff);
        gp_set gp (i * wd L + (j - coff0) + xoff) (Z.lor old bit))
      (seqZ coff0 (coff1 - coff0)) gp)
    (seqZ 0 (ht L)) gp.

(** The body of the glyph loop of [FontInfo], on the state made of the
    raster [gp] and the counter [ng]. *)
Definition info_glyph (o : byte_order) (m bp : list byte) (L : Layout) (g : Z)
    (st : list Z * Z) : option (list Z * Z) :=
  let '(gp, ng) := st in
  '(coff0, coff1) ← glyph_columns m L g;
  if coff0 =? coff1 then Some (gp, ng)
  else
    ow ← glyph_ow m L g;
    let xoff := INT16 (Z.land (Z.shiftr ow 8) 255 + mk L) in
    gp ← overlay_glyph o bp L coff0 coff1 xoff gp;
    Some (gp, INT16 (ng + 1)).

(** [FontInfo ( fp, ret_top, ret_left, ret_bottom, ret_right, ret_ng )].
    [ret] holds what the five result parameters point at when the call
    is made; the result is what they point at when it returns. *)
Definition FontInfo (env : Env) (fp : FontRsrc) (ret : FontBox) : option FontBox :=
  let m := fr_bytes fp in
  L ← decode_header m;
  if lg L =? fg L then Some ret
  else
    bp ← scanlines fp L;
    gp ← alloc_raster L;
    '(gp, ng) ← for_glyphs (info_glyph (host_order env) m bp L) (fg L) (lg L) (gp, 0);
    '(top, bot) ← scan_rows gp L;
    '(lft, rgt) ← scan_cols gp L;
    Some {| ret_top := top;
            ret_left := INT16 (lft + mk L);
            ret_bottom := bot;
            ret_right := INT16 (rgt + mk L);
            ret_ng := ng |}.

(** ** The emitter *)

(** What a call of [FontDump] leaves behind: the file it created (name
    and contents), and what it printed on the standard output and on the
    standard error. *)
Record Effects := {
  created : option (string * string);
  to_stdout : string;
  to_stderr : string
}.

Definition no_effects : Effects :=
  {| created := None; to_stdout := ""; to_stderr := "" |}.

Definition dq : string := String "034"%char "".

(** The extraction of one glyph image into the raster. *)
Definition extract_glyph (o : byte_order) (bp : list byte) (L : Layout)
    (coff0 coff1 : Z) (gp : list Z) : option (list Z) :=
  foldM (fun i gp =>
    foldM (fun j gp =>
      bit ← image_bit o bp L i j;
      gp_set gp (i * wd L + (j - coff0)) bit)
      (seqZ coff0 (coff1 - coff0)) gp)
    (seqZ 0 (ht L)) gp.

(** One row of the [BITMAP] section: the inner loop over [j] and the
    two [fprintf] that end the line. *)
Definition dump_row (gp : list Z) (L : Layout) (span i : Z) : option string :=
  '(bits, out) ← foldM (fun j '(bits, out) =>
      px ← gp_get gp (i * wd L + j);
      let bits := Z.lor bits px in
      let '(bits, out) :=
        if Z.land j 7 =? 7 then (0, out +:+ hex02 false bits) else (bits, out) in
      Some (Z.shiftl bits 1, out))
    (seqZ 0 span) (0, "");
  let j := Z.max 0 span in
  let bits := Z.shiftl bits (7 - Z.rem j 8) in
  Some (if negb (Z.land j 7 =? 0) then out +:+ hex02 false bits +:+ nl
        else out +:+ nl).

(** The rows [top] to [bot] of the [BITMAP] section. *)
Definition dump_bitmap (gp : list Z) (L : Layout) (span top bot : Z) : option string :=
  foldM (fun i out => row ← dump_row gp L span i; Some (out +:+ row))
    (seqZ top (bot - top + 1)) "".

(** The lines of a glyph record from [STARTCHAR] to [BITMAP]. *)
Definition glyph_head (L : Layout) (g ow coff0 coff1 top bot descent : Z) : string :=
  "STARTCHAR GCID" +:+ hex02 true g +:+ nl +:+
  "ENCODING " +:+ dec g +:+ nl +:+
  "SWIDTH " +:+ dec (Z.land ow 255 * 720) +:+ " " +:+ dec 0 +:+ nl +:+
  "DWIDTH " +:+ dec (Z.land ow 255) +:+ " " +:+ dec 0 +:+ nl +:+
  "BBX " +:+ dec (coff1 - coff0) +:+ " " +:+ dec (bot - top + 1) +:+ " " +:+
     dec (Z.land (Z.shiftr ow 8) 255 + mk L) +:+ " " +:+
     dec (ht L - descent - (bot + 1)) +:+ nl +:+
  "BITMAP" +:+ nl.

(** The body of the glyph loop of [FontDump]: [out] is what has been
    written to the file so far.  The raster is cleared before each
    extraction, so only its size is carried from one glyph to the next. *)
Definition dump_glyph (o : byte_order) (m bp : list byte) (L : Layout)
    (gp0 : list Z) (g : Z) (out : string) : option string :=
  '(coff0, coff1) ← glyph_columns m L g;
  if coff0 =? coff1 then Some out
  else
    ow ← glyph_ow m L g;
    gp ← extract_glyph o bp L coff0 coff1 (clear_raster gp0);
    '(top, bot) ← scan_rows gp L;
    descent ← toshort m Hdr.ftDescent;
    rows ← dump_bitmap gp L (coff1 - coff0) top bot;
    Some (out +:+ glyph_head L g ow coff0 coff1 top bot descent +:+ rows +:+
          "ENDCHAR" +:+ nl).

(** The name of the output file and of the font:
    [sprintf ( fname, "%s%s-%d", name, FontStyleName ( style ), size )]. *)
Definition font_id (name sname : string) (size : Z) : string :=
  name +:+ sname +:+ "-" +:+ dec size.

(** The lines of the file from [STARTFONT] to [CHARS]. *)
Definition font_head (L : Layout) (id : string) (size : Z) (b : FontBox)
    (ascent descent : Z) : string :=
  "STARTFONT 2.1" +:+ nl +:+
  "FONT " +:+ id +:+ nl +:+
  "SIZE " +:+ dec size +:+ " " +:+ dec 72 +:+ " " +:+ dec 72 +:+ nl +:+
  "FONTBOUNDINGBOX " +:+ dec (ret_right b - ret_left b + 1) +:+ " " +:+
     dec (ret_bottom b - ret_top b + 1) +:+ " " +:+ dec (mk L) +:+ " " +:+
     dec (ht L - descent - (ret_bottom b + 1)) +:+ nl +:+
  "STARTPROPERTIES 2" +:+ nl +:+
  "FONT_ASCENT " +:+ dec ascent +:+ nl +:+
  "FONT_DESCENT " +:+ dec descent +:+ nl +:+
  "ENDPROPERTIES" +:+ nl +:+
  "CHARS " +:+ dec (ret_ng b) +:+ nl.

(** A call [FontStyleName ( style )] made by [FontDump], on the static
    buffer [sname]: the buffer after the call and the string of the
    block returned, which [FontDump] prints.  The call has no defined
    result when [strcpy] wrote outside the block. *)
Definition style_name (sname : list ascii) (style : Z)
  : option (list ascii * string) :=
  '(sname, retsname) ← Buffers.FontStyleName sname style;
  if Buffers.in_block retsname then Some (sname, Buffers.blk_string retsname)
  else None.

(** [FontDump ( fp, name, style, size )]; [None] for [fp] or [name] is
    the null pointer.  The result is the returned [int] and the effects
    of the call. *)
Definition FontDump (env : Env) (fp : option FontRsrc) (name : option string)
    (style size : Z) : option (Z * Effects) :=
  match fp, name with
  | Some fp, Some name =>
    if size =? 0 then Some (1, no_effects)
    else
      let m := fr_bytes fp in
      L ← decode_header m;
      if lg L =? fg L then Some (1, no_effects)
      else
        '(sname, sn1) ← style_name (sname_static env) style;
        let fname := font_id name sn1 size +:+ ".bdf" in
        (* fname is a char [ 128 ] *)
        if (128 <=? String.length fname)%nat then None
        else if negb (can_create env fname) then
          Some (0, {| created := None;
                      to_stdout := "";
                      to_stderr := progname env +:+ ": can't create output file " +:+
                                   dq +:+ fname +:+ dq +:+ nl |})
        else
          info ← FontInfo env fp (indeterminate env);
          '(sname, sn2) ← (if quiet env then Some (sname, sn1)
                           else style_name sname style);
          let shown :=
            if quiet env then ""
            else "Dumping " +:+ dec (ret_ng info) +:+ " glyphs to " +:+
                 dq +:+ font_id name sn2 size +:+ ".bdf" +:+ dq +:+ nl in
          '(_, sn3) ← style_name sname style;
          descent ← toshort m Hdr.ftDescent;
          ascent ← toshort m Hdr.ftAscent;
          let out := font_head L (font_id name sn3 size) size info ascent descent in
          bp ← scanlines fp L;
          gp ← alloc_raster L;
          out ← for_glyphs (dump_glyph (host_order env) m bp L gp) (fg L) (lg L) out;
          Some (1, {| created := Some (fname, out +:+ "ENDFONT" +:+ nl);
                      to_stdout := shown;
                      to_stderr := "" |})
  | _, _ => Some (1, no_effects)
  end.

(** ** Concrete resources *)

Module Sample.

Definition byte_of (z : Z) : byte :=
  default "000"%byte (Byte.of_N (Z.to_N (z mod 256))).

(** The two bytes of a 16-bit value, most significant first. *)
Definition be16 (z : Z) : list byte :=
  [byte_of (Z.shiftr z 8); byte_of z].

Definition words (l : list Z) : list byte := concat (map be16 l).

(** A resource from its header fields, scanline words, location table
    and offset/width table. *)
Definition resource (addr : Z) (first last kern width height ascent descent rowwords : Z)
    (image loc ow : list Z) : FontRsrc :=
  {| fr_addr := addr;
     fr_bytes := words [36864; first; last; 0; kern; 0; width; height; 0;
                        ascent; descent; 0; rowwords]
                 ++ words image ++ words loc ++ words ow |}.

(** A run on host [o], not quiet, in which [fopen] succeeds when [ok]
    and the static buffer of [FontStyleName] is as the program starts
    with it. *)
Definition env (o : byte_order) (ok : bool) : Env :=
  {| host_order := o; progname := "mac2bdf"; quiet := false;
     sname_static := replicate 128 zero;
     indeterminate := {| ret_top := 0; ret_left := 0; ret_bottom := 0;
                         ret_right := 0; ret_ng := 0 |};
     can_create := fun _ => ok |}.

(** The scenario: ['A'] with four columns of ink [1010], ['B'] with
    none, one scanline of one word. *)
Definition scenario (addr : Z) : FontRsrc :=
  resource addr 65 66 0 4 1 1 0 1 [40960] [0; 4; 4; 4] [8; 65535; 65535].

(** A resource whose first and last character codes are equal. *)
Definition single_char : FontRsrc :=
  resource 0 65 65 0 4 1 1 0 1 [40960] [0; 4; 4] [8; 65535].

(** A resource with two character codes and no ink at all: every entry
    of its location table is the same. *)
Definition blank : FontRsrc :=
  resource 0 65 66 0 4 1 1 0 1 [0] [0; 0; 0; 0] [8; 8; 65535].


(** The result variables of a caller of [FontInfo], all holding 7. *)
Definition sevens : FontBox :=
  {| ret_top := 7; ret_left := 7; ret_bottom := 7; ret_right := 7; ret_ng := 7 |}.

(** A text from its lines. *)
Definition unlines (ls : list string) : string :=
  foldr (fun l s => l +:+ nl +:+ s) "" ls.

(** The locals decoded from the header of the scenario. *)
Definition scenario_layout : Layout :=
  {| fg := 65; lg := 66; mk := 0; wd := 4; ht := 1; wo := 0; rw := 1 |}.

(** The file [FontDump] writes for the scenario, but for the row of the
    bitmap. *)
Definition scenario_file (row : string) : string :=
  unlines ["STARTFONT 2.1"; "FONT Test-12"; "SIZE 12 72 72";
           "FONTBOUNDINGBOX 3 1 0 0"; "STARTPROPERTIES 2"; "FONT_ASCENT 1";
           "FONT_DESCENT 0"; "ENDPROPERTIES"; "CHARS 1";
           "STARTCHAR GCID41"; "ENCODING 65"; "SWIDTH 5760 0"; "DWIDTH 8 0";
           "BBX 4 1 0 0"; "BITMAP"; row; "ENDCHAR"; "ENDFONT"].

End Sample.

(** ** Specification-side definitions *)



(** A raster cell holds one pixel. *)
Definition pixel (v : Z) : Prop := v = 0 \/ v = 1.

(** The loop invariant of the extraction: what holds of the raster once
    the rows before [i] and the columns before [j] of row [i] have been
    written. *)
Definition extracted (o : byte_order) (bp : list byte) (L : Layout)
    (coff0 coff1 : Z) (gp0 : list Z) (i j : Z) (gp : list Z) : Prop :=
  length gp = length gp0 /\
  Forall pixel gp /\
  forall i' j', 0 <= i' -> coff0 <= j' < coff1 ->
    i' < i \/ (i' = i /\ j' < j) ->
    gp_get gp (i' * wd L + (j' - coff0)) = image_bit o bp L i' j'.

(** *** Rows of the [BITMAP] section, as the specification words them *)

(** The pixels of row [i] of a raster, columns [0] to [span - 1]. *)
Definition row_pixels (gp : list Z) (L : Layout) (span i : Z) : option (list Z) :=
  mapM (fun j => gp_get gp (i * wd L + j)) (seqZ 0 span).

(** The number a list of bits denotes, most significant bit first. *)
Definition bits_value (bs : list Z) : Z :=
  foldl (fun a b => 2 * a + b) 0 bs.

(** A byte from at most eight bits: the bits from the most significant
    position down, then zeros. *)
Definition pack_byte (bs : list Z) : Z :=
  bits_value (bs ++ replicate (8 - length bs) 0).

(** The first [n] groups of eight of a list. *)
Fixpoint chunks8 (n : nat) (bs : list Z) : list (list Z) :=
  match n with
  | O => []
  | S n' => take 8 bs :: chunks8 n' (drop 8 bs)
  end.

(** The bytes of a row of pixels: groups of eight, the last one padded. *)
Definition row_bytes (bs : list Z) : list Z :=
  pack_byte <$> chunks8 (Nat.div (length bs + 7) 8) bs.

(** The row as hexadecimal pairs. *)
Definition row_hex (upper : bool) (bs : list Z) : string :=
  foldr (fun v s => hex02 upper v +:+ s) "" (row_bytes bs).

(** The rows of a [BITMAP] section, one per line. *)
Definition bitmap_text (upper : bool) (rows : list (list Z)) : string :=
  foldr (fun r s => row_hex upper r +:+ nl +:+ s) "" rows.

(** *** Reading a [BITMAP] section back *)

(** The position of a character in a string, counted from [k]. *)
Fixpoint position (c : ascii) (s : string) (k : Z) : option Z :=
  match s with
  | EmptyString => None
  | String d s' => if Ascii.eqb c d then Some k else position c s' (k + 1)
  end.

(** The value of a hexadecimal digit of either case. *)
Definition hex_digit_value (c : ascii) : option Z :=
  match position c (hex_digits false) 0 with
  | Some v => Some v
  | None => position c (hex_digits true) 0
  end.

(** The bytes a string of hexadecimal pairs denotes. *)
Fixpoint decode_hex (s : string) : option (list Z) :=
  match s with
  | EmptyString => Some []
  | String h (String l rest) =>
      hv ← hex_digit_value h;
      lv ← hex_digit_value l;
      bytes ← decode_hex rest;
      Some (16 * hv + lv :: bytes)
  | String _ EmptyString => None
  end.

(** The eight bits of a byte, most significant first. *)
Definition byte_bits (v : Z) : list Z :=
  (fun k => Z.b2z (Z.testbit v k)) <$> [7; 6; 5; 4; 3; 2; 1; 0].

(** The pixels of a row from its hexadecimal pairs: the bits of the
    bytes, most significant first, cut at the glyph's column span. *)
Definition decode_row (line : string) (span : Z) : option (list Z) :=
  bytes ← decode_hex line;
  Some (take (Z.to_nat span) (concat (byte_bits <$> bytes))).

(** *** The loop of [dump_row] on pixels already read *)

Fixpoint pack_loop (pxs : list Z) (j bits : Z) (out : string) : Z * string :=
  match pxs with
  | [] => (bits, out)
  | px :: rest =>
      let bits := Z.lor bits px in
      let '(bits, out) :=
        if Z.land j 7 =? 7 then (0, out +:+ hex02 false bits) else (bits, out) in
      pack_loop rest (j + 1) (Z.shiftl bits 1) out
  end.

(** *** The rows of a glyph that carry ink *)

(** Cell [(i, j)] of the raster is set. *)
Definition ink_at (gp : list Z) (L : Layout) (i j : Z) : Prop :=
  exists v, gp_get gp (i * wd L + j) = Some v /\ v <> 0.

(** Row [i] of the raster has a set cell among the cells that come
    before [(i0, j0)] in scan order. *)
Definition ink_before (gp : list Z) (L : Layout) (i0 j0 i : Z) : Prop :=
  exists j, 0 <= j < wd L /\ (i < i0 \/ (i = i0 /\ j < j0)) /\ ink_at gp L i j.

(** Row [i] of the raster has a set cell. *)
Definition inked (gp : list Z) (L : Layout) (i : Z) : Prop :=
  exists j, 0 <= j < wd L /\ ink_at gp L i j.

(** The loop invariant of [scan_rows]: [top] and [bot] are the first and
    the last row with ink before [(i0, j0)], or [ht] and [0] when there
    is none. *)
Definition rows_scanned (gp : list Z) (L : Layout) (i0 j0 : Z) (tb : Z * Z) : Prop :=
  let '(top, bot) := tb in
  (top = ht L /\ bot = 0 /\ forall i, 0 <= i -> ~ ink_before gp L i0 j0 i) \/
  (0 <= top <= bot /\ bot < ht L /\
   ink_before gp L i0 j0 top /\ ink_before gp L i0 j0 bot /\
   forall i, 0 <= i -> ink_before gp L i0 j0 i -> top <= i <= bot).

(** [top] and [bot] are the first and the last row of the raster with
    ink, or [ht] and [0] when the raster has none. *)
Definition ink_rows (gp : list Z) (L : Layout) (top bot : Z) : Prop :=
  (top = ht L /\ bot = 0 /\ forall i, 0 <= i < ht L -> ~ inked gp L i) \/
  (0 <= top <= bot /\ bot < ht L /\ inked gp L top /\ inked gp L bot /\
   forall i, 0 <= i < ht L -> inked gp L i -> top <= i <= bot).

(** The lines of a text, each ended by a newline. *)
Fixpoint lines_of (s : string) : list string :=
  match s with
  | EmptyString => []
  | String c s' =>
      if Ascii.eqb c "010"%char then EmptyString :: lines_of s'
      else match lines_of s' with
           | [] => [String c EmptyString]
           | l :: ls => String c l :: ls
           end
  end.

(** The pixel rows of a [BITMAP] section, read back line by line. *)
Definition decode_bitmap (text : string) (span : Z) : option (list (list Z)) :=
  mapM (fun line => decode_row line span) (lines_of text).

(** Bit [c] of row [k] of the rows read back from a [BITMAP] section. *)
Definition bit_at (rows : list (list Z)) (k c : Z) : option Z :=
  row ← rows !! Z.to_nat k; row !! Z.to_nat c.

(** A string without a newline. *)
Fixpoint one_line (s : string) : Prop :=
  match s with
  | EmptyString => True
  | String c s' => Ascii.eqb c "010"%char = false /\ one_line s'
  end.

(** *** Glyphs the emitter can place *)

(** The bitmap image lies inside the resource, the columns [coff0] to
    [coff1] of a glyph lie inside the scanline, and the span of the
    glyph fits the width of the raster. *)
Definition glyph_in_bounds (fp : FontRsrc) (L : Layout) (coff0 coff1 : Z) : Prop :=
  0 < ht L /\ 0 <= rw L /\
  bitImage + 2 * (ht L * rw L) <= Z.of_nat (length (fr_bytes fp)) /\
  coff0 <= coff1 <= 16 * rw L /\
  coff1 - coff0 <= wd L.

(** *** Live glyphs *)

(** Glyph [g] has no ink: its two entries of the location table are
    equal. *)
Definition empty_glyph (m : list byte) (L : Layout) (g : Z) : bool :=
  match glyph_columns m L g with
  | Some (coff0, coff1) => coff0 =? coff1
  | None => false
  end.

(** The character codes from [fg] to [lg] whose glyph is not empty. *)
Definition live_glyphs (m : list byte) (L : Layout) : list Z :=
  filter (fun g => empty_glyph m L g = false) (seqZ (fg L) (lg L - fg L + 1)).

(** *** Resources the conversion is defined on *)

(** Glyph [g] can be converted: its entries of the two tables lie inside
    the resource and, unless it is empty, its columns lie inside the
    scanline, its span fits the width of the raster, and so does the
    span shifted by the origin offset of the global pass. *)
Definition glyph_valid (m : list byte) (L : Layout) (g : Z) : bool :=
  match glyph_columns m L g with
  | Some (coff0, coff1) =>
      (coff0 =? coff1) ||
      match glyph_ow m L g with
      | Some ow =>
          let xoff := INT16 (Z.land (Z.shiftr ow 8) 255 + mk L) in
          (coff0 <=? coff1) && (coff1 <=? 16 * rw L) &&
          (coff1 - coff0 <=? wd L) && (coff1 - coff0 + xoff <=? wd L)
      | None => false
      end
  | None => false
  end.

(** The resource can be converted: it has at least one scanline, its
    bitmap image lies inside it, its last character code is not the
    largest [CARD16] and every glyph from the first to the last character
    code can be converted. *)
Definition valid_font (fp : FontRsrc) (L : Layout) : bool :=
  (0 <? ht L) && (0 <=? rw L) && (0 <=? wd L) && (lg L <? 65535) &&
  (bitImage + 2 * (ht L * rw L) <=? Z.of_nat (length (fr_bytes fp))) &&
  forallb (glyph_valid (fr_bytes fp) L) (seqZ (fg L) (lg L - fg L + 1)).

(** The name of the file [FontDump] opens. *)
Definition output_name (env : Env) (name : string) (style size : Z) : string :=
  font_id name (FontStyleName (string_of_list_ascii (sname_static env)) style) size
  +:+ ".bdf".


(** The static buffer of [FontStyleName] has its 128 characters, and
    the last of them is a NUL (as at the start of the program, and after
    every call). *)
Definition sname_ok (sname : list ascii) : bool :=
  (length sname =? 128)%nat && bool_decide (sname !! 127%nat = Some zero).

(** Arguments on which a call of [FontDump] is defined: the header can
    be read when it is read; when the style is named, none of its seven
    low bits is set (the block of the name is too short otherwise); the
    name of the file fits its buffer when it is built, and the resource
    can be converted when it is converted. *)
Definition dump_defined (env : Env) (fp : option FontRsrc) (name : option string)
    (style size : Z) : bool :=
  match fp, name with
  | Some fp, Some name =>
      (size =? 0) ||
      match decode_header (fr_bytes fp) with
      | Some L =>
          (lg L =? fg L) ||
          (sname_ok (sname_static env) && (Z.land style 127 =? 0) &&
           (String.length (output_name env name style size) <? 128)%nat &&
           (negb (can_create env (output_name env name style size)) || valid_font fp L))
      | None => false
      end
  | _, _ => true
  end.

(** *** Style names *)

(** The name from the seven bits [FontStyleName] tests. *)
Definition name_of_bits (b0 b1 b2 b3 b4 b5 b6 : bool) : string :=
  (if b0 then "Bold" else "") +:+ (if b1 then "Italic" else "") +:+
  (if b2 then "Underlined" else "") +:+ (if b3 then "Outlined" else "") +:+
  (if b4 then "Shadowed" else "") +:+ (if b5 then "Condensed" else "") +:+
  (if b6 then "Extended" else "").

(** The style below 128 that [s] names, if there is one. *)
Definition style_of_name (s : string) : option Z :=
  find (fun style => bool_decide (FontStyleName "" style = s)) (seqZ 0 128).

(** A string without a NUL. *)
Definition no_nul (s : string) : Prop :=
  Forall (fun c => Ascii.eqb c zero = false) (list_ascii_of_string s).

(** The buffer [sname] holds the string [s], which has no NUL and at
    most [bound] characters, then a NUL; it has 128 characters and the
    last of them is a NUL. *)
Definition buffer_holds (buf : list ascii) (s : string) (bound : nat) : Prop :=
  length buf = 128%nat /\ buf !! 127%nat = Some zero /\
  (String.length s <= bound)%nat /\ no_nul s /\
  exists rest, buf = list_ascii_of_string s ++ zero :: rest.

(** *** Reading glyph names back *)

(** The number a string of hexadecimal digits denotes, [acc] standing
    for the digits already read. *)
Fixpoint hex_value (s : string) (acc : Z) : option Z :=
  match s with
  | EmptyString => Some acc
  | String c s' => d ← hex_digit_value c; hex_value s' (16 * acc + d)
  end.

(** *** Glyph records *)

(** [record] is the record of glyph [g]: the lines from [STARTCHAR] to
    [BITMAP] for the glyph's entries of the two tables and the first
    and the last row of its raster that carry ink, then those rows of
    the raster and no other, one line of hexadecimal pairs each, then
    the [ENDCHAR] line.  The raster is what the extraction leaves in
    the cleared raster [gp0]. *)
Definition glyph_record (o : byte_order) (m bp : list byte) (L : Layout)
    (gp0 : list Z) (g : Z) (record : string) : Prop :=
  exists coff0 coff1 ow descent gp top bot rows,
    glyph_columns m L g = Some (coff0, coff1) /\
    glyph_ow m L g = Some ow /\
    toshort m Hdr.ftDescent = Some descent /\
    extract_glyph o bp L coff0 coff1 (clear_raster gp0) = Some gp /\
    ink_rows gp L top bot /\
    mapM (row_pixels gp L (coff1 - coff0)) (seqZ top (bot - top + 1)) = Some rows /\
    record = glyph_head L g ow coff0 coff1 top bot descent +:+
             bitmap_text false rows +:+ "ENDCHAR" +:+ nl.

(** *** The columns of a raster that carry ink *)

(** Column [j] of the raster has a set cell among the cells that come
    before [(i0, j0)] in scan order. *)
Definition col_ink_before (gp : list Z) (L : Layout) (i0 j0 j : Z) : Prop :=
  exists i, 0 <= i /\ (i < i0 \/ (i = i0 /\ j < j0)) /\ ink_at gp L i j.

(** Column [j] of the raster has a set cell. *)
Definition col_inked (gp : list Z) (L : Layout) (j : Z) : Prop :=
  exists i, 0 <= i < ht L /\ ink_at gp L i j.

(** The loop invariant of [scan_cols]: [lft] and [rgt] are the first and
    the last column with ink before [(i0, j0)], or [wd] and [0] when
    there is none. *)
Definition cols_scanned (gp : list Z) (L : Layout) (i0 j0 : Z) (lr : Z * Z) : Prop :=
  let '(lft, rgt) := lr in
  (lft = wd L /\ rgt = 0 /\
   forall j, 0 <= j < wd L -> ~ col_ink_before gp L i0 j0 j) \/
  (0 <= lft <= rgt /\ rgt < wd L /\
   col_ink_before gp L i0 j0 lft /\ col_ink_before gp L i0 j0 rgt /\
   forall j, 0 <= j < wd L -> col_ink_before gp L i0 j0 j -> lft <= j <= rgt).

(** [lft] and [rgt] are the first and the last column of the raster with
    ink, or [wd] and [0] when the raster has none. *)
Definition ink_cols (gp : list Z) (L : Layout) (lft rgt : Z) : Prop :=
  (lft = wd L /\ rgt = 0 /\ forall j, 0 <= j < wd L -> ~ col_inked gp L j) \/
  (0 <= lft <= rgt /\ rgt < wd L /\ col_inked gp L lft /\ col_inked gp L rgt /\
   forall j, 0 <= j < wd L -> col_inked gp L j -> lft <= j <= rgt).

(** *** The ink of a font *)

(** Glyph [g] sets cell [(i, c)] of the raster of the global pass: one
    of its columns lands on column [c] and has its bit set in scanline
    [i]. *)
Definition glyph_ink (o : byte_order) (m bp : list byte) (L : Layout)
    (g i c : Z) : Prop :=
  exists coff0 coff1 ow j,
    glyph_columns m L g = Some (coff0, coff1) /\ coff0 <> coff1 /\
    glyph_ow m L g = Some ow /\
    coff0 <= j < coff1 /\
    c = j - coff0 + INT16 (Z.land (Z.shiftr ow 8) 255 + mk L) /\
    image_bit o bp L i j = Some 1.

(** A glyph of the font sets cell [(i, c)], which lies in a scanline and
    is not to the left of the raster. *)
Definition font_ink (o : byte_order) (m bp : list byte) (L : Layout)
    (i c : Z) : Prop :=
  0 <= i < ht L /\ 0 <= c /\
  exists g, fg L <= g <= lg L /\ glyph_ink o m bp L g i c.

(** The loop invariant of the overlay of one glyph: the raster holds the
    cells it held and the cells set by the columns before [j] of
    scanline [i] and by the scanlines before [i]. *)
Definition overlaid (o : byte_order) (bp : list byte) (L : Layout)
    (coff0 coff1 xoff : Z) (gp0 : list Z) (i j : Z) (gp : list Z) : Prop :=
  length gp = length gp0 /\ Forall pixel gp /\
  forall i' c, 0 <= i' < ht L -> 0 <= c < wd L ->
    (ink_at gp L i' c <->
     ink_at gp0 L i' c \/
     exists j', coff0 <= j' < coff1 /\ (i' < i \/ (i' = i /\ j' < j)) /\
                c = j' - coff0 + xoff /\ image_bit o bp L i' j' = Some 1).

(** * Properties *)

(** One step of a run: the bind of a defined computation. *)
Ltac step := cbn [mbind option_bind].
Tactic Notation "step" "in" hyp(H) := cbn [mbind option_bind] in H.

(** ** Integer conversions *)

Lemma CARD16_range z : 0 <= CARD16 z < 65536.
Proof. unfold CARD16. apply Z.mod_pos_bound. lia. Qed.

Lemma CARD16_id z : 0 <= z < 65536 -> CARD16 z = z.
Proof. intros. unfold CARD16. apply Z.mod_small. lia. Qed.

(** ** Loops *)

Section Loops.

Context {A S : Type}.

Lemma foldM_app (f : A -> S -> option S) l1 l2 s :
  foldM f (l1 ++ l2) s = s' ← foldM f l1 s; foldM f l2 s'.
Proof.
  revert s. induction l1 as [|x l1 IH]; intros s; simpl; [done|].
  destruct (f x s) as [s'|]; simpl; [apply IH|done].
Qed.


End Loops.

(** What every defined iteration preserves holds when a defined loop
    ends. *)
Lemma foldM_preserves {A S : Type} (P : S -> Prop) (f : A -> S -> option S) l :
  (forall x s s', f x s = Some s' -> P s -> P s') ->
  forall s s', P s -> foldM f l s = Some s' -> P s'.
Proof.
  intros Hstep. induction l as [|x l IH]; intros s s' Hs Hrun.
  - by injection Hrun as <-.
  - cbn [foldM] in Hrun. destruct (f x s) as [s1|] eqn:Hx; [|done].
    step in Hrun. eauto.
Qed.

(** A loop with an iteration that is never defined is not defined. *)
Lemma foldM_undefined_at {A S : Type} (f : A -> S -> option S) l x :
  x ∈ l -> (forall s, f x s = None) -> forall s, foldM f l s = None.
Proof.
  intros Hx Hnone. induction l as [|y l IH]; intros s; [by apply elem_of_nil in Hx|].
  cbn [foldM]. apply elem_of_cons in Hx as [<-|Hx].
  - by rewrite Hnone.
  - destruct (f y s); step; [by apply IH|done].
Qed.

(** Iterations that leave the state alone can be left out of a loop. *)
Lemma foldM_skip {A S : Type} (f : A -> S -> option S) (skip : A -> bool) l s :
  (forall x s, skip x = true -> f x s = Some s) ->
  foldM f l s = foldM f (filter (fun x => skip x = false) l) s.
Proof.
  intros Hskip. revert s. induction l as [|x l IH]; intros s; [done|].
  rewrite filter_cons. destruct (skip x) eqn:Hx.
  - rewrite decide_False by done. cbn [foldM]. rewrite Hskip by done. apply IH.
  - rewrite decide_True by done. cbn [foldM].
    destruct (f x s) as [s'|]; step; [apply IH|done].
Qed.

(** The same, for a loop over an interval, with an invariant that may
    mention the loop counter. *)
Lemma foldM_seqZ_invariant {S : Type} (P : Z -> S -> Prop)
    (f : Z -> S -> option S) (lo n : Z) (s : S) :
  P lo s ->
  (forall k s, lo <= k < lo + n -> P k s -> exists s', f k s = Some s' /\ P (k + 1) s') ->
  exists s', foldM f (seqZ lo n) s = Some s' /\ P (lo + Z.max 0 n) s'.
Proof.
  destruct (Z.le_gt_cases n 0) as [Hn|Hn].
  { intros Hs _. rewrite seqZ_nil by done. simpl.
    replace (lo + Z.max 0 n) with lo by lia. eauto. }
  replace (Z.max 0 n) with n by lia.
  rewrite <- (Z2Nat.id n) by lia. generalize (Z.to_nat n) as k. clear Hn.
  intros k. revert s. induction k as [|k IH]; intros s Hs Hstep.
  - simpl. rewrite Z.add_0_r. eauto.
  - rewrite seqZ_S, foldM_app.
    destruct (IH s Hs) as (s1 & -> & Hs1).
    { intros j s2 Hj. apply Hstep. lia. }
    simpl.
    destruct (Hstep (lo + Z.of_nat k) s1) as (s2 & -> & Hs2); [lia|done|].
    simpl. exists s2. split; [done|].
    replace (lo + Z.of_nat (Datatypes.S k)) with (lo + Z.of_nat k + 1) by lia. done.
Qed.

(** The glyph loop exits exactly when [lg] is not the largest [CARD16],
    and then runs the body on [fg], ..., [lg] in order. *)
Lemma glyph_loop_seqZ {S : Type} (body : Z -> S -> option S) (lg : Z) :
  lg < 65535 ->
  forall (n : nat) (g : Z) (s : S),
    0 <= g -> g + Z.of_nat n = lg + 1 ->
    glyph_loop body lg (Datatypes.S n) g s = foldM body (seqZ g (Z.of_nat n)) s.
Proof.
  intros Hlg n. induction n as [|n IH]; intros g s Hg Hn.
  - simpl. destruct (Z.leb_spec g lg); [lia|done].
  - change (glyph_loop body lg (Datatypes.S (Datatypes.S n)) g s)
      with (if g <=? lg
            then s' ← body g s; glyph_loop body lg (Datatypes.S n) (CARD16 (g + 1)) s'
            else Some s).
    destruct (Z.leb_spec g lg); [|lia].
    rewrite seqZ_cons by lia. cbn [foldM].
    destruct (body g s) as [s'|]; step; [|done].
    rewrite CARD16_id by lia.
    rewrite IH by lia.
    replace (Z.pred (Z.of_nat (Datatypes.S n))) with (Z.of_nat n) by lia.
    done.
Qed.

Lemma for_glyphs_seqZ {S : Type} (body : Z -> S -> option S) (fg lg : Z) (s : S) :
  0 <= fg -> lg < 65535 ->
  for_glyphs body fg lg s = foldM body (seqZ fg (lg - fg + 1)) s.
Proof.
  intros Hfg Hlg. unfold for_glyphs.
  destruct (Z.le_gt_cases fg (lg + 1)) as [Hle|Hgt].
  - rewrite glyph_loop_seqZ by lia. by rewrite Z2Nat.id by lia.
  - replace (Z.to_nat (lg - fg + 1)) with 0%nat by lia.
    rewrite seqZ_nil by lia. simpl.
    destruct (Z.leb_spec fg lg); [lia|done].
Qed.

(** With [lg = 65535] the test [g <= lg] holds for every [CARD16]: the
    loop has no result, whatever the fuel. *)
Lemma glyph_loop_never_exits {S : Type} (body : Z -> S -> option S) (fuel : nat) :
  forall (g : Z) (s : S), g < 65536 -> glyph_loop body 65535 fuel g s = None.
Proof.
  induction fuel as [|fuel IH]; intros g s Hg; simpl; [done|].
  destruct (Z.leb_spec g 65535); [|lia].
  destruct (body g s) as [s'|]; simpl; [|done].
  apply IH. pose proof (CARD16_range (g + 1)). lia.
Qed.

(** ** The style namer *)

Lemma land_pow2_testbit (m k : Z) :
  0 <= k -> (Z.land m (2 ^ k) =? 0) = negb (Z.testbit m k).
Proof.
  intros Hk.
  assert (Z.land m (2 ^ k) = if Z.testbit m k then 2 ^ k else 0) as ->.
  { apply Z.bits_inj'. intros n Hn.
    rewrite Z.land_spec, Z.pow2_bits_eqb by done.
    destruct (Z.eqb_spec k n) as [->|Hne].
    - destruct (Z.testbit m n); simpl.
      + by rewrite Z.pow2_bits_true.
      + by rewrite Z.bits_0.
    - rewrite andb_false_r. destruct (Z.testbit m k).
      + by rewrite Z.pow2_bits_false.
      + by rewrite Z.bits_0. }
  destruct (Z.testbit m k); simpl; [|done].
  apply Z.eqb_neq. pose proof (Z.pow_pos_nonneg 2 k). lia.
Qed.


(** ** Early returns of the emitter *)

Lemma FontInfo_equal_chars env fp L ret :
  decode_header (fr_bytes fp) = Some L -> lg L = fg L ->
  FontInfo env fp ret = Some ret.
Proof.
  intros HL Heq. unfold FontInfo. rewrite HL. simpl.
  rewrite Heq, Z.eqb_refl. done.
Qed.

Lemma FontDump_equal_chars env fp L name style size :
  decode_header (fr_bytes fp) = Some L -> lg L = fg L ->
  FontDump env (Some fp) name style size = Some (1, no_effects).
Proof.
  intros HL Heq. unfold FontDump. destruct name as [name|]; [|done].
  destruct (size =? 0); [done|]. rewrite HL. simpl.
  rewrite Heq, Z.eqb_refl. done.
Qed.

(** C8, as the code has it. With a null font pointer, a null family
    name or a zero point size, [FontDump] returns 1 at once: nothing is
    decoded, no file is created and nothing is printed. *)
Theorem FontDump_null_or_zero_size env fp name style size :
  fp = None \/ name = None \/ size = 0 ->
  FontDump env fp name style size = Some (1, no_effects).
Proof.
  intros [->|[->| ->]]; unfold FontDump.
  - done.
  - by destruct fp.
  - by destruct fp, name.
Qed.

Lemma FontDump_null_or_zero_size_witness :
  FontDump (Sample.env BigEndian true) (Some (Sample.scenario 0)) None 3 12
  = Some (1, no_effects).
Proof.
  apply (FontDump_null_or_zero_size (Sample.env BigEndian true)
           (Some (Sample.scenario 0)) None 3 12).
  right; left; reflexivity.
Defined.

(** C8 as stated fails for the empty family name: it is not the null
    pointer, so the scenario resource is dumped to the file "-12.bdf". *)
Lemma FontDump_empty_name_creates_file :
  exists eff,
    FontDump (Sample.env BigEndian true) (Some (Sample.scenario 0)) (Some "") 0 12
    = Some (1, eff) /\
    fst <$> created eff = Some "-12.bdf" /\
    to_stdout eff <> "".
Proof.
  eexists. split; [vm_compute; reflexivity|]. split; [reflexivity|discriminate].
Qed.

(** C2 on the code. [FontInfo] on a resource whose first and last
    character codes are equal returns before it stores anything: result
    variables that held 7 before the call still hold 7, not a zero count
    and an empty box.  [FontDump] creates nothing for that resource. *)
Theorem FontInfo_equal_chars_stores_nothing :
  FontInfo (Sample.env BigEndian true) Sample.single_char Sample.sevens
  = Some Sample.sevens /\
  ret_ng Sample.sevens = 7 /\
  FontDump (Sample.env BigEndian true) (Some Sample.single_char) (Some "Test") 0 12
  = Some (1, no_effects).
Proof. repeat split; vm_compute; reflexivity. Qed.

(** C1 on the code. The resource [Sample.blank] has no live glyph: the
    global pass counts 0.  Its first and last character codes differ,
    so [FontDump] creates the file all the same and writes a header
    announcing no glyph. *)
Theorem FontDump_blank_font_creates_file :
  ret_ng <$> FontInfo (Sample.env BigEndian true) Sample.blank Sample.sevens = Some 0 /\
  FontDump (Sample.env BigEndian true) (Some Sample.blank) (Some "Test") 0 12
  = Some (1, {| created := Some ("Test-12.bdf",
                   Sample.unlines ["STARTFONT 2.1"; "FONT Test-12"; "SIZE 12 72 72";
                                   "FONTBOUNDINGBOX -3 0 0 0"; "STARTPROPERTIES 2";
                                   "FONT_ASCENT 1"; "FONT_DESCENT 0"; "ENDPROPERTIES";
                                   "CHARS 0"; "ENDFONT"]);
                to_stdout := "Dumping 0 glyphs to " +:+ dq +:+ "Test-12.bdf" +:+ dq +:+ nl;
                to_stderr := "" |}).
Proof. split; vm_compute; reflexivity. Qed.

(** ** Memory and the byte decoder *)

Lemma byte_val_range b : 0 <= byte_val b < 256.
Proof. unfold byte_val. pose proof (Byte.to_N_bounded b). lia. Qed.

Lemma rd_Some m k :
  0 <= k < Z.of_nat (length m) -> exists b, rd m k = Some (byte_val b).
Proof.
  intros Hk. unfold rd. destruct (Z.ltb_spec k 0); [lia|].
  destruct (lookup_lt_is_Some_2 m (Z.to_nat k)) as [b Hb]; [lia|].
  exists b. by rewrite Hb.
Qed.

Lemma rd_range m k v : rd m k = Some v -> 0 <= v < 256.
Proof.
  unfold rd. destruct (k <? 0); [done|].
  destruct (m !! Z.to_nat k) as [b|]; simpl; [|done].
  intros [= <-]. apply byte_val_range.
Qed.

Lemma rd_drop m n k :
  0 <= n -> 0 <= k -> rd (drop (Z.to_nat n) m) k = rd m (n + k).
Proof.
  intros Hn Hk. unfold rd.
  destruct (Z.ltb_spec k 0), (Z.ltb_spec (n + k) 0); try lia.
  rewrite lookup_drop. do 2 f_equal. lia.
Qed.

Lemma rd_take m n k :
  0 <= k < n -> rd (take (Z.to_nat n) m) k = rd m k.
Proof.
  intros Hk. unfold rd. destruct (Z.ltb_spec k 0); [lia|].
  rewrite lookup_take_lt by lia. done.
Qed.

(** Two bytes make a value of sixteen bits. *)
Lemma two_bytes_16 b0 b1 :
  0 <= b0 < 256 -> 0 <= b1 < 256 ->
  0 <= Z.lor (Z.shiftl b0 8) b1 < 65536.
Proof.
  intros H0 H1.
  assert (Z.land (Z.shiftl b0 8) b1 = 0) as Hdisjoint.
  { apply Z.bits_inj'. intros n Hn. rewrite Z.land_spec, Z.bits_0.
    destruct (Z.lt_ge_cases n 8).
    - by rewrite Z.shiftl_spec_low.
    - rewrite (Z.bits_above_log2 b1 n), andb_false_r; [done|lia|].
      destruct (Z.eq_dec b1 0) as [->|]; [simpl; lia|].
      apply Z.lt_le_trans with 8; [|done].
      apply Z.log2_lt_pow2; [lia|]. change (2 ^ 8) with 256. lia. }
  rewrite <- Z.lxor_lor, <- Z.add_nocarry_lxor by done.
  rewrite Z.shiftl_mul_pow2 by lia. change (2 ^ 8) with 256. lia.
Qed.

Lemma toushort_range m p v : toushort m p = Some v -> 0 <= v < 65536.
Proof.
  unfold toushort. destruct (rd m p); simpl; [|done].
  destruct (rd m (p + 1)); simpl; [|done].
  intros [= <-]. apply CARD16_range.
Qed.

Lemma toushort_Some m p :
  0 <= p -> p + 1 < Z.of_nat (length m) -> is_Some (toushort m p).
Proof.
  intros H0 H1. unfold toushort.
  destruct (rd_Some m p) as [b0 ->]; [lia|].
  destruct (rd_Some m (p + 1)) as [b1 ->]; [lia|]. simpl. eauto.
Qed.

Lemma toshort_Some m p :
  0 <= p -> p + 1 < Z.of_nat (length m) -> is_Some (toshort m p).
Proof.
  intros H0 H1. unfold toshort.
  destruct (toushort_Some m p H0 H1) as [v ->]. simpl. eauto.
Qed.

(** On a host that stores the most significant byte first, a [CARD16]
    load is what the byte decoder computes. *)
Lemma word_at_big_endian obj k :
  word_at BigEndian obj k = toushort obj (2 * k).
Proof.
  unfold word_at, toushort.
  destruct (rd obj (2 * k)) as [b0|] eqn:E0; simpl; [|done].
  destruct (rd obj (2 * k + 1)) as [b1|] eqn:E1; simpl; [|done].
  rewrite CARD16_id; [done|].
  apply two_bytes_16; eauto using rd_range.
Qed.

Lemma toushort_drop m n p :
  0 <= n -> 0 <= p -> toushort (drop (Z.to_nat n) m) p = toushort m (n + p).
Proof.
  intros Hn Hp. unfold toushort.
  rewrite !rd_drop by lia. by rewrite Z.add_assoc.
Qed.

Lemma glyph_columns_inv m L g coff0 coff1 :
  glyph_columns m L g = Some (coff0, coff1) ->
  toushort m (locTable L + Z.shiftl (g - fg L + 0) 1) = Some coff0 /\
  toushort m (locTable L + Z.shiftl (g - fg L + 1) 1) = Some coff1.
Proof.
  unfold glyph_columns. intros H.
  destruct (toushort m (locTable L + Z.shiftl (g - fg L + 0) 1)) as [c0|];
    [|discriminate H].
  destruct (toushort m (locTable L + Z.shiftl (g - fg L + 1) 1)) as [c1|];
    [|discriminate H].
  by injection H as -> ->.
Qed.

(** The mask-and-shift of the source is a bit test. *)
Lemma shiftr_land_1 w n :
  0 <= n -> Z.land (Z.shiftr w n) 1 = Z.b2z (Z.testbit w n).
Proof.
  intros Hn. change 1 with (Z.ones 1).
  rewrite Z.land_ones, Z.shiftr_div_pow2, Z.testbit_spec' by lia. done.
Qed.

(** ** The raster *)

Lemma gp_get_is_Some gp k :
  0 <= k < Z.of_nat (length gp) -> is_Some (gp_get gp k).
Proof.
  intros Hk. unfold gp_get. destruct (Z.ltb_spec k 0); [lia|].
  apply lookup_lt_is_Some_2. lia.
Qed.

Lemma gp_get_pixel gp k v :
  Forall pixel gp -> gp_get gp k = Some v -> pixel v.
Proof.
  intros Hgp. unfold gp_get. destruct (k <? 0); [done|].
  intros Hv. eapply Forall_lookup_1; eauto.
Qed.

Lemma gp_set_spec gp k v :
  0 <= k < Z.of_nat (length gp) ->
  exists gp', gp_set gp k v = Some gp' /\
    length gp' = length gp /\
    gp_get gp' k = Some v /\
    (forall k', k' <> k -> gp_get gp' k' = gp_get gp k') /\
    (Forall pixel gp -> pixel v -> Forall pixel gp').
Proof.
  intros Hk. unfold gp_set.
  destruct (Z.ltb_spec k 0); [lia|]. destruct (Z.leb_spec (Z.of_nat (length gp)) k); [lia|].
  simpl. eexists. split; [done|]. split; [apply length_insert|].
  split; [|split].
  - unfold gp_get. destruct (Z.ltb_spec k 0); [lia|].
    apply list_lookup_insert_eq. lia.
  - intros k' Hne. unfold gp_get. destruct (Z.ltb_spec k' 0); [done|].
    apply list_lookup_insert_ne. lia.
  - intros Hgp Hv. by apply Forall_insert.
Qed.

Lemma alloc_raster_spec L :
  0 <= wd L * ht L ->
  exists gp, alloc_raster L = Some gp /\
    Z.of_nat (length gp) = wd L * ht L /\ Forall pixel gp.
Proof.
  intros H. unfold alloc_raster. destruct (Z.ltb_spec (wd L * ht L) 0); [lia|].
  eexists. split; [done|]. rewrite length_replicate. split; [lia|].
  apply Forall_replicate. by left.
Qed.

Lemma alloc_raster_size L gp :
  alloc_raster L = Some gp -> Z.of_nat (length gp) = wd L * ht L.
Proof.
  unfold alloc_raster. destruct (Z.ltb_spec (wd L * ht L) 0); [done|].
  intros [= <-]. rewrite length_replicate. lia.
Qed.

Lemma clear_raster_spec gp :
  length (clear_raster gp) = length gp /\ Forall pixel (clear_raster gp).
Proof.
  unfold clear_raster. rewrite length_replicate. split; [done|].
  apply Forall_replicate. by left.
Qed.

Lemma image_bit_pixel o bp L i j v : image_bit o bp L i j = Some v -> pixel v.
Proof.
  unfold image_bit. destruct (word_at _ _ _) as [w|]; simpl; [|done].
  intros [= <-]. change 1 with (Z.ones 1). rewrite Z.land_ones by lia.
  unfold pixel. pose proof (Z.mod_pos_bound (Z.shiftr w (15 - Z.rem j 16)) (2 ^ 1)).
  change (2 ^ 1) with 2 in *. lia.
Qed.

(** The cell of an in-range pixel lies inside the raster. *)
Lemma cell_in_raster (w h i c : Z) :
  0 <= i < h -> 0 <= c < w -> 0 <= i * w + c < w * h.
Proof. intros Hi Hc. nia. Qed.

(** Distinct pixels of a row-major raster have distinct cells. *)
Lemma cell_earlier_row (w i i' c c' : Z) :
  0 <= i' < i -> 0 <= c' < w -> 0 <= c -> i' * w + c' <> i * w + c.
Proof. intros Hi Hc' Hc. nia. Qed.

Section Extraction.

Variables (o : byte_order) (bp : list byte) (L : Layout) (coff0 coff1 : Z).
Hypothesis Hcols : 0 <= coff0 <= coff1.
Hypothesis Hfits : coff1 - coff0 <= wd L.
Hypothesis Hbits : forall i j, 0 <= i < ht L -> coff0 <= j < coff1 ->
  is_Some (image_bit o bp L i j).

Lemma extract_glyph_spec gp0 :
  Z.of_nat (length gp0) = wd L * ht L -> Forall pixel gp0 ->
  exists gp, extract_glyph o bp L coff0 coff1 gp0 = Some gp /\
    length gp = length gp0 /\ Forall pixel gp /\
    forall i j, 0 <= i < ht L -> coff0 <= j < coff1 ->
      gp_get gp (i * wd L + (j - coff0)) = image_bit o bp L i j.
Proof.
  intros Hlen Hpix. unfold extract_glyph.
  destruct (foldM_seqZ_invariant (fun i gp => extracted o bp L coff0 coff1 gp0 i coff0 gp)
    (fun i gp => foldM (fun j gp =>
       bit ← image_bit o bp L i j; gp_set gp (i * wd L + (j - coff0)) bit)
       (seqZ coff0 (coff1 - coff0)) gp)
    0 (ht L) gp0) as (gp & -> & Hgp).
  - split; [done|]. split; [done|]. intros i' j' ? ? [?|[? ?]]; lia.
  - intros i gp Hi Hinv.
    destruct (foldM_seqZ_invariant (fun j gp => extracted o bp L coff0 coff1 gp0 i j gp)
      (fun j gp => bit ← image_bit o bp L i j;
                   gp_set gp (i * wd L + (j - coff0)) bit)
      coff0 (coff1 - coff0) gp) as (gp' & -> & Hgp'); [done| |].
    + intros j gp1 Hj (Hlen1 & Hpix1 & Hinv1).
      destruct (Hbits i j) as [bit Hbit]; [lia..|]. rewrite Hbit. simpl.
      destruct (gp_set_spec gp1 (i * wd L + (j - coff0)) bit)
        as (gp2 & -> & Hlen2 & Hget & Hother & Hpix2).
      { rewrite Hlen1, Hlen. apply cell_in_raster; lia. }
      eexists. split; [done|]. split; [congruence|].
      split; [eauto using image_bit_pixel|].
      intros i' j' Hi' Hj' Hcase.
      destruct (decide (i' = i /\ j' = j)) as [[-> ->]|Hne]; [congruence|].
      rewrite Hother.
      * apply Hinv1; [done..|]. lia.
      * destruct Hcase as [?|[-> ?]]; [|lia].
        apply cell_earlier_row; lia.
    + exists gp'. split; [done|].
      destruct Hgp' as (Hlen' & Hpix' & Hinv').
      split; [done|]. split; [done|].
      intros i' j' Hi' Hj' Hcase. apply Hinv'; [done..|].
      replace (coff0 + Z.max 0 (coff1 - coff0)) with coff1 by lia. lia.
  - exists gp. destruct Hgp as (Hlen' & Hpix' & Hinv').
    split; [done|]. split; [done|]. split; [done|].
    intros i j Hi Hj. apply Hinv'; [lia..|].
    left. lia.
Qed.

End Extraction.

(** ** Scanline words *)

(** Whatever the parity of the address of the bitmap image, [bp [ k ]]
    is the host's load of bytes [2k] and [2k + 1] of the image, for every
    word of the [ht * rw] the image has. *)
Lemma scanlines_words (o : byte_order) (fp : FontRsrc) (L : Layout) :
  0 <= ht L * rw L ->
  bitImage + 2 * (ht L * rw L) <= Z.of_nat (length (fr_bytes fp)) ->
  exists bp, scanlines fp L = Some bp /\
    forall k, 0 <= k < ht L * rw L ->
      word_at o bp k = word_at o (drop (Z.to_nat bitImage) (fr_bytes fp)) k.
Proof.
  intros Hn Hlen. unfold scanlines.
  destruct (negb (Z.land (fr_addr fp + bitImage) 1 =? 0)).
  - unfold memcpy_out.
    destruct (Z.ltb_spec (ht L * rw L * 2) 0); [lia|].
    destruct (Z.ltb_spec (Z.of_nat (length (fr_bytes fp))) (bitImage + ht L * rw L * 2)); [lia|].
    simpl. eexists. split; [done|]. intros k Hk.
    unfold word_at. by rewrite !rd_take by lia.
  - eauto.
Qed.

(** The word a pixel is taken from, and the pixel, on a host that
    stores the most significant byte first. *)
Lemma image_bit_big_endian (fp : FontRsrc) (L : Layout) (bp : list byte) (i j : Z) :
  (forall k, 0 <= k < ht L * rw L ->
     word_at BigEndian bp k
     = word_at BigEndian (drop (Z.to_nat bitImage) (fr_bytes fp)) k) ->
  bitImage + 2 * (ht L * rw L) <= Z.of_nat (length (fr_bytes fp)) ->
  0 <= i < ht L -> 0 <= j < 16 * rw L ->
  exists w,
    toushort (fr_bytes fp) (bitImage + 2 * (i * rw L + j / 16)) = Some w /\
    image_bit BigEndian bp L i j = Some (Z.b2z (Z.testbit w (15 - j mod 16))).
Proof.
  intros Hbp Hlen Hi Hj.
  assert (0 <= j / 16 < rw L) as Hq.
  { split; [apply Z.div_pos; lia|]. apply Z.div_lt_upper_bound; lia. }
  assert (0 <= i * rw L + j / 16 < ht L * rw L) as Hk by nia.
  pose proof (Z.mod_pos_bound j 16 ltac:(lia)) as Hr.
  destruct (toushort_Some (fr_bytes fp) (bitImage + 2 * (i * rw L + j / 16)))
    as [w Hw]; [unfold bitImage, Hdr.size in *; lia..|].
  exists w. split; [done|].
  unfold image_bit. rewrite Z.quot_div_nonneg, Z.rem_mod_nonneg by lia.
  rewrite Hbp by done. rewrite word_at_big_endian, toushort_drop by (unfold bitImage, Hdr.size; lia).
  rewrite Hw. simpl. by rewrite shiftr_land_1 by lia.
Qed.

(** C3, as the code has it. On a host whose [CARD16] loads take the
    most significant byte first, and for a glyph whose columns lie inside
    the scanline and whose span fits the raster, the extraction of
    [FontDump] is defined and leaves in the raster, at row [i] and
    column [j - coff0], bit [15 - j mod 16] of the word that the byte
    decoder reads at index [j div 16] of row [i] of the bitmap image;
    this holds for every address [addr] of the resource, even or odd. *)
Theorem extract_glyph_big_endian_pixels
    (env : Env) (addr : Z) (m : list byte) (L : Layout) (g coff0 coff1 : Z)
    (gp0 : list Z) :
  let fp := {| fr_addr := addr; fr_bytes := m |} in
  host_order env = BigEndian ->
  decode_header m = Some L ->
  glyph_columns m L g = Some (coff0, coff1) ->
  alloc_raster L = Some gp0 ->
  0 <= ht L -> 0 <= rw L ->
  bitImage + 2 * (ht L * rw L) <= Z.of_nat (length m) ->
  coff0 <= coff1 <= 16 * rw L ->
  coff1 - coff0 <= wd L ->
  exists bp gp,
    scanlines fp L = Some bp /\
    extract_glyph (host_order env) bp L coff0 coff1 (clear_raster gp0) = Some gp /\
    forall i j, 0 <= i < ht L -> coff0 <= j < coff1 ->
      exists w,
        toushort m (bitImage + 2 * (i * rw L + j / 16)) = Some w /\
        gp_get gp (i * wd L + (j - coff0)) = Some (Z.b2z (Z.testbit w (15 - j mod 16))).
Proof.
  intros fp Hhost HL Hcols Hgp0 Hht Hrw Hlen Hc Hspan.
  destruct (glyph_columns_inv _ _ _ _ _ Hcols) as (Hc0 & _).
  apply toushort_range in Hc0.
  assert (Z.of_nat (length gp0) = wd L * ht L) as Hsize.
  { unfold alloc_raster in Hgp0. destruct (Z.ltb_spec (wd L * ht L) 0); [done|].
    injection Hgp0 as <-. rewrite length_replicate. lia. }
  destruct (scanlines_words BigEndian fp L) as (bp & Hbp & Hwords); [nia|done|].
  pose proof (clear_raster_spec gp0) as [Hlen0 Hpix0].
  rewrite Hhost.
  destruct (extract_glyph_spec BigEndian bp L coff0 coff1) with (gp0 := clear_raster gp0)
    as (gp & Hgp & _ & _ & Hcells); [done| |lia|done|].
  { intros i j Hi Hj.
    destruct (image_bit_big_endian fp L bp i j) as (w & _ & ->); [done|done|lia|lia|]. eauto. }
  exists bp, gp. split; [done|]. split; [done|].
  intros i j Hi Hj.
  destruct (image_bit_big_endian fp L bp i j) as (w & Hw & Hbit); [done|done|lia|lia|].
  exists w. split; [done|]. by rewrite Hcells.
Qed.

Lemma extract_glyph_big_endian_pixels_witness :
  exists bp gp,
    scanlines (Sample.scenario 1001)
      {| fg := 65; lg := 66; mk := 0; wd := 4; ht := 1; wo := 0; rw := 1 |} = Some bp /\
    extract_glyph BigEndian bp
      {| fg := 65; lg := 66; mk := 0; wd := 4; ht := 1; wo := 0; rw := 1 |}
      0 4 (clear_raster [0; 0; 0; 0]) = Some gp /\
    forall i j, 0 <= i < 1 -> 0 <= j < 4 ->
      exists w,
        toushort (fr_bytes (Sample.scenario 1001)) (bitImage + 2 * (i * 1 + j / 16)) = Some w /\
        gp_get gp (i * 4 + (j - 0)) = Some (Z.b2z (Z.testbit w (15 - j mod 16))).
Proof.
  apply (extract_glyph_big_endian_pixels (Sample.env BigEndian true) 1001
           (fr_bytes (Sample.scenario 1001))
           {| fg := 65; lg := 66; mk := 0; wd := 4; ht := 1; wo := 0; rw := 1 |}
           65 0 4 [0; 0; 0; 0]).
  - reflexivity.
  - reflexivity.
  - reflexivity.
  - reflexivity.
  - simpl; lia.
  - simpl; lia.
  - vm_compute; discriminate.
  - simpl; lia.
  - simpl; lia.
Defined.

(** C3 as stated fails on a host whose [CARD16] loads take the least
    significant byte first: the scanline bytes A0 00 of the scenario are
    loaded as the word 00A0, and the pixel extracted for row 0, column 0
    is 0 while bit 15 of the most-significant-byte-first word is 1. *)
Lemma extract_glyph_little_endian_pixel :
  exists L bp gp w,
    decode_header (fr_bytes (Sample.scenario 0)) = Some L /\
    glyph_columns (fr_bytes (Sample.scenario 0)) L 65 = Some (0, 4) /\
    scanlines (Sample.scenario 0) L = Some bp /\
    extract_glyph LittleEndian bp L 0 4 (clear_raster [0; 0; 0; 0]) = Some gp /\
    toushort (fr_bytes (Sample.scenario 0)) (bitImage + 2 * (0 * rw L + 0 / 16)) = Some w /\
    gp_get gp (0 * wd L + (0 - 0)) = Some 0 /\
    Z.b2z (Z.testbit w (15 - 0 mod 16)) = 1.
Proof.
  do 4 eexists. repeat split; vm_compute; reflexivity.
Qed.

(** ** Rows of the [BITMAP] section *)

Lemma append_assoc (s1 s2 s3 : string) : (s1 +:+ s2) +:+ s3 = s1 +:+ s2 +:+ s3.
Proof.
  induction s1 as [|c s1 IH]; [done|].
  change (String c ((s1 +:+ s2) +:+ s3) = String c (s1 +:+ s2 +:+ s3)).
  by rewrite IH.
Qed.

Lemma append_nil_r (s : string) : s +:+ "" = s.
Proof.
  induction s as [|c s IH]; [done|].
  change (String c (s +:+ "") = String c s). by rewrite IH.
Qed.

Lemma bits_value_snoc l p : bits_value (l ++ [p]) = 2 * bits_value l + p.
Proof. unfold bits_value. by rewrite foldl_app. Qed.

Lemma bits_value_zeros l n :
  bits_value (l ++ replicate n 0) = bits_value l * 2 ^ Z.of_nat n.
Proof.
  induction n as [|n IH].
  - simpl. rewrite app_nil_r. lia.
  - rewrite replicate_S_end, app_assoc, bits_value_snoc, IH.
    rewrite Nat2Z.inj_succ, Z.pow_succ_r by lia. lia.
Qed.

Lemma bits_value_bound l :
  Forall pixel l -> 0 <= bits_value l < 2 ^ Z.of_nat (length l).
Proof.
  induction l as [|p l IH] using rev_ind; intros Hl; [unfold bits_value; simpl; lia|].
  apply Forall_app in Hl as [Hl Hp]. apply Forall_inv in Hp.
  rewrite bits_value_snoc, length_app. simpl.
  replace (Z.of_nat (length l + 1)) with (Z.succ (Z.of_nat (length l))) by lia.
  rewrite Z.pow_succ_r by lia. specialize (IH Hl). destruct Hp; lia.
Qed.

Lemma lor_even_pixel v p : pixel p -> Z.lor (2 * v) p = 2 * v + p.
Proof.
  intros [-> | ->]; [by rewrite Z.lor_0_r, Z.add_0_r|].
  apply Z.bits_inj'. intros n Hn. rewrite Z.lor_spec.
  destruct (Z.eq_dec n 0) as [->|Hne].
  - by rewrite Z.testbit_even_0, Z.testbit_odd_0.
  - replace n with (Z.succ (Z.pred n)) by lia.
    rewrite Z.testbit_even_succ, Z.testbit_odd_succ by lia.
    replace (Z.succ (Z.pred n)) with n by lia.
    rewrite (Z.bits_above_log2 1 n); [apply orb_false_r|lia|simpl; lia].
Qed.

Lemma land_7_mod q r : 0 <= r < 8 -> Z.land (8 * q + r) 7 = r.
Proof.
  intros Hr. change 7 with (Z.ones 3). rewrite Z.land_ones by lia.
  change (2 ^ 3) with 8. rewrite Z.add_comm, Z.mul_comm, Z_mod_plus_full.
  by apply Z.mod_small.
Qed.

Lemma row_bytes_short c :
  (0 < length c <= 8)%nat -> row_bytes c = [pack_byte c].
Proof.
  intros Hc. unfold row_bytes.
  replace ((length c + 7) `div` 8)%nat with 1%nat.
  - simpl. by rewrite take_ge by lia.
  - apply Nat.div_unique with (r := (length c - 1)%nat); lia.
Qed.

Lemma row_bytes_chunk c rest :
  length c = 8%nat -> row_bytes (c ++ rest) = pack_byte c :: row_bytes rest.
Proof.
  intros Hc. unfold row_bytes. rewrite length_app, Hc.
  replace ((8 + length rest + 7) `div` 8)%nat
    with (S ((length rest + 7) `div` 8)).
  - simpl. rewrite take_app_length' by done. by rewrite drop_app_length' by done.
  - replace (8 + length rest + 7)%nat with (1 * 8 + (length rest + 7))%nat by lia.
    by rewrite Nat.div_add_l.
Qed.

Lemma row_hex_chunk u c rest :
  length c = 8%nat ->
  row_hex u (c ++ rest) = hex02 u (pack_byte c) +:+ row_hex u rest.
Proof. intros Hc. unfold row_hex. by rewrite row_bytes_chunk. Qed.

Lemma row_hex_short u c :
  (0 < length c <= 8)%nat -> row_hex u c = hex02 u (pack_byte c).
Proof.
  intros Hc. unfold row_hex. rewrite row_bytes_short by done.
  simpl. apply append_nil_r.
Qed.

Lemma pack_byte_full c : length c = 8%nat -> pack_byte c = bits_value c.
Proof. intros Hc. unfold pack_byte. rewrite Hc. simpl. by rewrite app_nil_r. Qed.

(** The loop packs the pixels most significant bit first: with [pending]
    the pixels of the byte in progress when the loop is at column [j],
    the loop and the two [fprintf] that follow it write the rest of the
    hexadecimal row. *)
Lemma pack_loop_spec pxs : forall pending q j out bits out',
  Forall pixel pending -> Forall pixel pxs -> (length pending < 8)%nat -> 0 <= q ->
  j = 8 * q + Z.of_nat (length pending) ->
  pack_loop pxs j (2 * bits_value pending) out = (bits, out') ->
  (if negb (Z.land (j + Z.of_nat (length pxs)) 7 =? 0)
   then out' +:+ hex02 false (Z.shiftl bits (7 - Z.rem (j + Z.of_nat (length pxs)) 8)) +:+ nl
   else out' +:+ nl)
  = out +:+ row_hex false (pending ++ pxs) +:+ nl.
Proof.
  induction pxs as [|p pxs IH];
    intros pending q j out bits out' Hpend Hpxs Hlen Hq -> Hloop.
  - injection Hloop as <- <-.
    change (Z.of_nat (length [])) with 0.
    rewrite Z.add_0_r, app_nil_r, land_7_mod by lia.
    rewrite Z.rem_mod_nonneg by lia.
    assert ((8 * q + Z.of_nat (length pending)) mod 8 = Z.of_nat (length pending)) as ->.
    { rewrite Z.add_comm, Z.mul_comm, Z_mod_plus_full. apply Z.mod_small. lia. }
    destruct (decide (length pending = 0%nat)) as [Hz|Hnz].
    + apply nil_length_inv in Hz as ->. done.
    + destruct (Z.eqb_spec (Z.of_nat (length pending)) 0); [lia|]. simpl.
      rewrite row_hex_short by lia. do 3 f_equal.
      rewrite Z.shiftl_mul_pow2 by lia. unfold pack_byte.
      rewrite bits_value_zeros.
      replace (Z.of_nat (8 - length pending)) with (Z.succ (7 - Z.of_nat (length pending))) by lia.
      rewrite Z.pow_succ_r by lia. ring.
  - apply Forall_cons in Hpxs as [Hp Hpxs]. cbn [pack_loop] in Hloop.
    rewrite land_7_mod, lor_even_pixel, <- bits_value_snoc in Hloop by (done || lia).
    replace (8 * q + Z.of_nat (length pending) + Z.of_nat (length (p :: pxs)))
      with (8 * q + Z.of_nat (length pending) + 1 + Z.of_nat (length pxs))
      by (cbn [length]; lia).
    replace (pending ++ p :: pxs) with ((pending ++ [p]) ++ pxs)
      by (by rewrite <- app_assoc).
    destruct (Z.eqb_spec (Z.of_nat (length pending)) 7) as [H7|H7].
    + change (Z.shiftl 0 1) with (2 * bits_value []) in Hloop.
      rewrite (IH [] (q + 1) (8 * q + Z.of_nat (length pending) + 1) _ _ _
                 (Forall_nil_2 _) Hpxs
                 ltac:(simpl; lia) ltac:(lia) ltac:(simpl; lia) Hloop).
      rewrite (row_hex_chunk false (pending ++ [p])) by (rewrite length_app; simpl; lia).
      rewrite pack_byte_full by (rewrite length_app; simpl; lia).
      by rewrite !append_assoc.
    + rewrite Z.shiftl_mul_pow2 in Hloop by lia. change (2 ^ 1) with 2 in Hloop.
      rewrite (Z.mul_comm _ 2) in Hloop.
      rewrite (IH (pending ++ [p]) q (8 * q + Z.of_nat (length pending) + 1) _ _ _
                 ltac:(apply Forall_app; split; [done|by apply Forall_singleton])
                 Hpxs ltac:(rewrite length_app; simpl; lia) Hq
                 ltac:(rewrite length_app; simpl; lia) Hloop).
      done.
Qed.

Lemma row_pixels_inv gp L span i pxs :
  row_pixels gp L span i = Some pxs ->
  length pxs = Z.to_nat span /\
  forall (k : nat) p, pxs !! k = Some p -> gp_get gp (i * wd L + Z.of_nat k) = Some p.
Proof.
  unfold row_pixels. intros H%mapM_Some.
  split.
  - apply Forall2_length in H. by rewrite length_seqZ in H.
  - intros k p Hk.
    destruct (Forall2_lookup_r _ _ _ _ _ H Hk) as (j & Hj & Hget).
    apply lookup_seqZ in Hj as [-> _]. by rewrite Z.add_0_l in Hget.
Qed.

Lemma row_pixels_is_Some gp L span i :
  0 <= i < ht L -> span <= wd L -> Z.of_nat (length gp) = wd L * ht L ->
  is_Some (row_pixels gp L span i).
Proof.
  intros Hi Hspan Hlen. unfold row_pixels.
  destruct (mapM _ _) as [pxs|] eqn:E; [eauto|].
  apply mapM_None_1, Exists_exists in E as (j & Hj%elem_of_seqZ & Hnone).
  destruct (gp_get_is_Some gp (i * wd L + j)) as [v Hv]; [|congruence].
  rewrite Hlen. apply cell_in_raster; lia.
Qed.

Lemma row_pixels_pixel gp L span i pxs :
  Forall pixel gp -> row_pixels gp L span i = Some pxs -> Forall pixel pxs.
Proof.
  intros Hgp [_ Hpx]%row_pixels_inv. apply Forall_lookup_2.
  intros k p Hk. eauto using gp_get_pixel.
Qed.

(** The loop of [dump_row] reads the pixels of the row one by one. *)
Lemma dump_row_loop gp L i pxs : forall j0 bits out,
  (forall (k : nat) p, pxs !! k = Some p ->
     gp_get gp (i * wd L + (j0 + Z.of_nat k)) = Some p) ->
  foldM (fun j '(bits, out) =>
      px ← gp_get gp (i * wd L + j);
      let bits := Z.lor bits px in
      let '(bits, out) :=
        if Z.land j 7 =? 7 then (0, out +:+ hex02 false bits) else (bits, out) in
      Some (Z.shiftl bits 1, out))
    (seqZ j0 (Z.of_nat (length pxs))) (bits, out)
  = Some (pack_loop pxs j0 bits out).
Proof.
  induction pxs as [|p pxs IH]; intros j0 bits out Hpx; [done|].
  rewrite seqZ_cons by (simpl; lia). cbn [foldM pack_loop].
  pose proof (Hpx 0%nat p eq_refl) as H0.
  change (Z.of_nat 0) with 0 in H0. rewrite Z.add_0_r in H0. rewrite H0.
  step.
  replace (Z.pred (Z.of_nat (length (p :: pxs)))) with (Z.of_nat (length pxs))
    by (cbn [length]; lia).
  destruct (Z.land j0 7 =? 7); step.
  all: apply (IH (j0 + 1)).
  all: intros k p' Hk; rewrite <- (Hpx (S k) p' Hk); f_equal; lia.
Qed.

(** [dump_row] writes the pixels of the row as the specification has
    them: packed most significant bit first into bytes, the last byte
    padded with zeros, in lowercase hexadecimal pairs, then a newline. *)
Lemma dump_row_spec gp L span i pxs :
  Forall pixel gp -> row_pixels gp L span i = Some pxs ->
  dump_row gp L span i = Some (row_hex false pxs +:+ nl).
Proof.
  intros Hgp Hrow.
  pose proof (row_pixels_pixel _ _ _ _ _ Hgp Hrow) as Hpix.
  apply row_pixels_inv in Hrow as [Hlen Hpx].
  unfold dump_row.
  destruct (Z.le_gt_cases span 0) as [Hle|Hgt].
  - replace pxs with (@nil Z) by (symmetry; apply nil_length_inv; lia).
    rewrite seqZ_nil by done. simpl. by rewrite Z.max_l by done.
  - match goal with
    | |- context [foldM ?f (seqZ 0 span) ?s] =>
        replace (foldM f (seqZ 0 span) s) with (Some (pack_loop pxs 0 0 ""))
    end.
    2:{ symmetry. replace span with (Z.of_nat (length pxs)) by lia.
        apply dump_row_loop. intros. rewrite Z.add_0_l. eauto. }
    step.
    destruct (pack_loop pxs 0 0 "") as [bits out] eqn:Hloop.
    rewrite Z.max_r by lia.
    pose proof (pack_loop_spec pxs [] 0 0 "" bits out (Forall_nil_2 _) Hpix
                  ltac:(simpl; lia) ltac:(lia) eq_refl Hloop) as Hspec.
    rewrite Z.add_0_l in Hspec. replace (Z.of_nat (length pxs)) with span in Hspec by lia.
    by rewrite Hspec.
Qed.

Lemma dump_bitmap_rows gp L span (l : list Z) : forall rows out,
  Forall pixel gp ->
  mapM (row_pixels gp L span) l = Some rows ->
  foldM (fun i out => row ← dump_row gp L span i; Some (out +:+ row)) l out
  = Some (out +:+ bitmap_text false rows).
Proof.
  induction l as [|i l IH]; intros rows out Hgp Hrows.
  - injection Hrows as <-. simpl. by rewrite append_nil_r.
  - apply mapM_Some in Hrows. inversion Hrows as [|? r ? rows' Hr Hrest]; subst.
    apply mapM_Some in Hrest. cbn [foldM].
    rewrite (dump_row_spec _ _ _ _ _ Hgp Hr). step.
    rewrite (IH rows' _ Hgp Hrest). cbn [bitmap_text foldr].
    by rewrite !append_assoc.
Qed.

(** [dump_bitmap] writes the rows [top] to [bot] of the raster, and only
    those, each as [dump_row] writes it. *)
Lemma dump_bitmap_spec gp L span top bot rows :
  Forall pixel gp ->
  mapM (row_pixels gp L span) (seqZ top (bot - top + 1)) = Some rows ->
  dump_bitmap gp L span top bot = Some (bitmap_text false rows).
Proof.
  intros Hgp Hrows. unfold dump_bitmap.
  by rewrite (dump_bitmap_rows _ _ _ _ rows "" Hgp Hrows).
Qed.

Lemma rows_in_raster gp L span top bot :
  0 <= top -> bot < ht L -> span <= wd L ->
  Z.of_nat (length gp) = wd L * ht L ->
  is_Some (mapM (row_pixels gp L span) (seqZ top (bot - top + 1))).
Proof.
  intros Htop Hbot Hspan Hlen.
  destruct (mapM _ _) as [rows|] eqn:E; [eauto|].
  apply mapM_None_1, Exists_exists in E as (i & Hi%elem_of_seqZ & Hnone).
  destruct (row_pixels_is_Some gp L span i) as [r Hr]; [lia|done|done|congruence].
Qed.

(** ** The search for the top and the bottom of the bounding box *)

Lemma ink_before_next gp L i j i' :
  ink_before gp L i (j + 1) i' <->
  ink_before gp L i j i' \/ (i' = i /\ 0 <= j < wd L /\ ink_at gp L i j).
Proof.
  unfold ink_before. split.
  - intros (j' & Hj' & Hseen & Hink).
    destruct (decide (i' = i /\ j' = j)) as [[-> ->]|Hne]; [by right|].
    left. exists j'. split; [done|]. split; [lia|done].
  - intros [(j' & Hj' & Hseen & Hink)|(-> & Hj & Hink)].
    + exists j'. split; [done|]. split; [lia|done].
    + exists j. split; [done|]. split; [lia|done].
Qed.

Lemma ink_before_row_end gp L i i' :
  ink_before gp L i (0 + Z.max 0 (wd L)) i' <-> ink_before gp L (i + 1) 0 i'.
Proof.
  unfold ink_before. split; intros (j & Hj & Hseen & Hink); exists j; (split; [done|]);
    (split; [lia|done]).
Qed.

Lemma rows_scanned_row_end gp L i tb :
  rows_scanned gp L i (0 + Z.max 0 (wd L)) tb -> rows_scanned gp L (i + 1) 0 tb.
Proof.
  destruct tb as [top bot]. unfold rows_scanned.
  intros [(-> & -> & Hnone)|(Htb & Hbot & Hitop & Hibot & Hall)]; [left|right].
  - split; [done|]. split; [done|]. intros i' Hi' H%ink_before_row_end. by eapply Hnone.
  - split; [done|]. split; [done|]. rewrite <- !ink_before_row_end.
    split; [done|]. split; [done|]. intros i' Hi' H%ink_before_row_end. by apply Hall.
Qed.

Lemma rows_scanned_step gp L i j bit top bot :
  0 <= i < ht L -> 0 <= j < wd L ->
  gp_get gp (i * wd L + j) = Some bit ->
  rows_scanned gp L i j (top, bot) ->
  rows_scanned gp L i (j + 1)
    (if negb (bit =? 0) && (i <? top) then i else top,
     if negb (bit =? 0) && (bot <? i) then i else bot).
Proof.
  intros Hi Hj Hbit Hinv. unfold rows_scanned in *.
  destruct (Z.eqb_spec bit 0) as [->|Hne]; simpl.
  - assert (forall i', ink_before gp L i (j + 1) i' <-> ink_before gp L i j i') as Hsame.
    { intros i'. rewrite ink_before_next. split; [|by left].
      intros [?|(_ & _ & v & Hv & Hv0)]; [done|]. congruence. }
    destruct Hinv as [(-> & -> & Hnone)|(Htb & Hbot & Hitop & Hibot & Hall)]; [left|right].
    + split; [done|]. split; [done|]. intros i' Hi'. rewrite Hsame. by apply Hnone.
    + rewrite !Hsame. split; [done|]. split; [done|]. split; [done|]. split; [done|].
      intros i' Hi'. rewrite Hsame. by apply Hall.
  - assert (ink_before gp L i (j + 1) i) as Hnew.
    { apply ink_before_next. right. split; [done|]. split; [done|]. by exists bit. }
    right.
    destruct Hinv as [(-> & -> & Hnone)|(Htb & Hbot & Hitop & Hibot & Hall)].
    + destruct (Z.ltb_spec i (ht L)); [|lia].
      assert ((if 0 <? i then i else 0) = i) as ->.
      { destruct (Z.ltb_spec 0 i); lia. }
      split; [lia|]. split; [lia|]. split; [done|]. split; [done|].
      intros i' Hi' [Hold|(-> & _)]%ink_before_next; [|lia].
      by apply Hnone in Hold.
    + assert (bot <= i) as Hle.
      { destruct Hibot as (j' & _ & Hseen & _). lia. }
      destruct (Z.ltb_spec i top); [lia|].
      assert ((if bot <? i then i else bot) = i) as ->.
      { destruct (Z.ltb_spec bot i); lia. }
      split; [lia|]. split; [lia|].
      split; [apply ink_before_next; by left|]. split; [done|].
      intros i' Hi' [Hold|(-> & _)]%ink_before_next; [|lia].
      apply Hall in Hold; lia.
Qed.

(** [scan_rows] is defined on a raster of [wd * ht] cells and finds the
    first and the last row with ink. *)
Lemma scan_rows_spec gp L :
  Z.of_nat (length gp) = wd L * ht L ->
  exists top bot, scan_rows gp L = Some (top, bot) /\ ink_rows gp L top bot.
Proof.
  intros Hlen. unfold scan_rows.
  destruct (foldM_seqZ_invariant (fun i tb => rows_scanned gp L i 0 tb)
    (fun i tb => foldM (fun j '(top, bot) =>
        bit ← gp_get gp (i * wd L + j);
        let top := if negb (bit =? 0) && (i <? top) then i else top in
        let bot := if negb (bit =? 0) && (bot <? i) then i else bot in
        Some (top, bot)) (seqZ 0 (wd L)) tb)
    0 (ht L) (ht L, 0)) as ([top bot] & Hfold & Hinv).
  - left. split; [done|]. split; [done|].
    intros i Hi (j & Hj & Hseen & _). lia.
  - intros i tb Hi Htb.
    destruct (foldM_seqZ_invariant (fun j tb => rows_scanned gp L i j tb)
      (fun j '(top, bot) =>
        bit ← gp_get gp (i * wd L + j);
        let top := if negb (bit =? 0) && (i <? top) then i else top in
        let bot := if negb (bit =? 0) && (bot <? i) then i else bot in
        Some (top, bot))
      0 (wd L) tb) as (tb' & Hfold' & Htb'); [done| |].
    + intros j [top bot] Hj Hinv.
      destruct (gp_get_is_Some gp (i * wd L + j)) as [bit Hbit].
      { rewrite Hlen. apply cell_in_raster; lia. }
      rewrite Hbit. simpl. eexists. split; [done|].
      by apply rows_scanned_step.
    + exists tb'. split; [exact Hfold'|]. by apply rows_scanned_row_end.
  - exists top, bot. split; [exact Hfold|].
    assert (forall i, 0 <= i < ht L ->
              ink_before gp L (0 + Z.max 0 (ht L)) 0 i <-> inked gp L i) as Hall.
    { intros i Hi. unfold ink_before, inked. split.
      - intros (j & Hj & _ & Hink). eauto.
      - intros (j & Hj & Hink). exists j. split; [done|]. split; [lia|done]. }
    unfold rows_scanned in Hinv. unfold ink_rows.
    destruct Hinv as [(-> & -> & Hnone)|(Htb & Hbot & Hitop & Hibot & Hrange)]; [left|right].
    + split; [done|]. split; [done|]. intros i Hi Hink. apply (Hnone i); [lia|].
      by apply Hall.
    + split; [done|]. split; [done|].
      rewrite <- !Hall by lia. split; [done|]. split; [done|].
      intros i Hi Hink. apply Hrange; [lia|]. by apply Hall.
Qed.

(** ** One glyph of the emitter *)

Lemma word_at_is_Some o obj k :
  0 <= k -> 2 * k + 1 < Z.of_nat (length obj) -> is_Some (word_at o obj k).
Proof.
  intros Hk Hlen. unfold word_at.
  destruct (rd_Some obj (2 * k)) as [b0 ->]; [lia|].
  destruct (rd_Some obj (2 * k + 1)) as [b1 ->]; [lia|]. simpl. eauto.
Qed.

(** Every pixel of a glyph whose columns lie inside the scanline can be
    read, whatever the host and the address of the resource. *)
Lemma image_bit_is_Some o fp L bp i j :
  scanlines fp L = Some bp ->
  bitImage + 2 * (ht L * rw L) <= Z.of_nat (length (fr_bytes fp)) ->
  0 <= i < ht L -> 0 <= j < 16 * rw L ->
  is_Some (image_bit o bp L i j).
Proof.
  intros Hbp Hlen Hi Hj.
  assert (0 <= j / 16 < rw L) as Hq.
  { split; [apply Z.div_pos; lia|]. apply Z.div_lt_upper_bound; lia. }
  assert (0 <= i * rw L + j / 16 < ht L * rw L) as Hk by nia.
  destruct (scanlines_words o fp L) as (bp' & Hbp' & Hwords); [lia|done|].
  assert (bp' = bp) as -> by congruence.
  unfold image_bit. rewrite Z.quot_div_nonneg by lia. rewrite Hwords by done.
  destruct (word_at_is_Some o (drop (Z.to_nat bitImage) (fr_bytes fp)) (i * rw L + j / 16))
    as [w ->]; [lia| |simpl; eauto].
  rewrite length_drop. unfold bitImage, Hdr.size in *. lia.
Qed.

(** A live glyph whose columns lie inside the scanline and whose span
    fits the raster: [dump_glyph] is defined, and writes the head of the
    record, the rows of the raster from the first to the last row with
    ink, and the [ENDCHAR] line. *)
Lemma dump_glyph_live o fp L bp gp0 g coff0 coff1 ow out :
  scanlines fp L = Some bp ->
  Z.of_nat (length gp0) = wd L * ht L ->
  glyph_columns (fr_bytes fp) L g = Some (coff0, coff1) ->
  coff0 <> coff1 ->
  glyph_ow (fr_bytes fp) L g = Some ow ->
  0 < ht L -> 0 <= rw L ->
  bitImage + 2 * (ht L * rw L) <= Z.of_nat (length (fr_bytes fp)) ->
  coff0 <= coff1 <= 16 * rw L ->
  coff1 - coff0 <= wd L ->
  exists gp top bot descent rows,
    extract_glyph o bp L coff0 coff1 (clear_raster gp0) = Some gp /\
    Forall pixel gp /\
    scan_rows gp L = Some (top, bot) /\
    ink_rows gp L top bot /\
    toshort (fr_bytes fp) Hdr.ftDescent = Some descent /\
    mapM (row_pixels gp L (coff1 - coff0)) (seqZ top (bot - top + 1)) = Some rows /\
    dump_glyph o (fr_bytes fp) bp L gp0 g out
    = Some (out +:+ glyph_head L g ow coff0 coff1 top bot descent +:+
            bitmap_text false rows +:+ "ENDCHAR" +:+ nl).
Proof.
  intros Hbp Hsize Hcols Hlive How Hht Hrw Hlen Hc Hspan.
  destruct (glyph_columns_inv _ _ _ _ _ Hcols) as (Hc0%toushort_range & _).
  pose proof (clear_raster_spec gp0) as [Hlen0 Hpix0].
  destruct (extract_glyph_spec o bp L coff0 coff1) with (gp0 := clear_raster gp0)
    as (gp & Hgp & Hlengp & Hpix & _); [done| |lia|done|].
  { intros i j Hi Hj. eapply image_bit_is_Some; eauto; lia. }
  destruct (scan_rows_spec gp L) as (top & bot & Hscan & Hink); [lia|].
  destruct (toshort_Some (fr_bytes fp) Hdr.ftDescent) as [descent Hdescent];
    [unfold Hdr.ftDescent; lia|unfold Hdr.ftDescent, bitImage, Hdr.size in *; nia|].
  assert (is_Some (mapM (row_pixels gp L (coff1 - coff0)) (seqZ top (bot - top + 1))))
    as [rows Hrows].
  { destruct Hink as [(-> & -> & _)|(Htb & Hbot & _)].
    - rewrite seqZ_nil by lia. simpl. eauto.
    - apply rows_in_raster; lia. }
  exists gp, top, bot, descent, rows.
  do 6 (split; [done|]).
  unfold dump_glyph. rewrite Hcols. step.
  destruct (Z.eqb_spec coff0 coff1); [done|].
  rewrite How. step. rewrite Hgp. step.
  rewrite Hscan. step. rewrite Hdescent. step.
  rewrite (dump_bitmap_spec _ _ _ _ _ rows Hpix Hrows). step.
  done.
Qed.

(** ** Reading the rows back *)

Lemma forall_range_bool (f : Z -> bool) (n : Z) :
  forallb f (seqZ 0 n) = true -> forall v, 0 <= v < n -> f v = true.
Proof.
  intros Hall v Hv. rewrite forallb_forall in Hall. apply Hall.
  apply list_elem_of_In, elem_of_seqZ. lia.
Qed.

(** A byte is printed as its two hexadecimal digits. *)
Lemma hex02_byte u v :
  0 <= v < 256 ->
  hex02 u v = String (hex_digit u (v / 16)) (String (hex_digit u (v mod 16)) "").
Proof.
  intros Hv.
  apply String.eqb_eq.
  apply (forall_range_bool
    (fun v => String.eqb (hex02 u v)
       (String (hex_digit u (v / 16)) (String (hex_digit u (v mod 16)) ""))) 256);
    [|done].
  destruct u; vm_compute; reflexivity.
Qed.

Lemma hex_digit_value_digit u d :
  0 <= d < 16 -> hex_digit_value (hex_digit u d) = Some d.
Proof.
  intros Hd.
  assert (match hex_digit_value (hex_digit u d) with
          | Some d' => d' =? d | None => false end = true) as H.
  { apply (forall_range_bool
      (fun d => match hex_digit_value (hex_digit u d) with
                | Some d' => d' =? d | None => false end) 16); [|done].
    destruct u; vm_compute; reflexivity. }
  destruct (hex_digit_value (hex_digit u d)) as [d'|]; [|done].
  apply Z.eqb_eq in H. by subst.
Qed.

Lemma decode_hex_byte u v s :
  0 <= v < 256 ->
  decode_hex (hex02 u v +:+ s) = bytes ← decode_hex s; Some (v :: bytes).
Proof.
  intros Hv. rewrite hex02_byte by done.
  change (String ?a (String ?b "") +:+ s) with (String a (String b s)).
  cbn [decode_hex].
  rewrite !hex_digit_value_digit
    by first [ apply Z.mod_pos_bound; lia
             | split; [apply Z.div_pos; lia|apply Z.div_lt_upper_bound; lia] ].
  step. destruct (decode_hex s); [|done]. simpl.
  do 2 f_equal. pose proof (Z.div_mod v 16). lia.
Qed.

Lemma pack_byte_range c :
  Forall pixel c -> (length c <= 8)%nat -> 0 <= pack_byte c < 256.
Proof.
  intros Hc Hlen. unfold pack_byte.
  pose proof (bits_value_bound (c ++ replicate (8 - length c) 0)) as H.
  rewrite length_app, length_replicate in H.
  replace (Z.of_nat (length c + (8 - length c))) with 8 in H by lia.
  apply H. apply Forall_app. split; [done|]. apply Forall_replicate. by left.
Qed.

Lemma byte_bits_value l :
  Forall pixel l -> length l = 8%nat -> byte_bits (bits_value l) = l.
Proof.
  intros Hl Hlen.
  do 9 (destruct l as [|? l]; try discriminate Hlen).
  repeat match goal with
         | H : Forall pixel (_ :: _) |- _ => apply Forall_cons in H as [? H]
         end.
  repeat match goal with
         | H : pixel _ |- _ => destruct H as [-> | ->]
         end; reflexivity.
Qed.

Lemma byte_bits_pack c :
  Forall pixel c -> (length c <= 8)%nat ->
  byte_bits (pack_byte c) = c ++ replicate (8 - length c) 0.
Proof.
  intros Hc Hlen. unfold pack_byte. apply byte_bits_value.
  - apply Forall_app. split; [done|]. apply Forall_replicate. by left.
  - rewrite length_app, length_replicate. lia.
Qed.

Lemma chunks8_pixel n : forall r,
  Forall pixel r ->
  Forall (fun c => Forall pixel c /\ (length c <= 8)%nat) (chunks8 n r).
Proof.
  induction n as [|n IH]; intros r Hr; simpl; [done|].
  constructor.
  - split; [by apply Forall_take|]. rewrite length_take. lia.
  - apply IH. by apply Forall_drop.
Qed.

Lemma decode_hex_bytes u (bs : list Z) :
  Forall (fun v => 0 <= v < 256) bs ->
  decode_hex (foldr (fun v s => hex02 u v +:+ s) "" bs) = Some bs.
Proof.
  induction 1 as [|v bs Hv _ IH]; [done|].
  cbn [foldr]. rewrite decode_hex_byte by done. by rewrite IH.
Qed.

Lemma chunks8_bits n : forall r,
  Forall pixel r -> (length r <= 8 * n)%nat ->
  exists k, concat (byte_bits <$> (pack_byte <$> chunks8 n r)) = r ++ replicate k 0.
Proof.
  induction n as [|n IH]; intros r Hr Hlen.
  - exists 0%nat. destruct r; [done|simpl in Hlen; lia].
  - cbn [chunks8 fmap list_fmap concat].
    destruct (IH (drop 8 r)) as [k Hk].
    { by apply Forall_drop. }
    { rewrite length_drop. lia. }
    change (list_fmap _ _ byte_bits (list_fmap _ _ pack_byte (chunks8 n (drop 8 r))))
      with (byte_bits <$> (pack_byte <$> chunks8 n (drop 8 r))).
    rewrite Hk, byte_bits_pack by (try apply Forall_take; try rewrite length_take; done || lia).
    destruct (decide (length r <= 8)%nat) as [Hshort|Hlong].
    + rewrite take_ge, drop_ge by lia. simpl.
      exists (8 - length r + k)%nat. by rewrite replicate_add, app_assoc.
    + rewrite length_take, Nat.min_l by lia. simpl.
      exists k. by rewrite app_nil_r, app_assoc, take_drop.
Qed.

(** A row of pixels is read back from its hexadecimal pairs. *)
Lemma decode_row_hex u r :
  Forall pixel r -> decode_row (row_hex u r) (Z.of_nat (length r)) = Some r.
Proof.
  intros Hr. unfold decode_row, row_hex, row_bytes.
  rewrite decode_hex_bytes.
  - step.
    destruct (chunks8_bits ((length r + 7) `div` 8) r Hr) as [k ->].
    { pose proof (Nat.div_mod_eq (length r + 7) 8).
      pose proof (Nat.mod_upper_bound (length r + 7) 8). lia. }
    rewrite Nat2Z.id. by rewrite take_app_length.
  - apply Forall_fmap. eapply Forall_impl; [by apply chunks8_pixel|].
    intros c [Hc Hlen]. by apply pack_byte_range.
Qed.

Lemma hex_digit_one_line u d : Ascii.eqb (hex_digit u d) "010"%char = false.
Proof.
  unfold hex_digit. generalize (Z.to_nat d) as n. intros n.
  destruct u; do 16 (destruct n as [|n]; [reflexivity|]); reflexivity.
Qed.

Lemma one_line_app s1 s2 : one_line s1 -> one_line s2 -> one_line (s1 +:+ s2).
Proof.
  induction s1 as [|c s1 IH]; intros H1 H2; [done|].
  destruct H1 as [Hc H1]. split; [done|]. by apply IH.
Qed.

Lemma hex_go_one_line u fuel : forall n acc,
  one_line acc -> one_line (hex_go u fuel n acc).
Proof.
  induction fuel as [|fuel IH]; intros n acc Hacc; [done|].
  cbn [hex_go]. destruct (n / 16 =? 0).
  - split; [apply hex_digit_one_line|done].
  - apply IH. split; [apply hex_digit_one_line|done].
Qed.

Lemma hex02_one_line u v : one_line (hex02 u v).
Proof.
  unfold hex02, pad02. destruct (_ <? _)%nat.
  - apply one_line_app; [done|]. by apply hex_go_one_line.
  - by apply hex_go_one_line.
Qed.

Lemma row_hex_one_line u r : one_line (row_hex u r).
Proof.
  unfold row_hex. induction (row_bytes r) as [|v bs IH]; [done|].
  cbn [foldr]. apply one_line_app; [apply hex02_one_line|done].
Qed.

Lemma lines_of_line l rest :
  one_line l -> lines_of (l +:+ nl +:+ rest) = l :: lines_of rest.
Proof.
  induction l as [|c l IH]; intros Hl; [done|].
  destruct Hl as [Hc Hl].
  change (String c l +:+ nl +:+ rest) with (String c (l +:+ nl +:+ rest)).
  cbn [lines_of]. by rewrite Hc, IH.
Qed.

Lemma decode_row_row_hex u r span :
  Forall pixel r -> length r = Z.to_nat span ->
  decode_row (row_hex u r) span = Some r.
Proof.
  intros Hr Hlen. pose proof (decode_row_hex u r Hr) as H.
  unfold decode_row in *. by rewrite Nat2Z.id, Hlen in H.
Qed.

(** The rows of a [BITMAP] section are read back from its text. *)
Lemma decode_bitmap_text u span rows :
  Forall (fun r => Forall pixel r /\ length r = Z.to_nat span) rows ->
  decode_bitmap (bitmap_text u rows) span = Some rows.
Proof.
  intros Hrows. unfold decode_bitmap. apply mapM_Some_2.
  induction Hrows as [|r rows [Hr Hlen] _ IH]; [constructor|].
  cbn [bitmap_text foldr]. rewrite lines_of_line by apply row_hex_one_line.
  constructor; [by apply decode_row_row_hex|done].
Qed.

Lemma rows_of_raster gp L span (l : list Z) rows :
  Forall pixel gp ->
  mapM (row_pixels gp L span) l = Some rows ->
  Forall (fun r => Forall pixel r /\ length r = Z.to_nat span) rows.
Proof.
  intros Hgp H%mapM_Some.
  induction H as [|i r l rows Hr _ IH]; constructor; [|done].
  split; [by eapply row_pixels_pixel|]. by apply row_pixels_inv in Hr as [? _].
Qed.

(** ** Glyph records *)

Lemma gp_set_inv gp k v gp' :
  gp_set gp k v = Some gp' ->
  length gp' = length gp /\ (Forall pixel gp -> pixel v -> Forall pixel gp').
Proof.
  unfold gp_set. destruct (_ || _); [done|]. intros [= <-].
  split; [apply length_insert|]. intros. by apply Forall_insert.
Qed.

(** A defined extraction leaves a raster of pixels, of the same size. *)
Lemma extract_glyph_pixels o bp L coff0 coff1 gp0 gp :
  extract_glyph o bp L coff0 coff1 gp0 = Some gp ->
  Forall pixel gp0 ->
  length gp = length gp0 /\ Forall pixel gp.
Proof.
  intros Hrun Hpix. unfold extract_glyph in Hrun.
  eapply (foldM_preserves (fun gp => length gp = length gp0 /\ Forall pixel gp));
    [|split; [reflexivity|exact Hpix]|exact Hrun].
  intros i gp1 gp2 Hrow Hinv.
  eapply (foldM_preserves (fun gp => length gp = length gp0 /\ Forall pixel gp));
    [|exact Hinv|exact Hrow].
  intros j gp3 gp4 Hstep [Hlen3 Hpix3]. cbv beta in Hstep.
  destruct (image_bit o bp L i j) as [bit|] eqn:Hbit;
    step in Hstep; [|done].
  apply gp_set_inv in Hstep as [Hlen4 Hpix4].
  split; [congruence|]. apply Hpix4; [done|]. by eapply image_bit_pixel.
Qed.

(** A row that is written is a row of the raster. *)
Lemma dump_row_pixels gp L span i row :
  dump_row gp L span i = Some row -> is_Some (row_pixels gp L span i).
Proof.
  intros Hrow. unfold row_pixels.
  destruct (mapM _ _) as [pxs|] eqn:E; [eauto|].
  apply mapM_None_1, Exists_exists in E as (j & Hj & Hnone).
  unfold dump_row in Hrow.
  match type of Hrow with
  | context [foldM ?f ?l ?s] => assert (foldM f l s = None) as Hfold
  end.
  { apply (foldM_undefined_at _ _ j); [done|]. intros [bits out]. by rewrite Hnone. }
  by rewrite Hfold in Hrow.
Qed.

Lemma dump_bitmap_pixels gp L span top bot section :
  dump_bitmap gp L span top bot = Some section ->
  is_Some (mapM (row_pixels gp L span) (seqZ top (bot - top + 1))).
Proof.
  intros Hrun.
  destruct (mapM _ _) as [rows|] eqn:E; [eauto|].
  apply mapM_None_1, Exists_exists in E as (i & Hi & Hnone).
  unfold dump_bitmap in Hrun.
  match type of Hrun with
  | foldM ?f ?l ?s = _ => assert (foldM f l s = None) as Hfold
  end.
  { apply (foldM_undefined_at _ _ i); [done|].
    intros out. destruct (dump_row gp L span i) as [row|] eqn:Hrow; [|done].
    apply dump_row_pixels in Hrow as [pxs Hpxs]. congruence. }
  congruence.
Qed.

(** What a defined call of [dump_glyph] on a live glyph has done: it has
    extracted the raster of the glyph, found the first and the last row
    with ink, and written the head of the record, those rows and the
    [ENDCHAR] line. *)
Lemma dump_glyph_inv o m bp L gp0 g coff0 coff1 ow out out' :
  alloc_raster L = Some gp0 ->
  glyph_columns m L g = Some (coff0, coff1) ->
  coff0 <> coff1 ->
  glyph_ow m L g = Some ow ->
  dump_glyph o m bp L gp0 g out = Some out' ->
  exists gp top bot descent rows,
    extract_glyph o bp L coff0 coff1 (clear_raster gp0) = Some gp /\
    Forall pixel gp /\
    scan_rows gp L = Some (top, bot) /\
    ink_rows gp L top bot /\
    toshort m Hdr.ftDescent = Some descent /\
    mapM (row_pixels gp L (coff1 - coff0)) (seqZ top (bot - top + 1)) = Some rows /\
    dump_bitmap gp L (coff1 - coff0) top bot = Some (bitmap_text false rows) /\
    out' = out +:+ glyph_head L g ow coff0 coff1 top bot descent +:+
           bitmap_text false rows +:+ "ENDCHAR" +:+ nl.
Proof.
  intros Hgp0%alloc_raster_size Hcols Hlive How Hrun.
  unfold dump_glyph in Hrun. rewrite Hcols in Hrun. step in Hrun.
  destruct (Z.eqb_spec coff0 coff1); [done|].
  rewrite How in Hrun. step in Hrun.
  destruct (extract_glyph o bp L coff0 coff1 (clear_raster gp0)) as [gp|] eqn:Hgp; [|done].
  step in Hrun.
  pose proof (clear_raster_spec gp0) as [Hlen0 Hpix0].
  destruct (extract_glyph_pixels _ _ _ _ _ _ _ Hgp Hpix0) as [Hlen Hpix].
  destruct (scan_rows_spec gp L) as (top & bot & Hscan & Hink); [lia|].
  rewrite Hscan in Hrun. step in Hrun.
  destruct (toshort m Hdr.ftDescent) as [descent|]; [|done].
  step in Hrun.
  destruct (dump_bitmap gp L (coff1 - coff0) top bot) as [section|] eqn:Hsection; [|done].
  step in Hrun. injection Hrun as <-.
  destruct (dump_bitmap_pixels _ _ _ _ _ _ Hsection) as [rows Hrows].
  pose proof (dump_bitmap_spec _ _ _ _ _ rows Hpix Hrows) as Hspec.
  assert (section = bitmap_text false rows) as -> by congruence.
  exists gp, top, bot, descent, rows. done.
Qed.

(** C7. The record of every emitted glyph has, after its [STARTCHAR] and
    [ENCODING] lines, a [SWIDTH] line whose horizontal value is 720 times
    that of the [DWIDTH] line that follows it, which is the low byte of
    the glyph's offset/width entry; the vertical value of both is 0.
    (And a record is emitted for every live glyph that lies inside the
    scanline and the raster.) *)
Theorem dump_glyph_swidth_dwidth o fp L bp gp0 g coff0 coff1 ow out :
  glyph_columns (fr_bytes fp) L g = Some (coff0, coff1) ->
  coff0 <> coff1 ->
  glyph_ow (fr_bytes fp) L g = Some ow ->
  (forall out',
     dump_glyph o (fr_bytes fp) bp L gp0 g out = Some out' ->
     exists dwidth rest,
       dwidth = ow mod 256 /\
       out' = out +:+ "STARTCHAR GCID" +:+ hex02 true g +:+ nl +:+
              "ENCODING " +:+ dec g +:+ nl +:+
              "SWIDTH " +:+ dec (720 * dwidth) +:+ " 0" +:+ nl +:+
              "DWIDTH " +:+ dec dwidth +:+ " 0" +:+ nl +:+ rest) /\
  (scanlines fp L = Some bp -> alloc_raster L = Some gp0 ->
   glyph_in_bounds fp L coff0 coff1 ->
   is_Some (dump_glyph o (fr_bytes fp) bp L gp0 g out)).
Proof.
  intros Hcols Hlive How. split.
  - intros out' Hrun. unfold dump_glyph in Hrun.
    rewrite Hcols in Hrun. step in Hrun.
    destruct (Z.eqb_spec coff0 coff1); [done|].
    rewrite How in Hrun. step in Hrun.
    destruct (extract_glyph _ _ _ _ _ _) as [gp|]; [|done].
    step in Hrun.
    destruct (scan_rows gp L) as [[top bot]|]; [|done].
    step in Hrun.
    destruct (toshort _ _) as [descent|]; [|done]. step in Hrun.
    destruct (dump_bitmap _ _ _ _ _) as [section|]; [|done].
    step in Hrun. injection Hrun as <-.
    exists (ow mod 256). eexists. split; [done|].
    unfold glyph_head.
    change 255 with (Z.ones 8). rewrite Z.land_ones by lia. change (2 ^ 8) with 256.
    rewrite (Z.mul_comm (ow mod 256) 720).
    repeat (rewrite !append_assoc || (f_equal; [])). reflexivity.
  - intros Hbp Hgp0%alloc_raster_size (Hht & Hrw & Hlen & Hc & Hspan).
    destruct (dump_glyph_live o fp L bp gp0 g coff0 coff1 ow out)
      as (gp & top & bot & descent & rows & _ & _ & _ & _ & _ & _ & ->); eauto.
Qed.

Lemma dump_glyph_swidth_dwidth_witness :
  exists out' dwidth rest,
    dump_glyph BigEndian (fr_bytes (Sample.scenario 1001)) (Sample.words [40960])
      Sample.scenario_layout [0; 0; 0; 0] 65 "" = Some out' /\
    dwidth = 8 mod 256 /\
    out' = "" +:+ "STARTCHAR GCID" +:+ hex02 true 65 +:+ nl +:+
           "ENCODING " +:+ dec 65 +:+ nl +:+
           "SWIDTH " +:+ dec (720 * dwidth) +:+ " 0" +:+ nl +:+
           "DWIDTH " +:+ dec dwidth +:+ " 0" +:+ nl +:+ rest.
Proof.
  destruct (dump_glyph_swidth_dwidth BigEndian (Sample.scenario 1001)
              Sample.scenario_layout (Sample.words [40960]) [0; 0; 0; 0] 65 0 4 8 "")
    as [Hrecord Hdefined]; [reflexivity|lia|reflexivity|].
  destruct Hdefined as [out' Hrun];
    [reflexivity|reflexivity|repeat split; vm_compute; first [reflexivity | discriminate]|].
  destruct (Hrecord out' Hrun) as (dwidth & rest & Hdwidth & Hout).
  exists out', dwidth, rest. auto.
Defined.

(** C4, as the code has it. The [BITMAP] section of every emitted glyph
    holds the rows of the glyph's raster from the first row with ink to
    the last one, and no other; each row is packed most significant bit
    first into bytes, the last byte padded with zero bits, and written as
    lowercase hexadecimal pairs on a line of its own.  (And a record is
    emitted for every live glyph that lies inside the scanline and the
    raster.)  On a host whose [CARD16] loads take the most significant
    byte first, the scenario gives one glyph record, [CHARS 1], a [BBX]
    width of 4 and the bitmap row [a0]. *)
Theorem dump_glyph_bitmap_section o fp L bp gp0 g coff0 coff1 ow out :
  alloc_raster L = Some gp0 ->
  glyph_columns (fr_bytes fp) L g = Some (coff0, coff1) ->
  coff0 <> coff1 ->
  glyph_ow (fr_bytes fp) L g = Some ow ->
  (forall out',
     dump_glyph o (fr_bytes fp) bp L gp0 g out = Some out' ->
     exists gp top bot descent rows,
       extract_glyph o bp L coff0 coff1 (clear_raster gp0) = Some gp /\
       scan_rows gp L = Some (top, bot) /\
       ink_rows gp L top bot /\
       mapM (row_pixels gp L (coff1 - coff0)) (seqZ top (bot - top + 1)) = Some rows /\
       dump_bitmap gp L (coff1 - coff0) top bot = Some (bitmap_text false rows) /\
       out' = out +:+ glyph_head L g ow coff0 coff1 top bot descent +:+
              bitmap_text false rows +:+ "ENDCHAR" +:+ nl) /\
  (scanlines fp L = Some bp -> glyph_in_bounds fp L coff0 coff1 ->
   is_Some (dump_glyph o (fr_bytes fp) bp L gp0 g out)) /\
  FontDump (Sample.env BigEndian true) (Some (Sample.scenario 0)) (Some "Test") 0 12
  = Some (1, {| created := Some ("Test-12.bdf", Sample.scenario_file "a0");
                to_stdout := "Dumping 1 glyphs to " +:+ dq +:+ "Test-12.bdf" +:+ dq +:+ nl;
                to_stderr := "" |}).
Proof.
  intros Hgp0 Hcols Hlive How.
  split; [|split; [|vm_compute; reflexivity]].
  - intros out' Hrun.
    destruct (dump_glyph_inv _ _ _ _ _ _ _ _ _ _ _ Hgp0 Hcols Hlive How Hrun)
      as (gp & top & bot & descent & rows & Hgp & _ & Hscan & Hink & _ & Hrows & Hmap & ->).
    exists gp, top, bot, descent, rows. done.
  - intros Hbp (Hht & Hrw & Hlen & Hc & Hspan). apply alloc_raster_size in Hgp0.
    destruct (dump_glyph_live o fp L bp gp0 g coff0 coff1 ow out)
      as (gp & top & bot & descent & rows & _ & _ & _ & _ & _ & _ & ->); eauto.
Qed.

Lemma dump_glyph_bitmap_section_witness :
  exists out' gp top bot descent rows,
    dump_glyph BigEndian (fr_bytes (Sample.scenario 1001)) (Sample.words [40960])
      Sample.scenario_layout [0; 0; 0; 0] 65 "" = Some out' /\
    extract_glyph BigEndian (Sample.words [40960]) Sample.scenario_layout 0 4
      (clear_raster [0; 0; 0; 0]) = Some gp /\
    scan_rows gp Sample.scenario_layout = Some (top, bot) /\
    ink_rows gp Sample.scenario_layout top bot /\
    mapM (row_pixels gp Sample.scenario_layout (4 - 0)) (seqZ top (bot - top + 1))
    = Some rows /\
    dump_bitmap gp Sample.scenario_layout (4 - 0) top bot
    = Some (bitmap_text false rows) /\
    out' = "" +:+ glyph_head Sample.scenario_layout 65 8 0 4 top bot descent +:+
           bitmap_text false rows +:+ "ENDCHAR" +:+ nl.
Proof.
  destruct (dump_glyph_bitmap_section BigEndian (Sample.scenario 1001)
              Sample.scenario_layout (Sample.words [40960]) [0; 0; 0; 0] 65 0 4 8 "")
    as (Hrecord & Hdefined & _); [reflexivity|reflexivity|lia|reflexivity|].
  destruct Hdefined as [out' Hrun];
    [reflexivity|repeat split; vm_compute; first [reflexivity | discriminate]|].
  destruct (Hrecord out' Hrun) as (gp & top & bot & descent & rows & H).
  exists out', gp, top, bot, descent, rows. auto.
Defined.

(** C4 as stated fails on the case of the digits: the row of the
    scenario is written [a0], with the [%02x] of the source, so the file
    is not the one with the row [A0].  (It also fails on a host whose
    [CARD16] loads take the least significant byte first, where the
    glyph of the scenario has no ink and no row is written at all.) *)
Lemma scenario_bitmap_row_lowercase :
  (exists eff,
     FontDump (Sample.env BigEndian true) (Some (Sample.scenario 0)) (Some "Test") 0 12
     = Some (1, eff) /\
     created eff = Some ("Test-12.bdf", Sample.scenario_file "a0") /\
     created eff <> Some ("Test-12.bdf", Sample.scenario_file "A0")) /\
  (exists eff file,
     FontDump (Sample.env LittleEndian true) (Some (Sample.scenario 0)) (Some "Test") 0 12
     = Some (1, eff) /\
     created eff = Some ("Test-12.bdf", file) /\
     lines_of file
     = ["STARTFONT 2.1"; "FONT Test-12"; "SIZE 12 72 72";
        "FONTBOUNDINGBOX -3 0 0 0"; "STARTPROPERTIES 2"; "FONT_ASCENT 1";
        "FONT_DESCENT 0"; "ENDPROPERTIES"; "CHARS 1";
        "STARTCHAR GCID41"; "ENCODING 65"; "SWIDTH 5760 0"; "DWIDTH 8 0";
        "BBX 4 0 0 0"; "BITMAP"; "ENDCHAR"; "ENDFONT"]).
Proof.
  split.
  - eexists. split; [vm_compute; reflexivity|]. split; [reflexivity|discriminate].
  - do 2 eexists. split; [vm_compute; reflexivity|]. split; reflexivity.
Qed.

(** The elements of a list computed over a range. *)
Lemma mapM_seqZ_lookup {A : Type} (f : Z -> option A) (m n : Z) (l : list A) (k : Z) :
  mapM f (seqZ m n) = Some l -> 0 <= k < n ->
  exists y, l !! Z.to_nat k = Some y /\ f (m + k) = Some y.
Proof.
  intros Hl%mapM_Some Hk.
  destruct (Forall2_lookup_l _ _ _ (Z.to_nat k) (m + k) Hl) as (y & Hy & Hf).
  - rewrite lookup_seqZ. split; lia.
  - eauto.
Qed.

(** The rows of a raster, read cell by cell. *)
Lemma rows_bit_at gp L span top n rows k c :
  mapM (row_pixels gp L span) (seqZ top n) = Some rows ->
  0 <= k < n -> 0 <= c < span ->
  exists v, bit_at rows k c = Some v /\ gp_get gp ((top + k) * wd L + c) = Some v.
Proof.
  intros Hrows Hk Hc.
  destruct (mapM_seqZ_lookup _ _ _ _ k Hrows Hk) as (row & Hrow & Hcells).
  unfold row_pixels in Hcells.
  destruct (mapM_seqZ_lookup _ _ _ _ c Hcells Hc) as (v & Hv & Hget).
  exists v. unfold bit_at. rewrite Hrow. step. split; [done|].
  by rewrite Z.add_0_l in Hget.
Qed.

(** C5. For every emitted glyph, the text of the [BITMAP] section, read
    back line by line (hexadecimal pairs to bytes, bytes to bits most
    significant first, cut at the glyph's column span), gives back the
    pixels of the glyph's raster in the rows from the top to the bottom
    of its bounding box: as many rows as from the first row of the
    raster with ink to the last, and in each of them, at each column of
    the span, the cell of the raster, so that the bits read back as 1
    are the cells of those rows that are set.  When the glyph lies
    inside the scanline and the raster, the record is emitted, the cells
    of the raster are the bits of the glyph in the bitmap image, and the
    bits read back as 1 are the bits of the image that are set. *)
Theorem dump_glyph_bitmap_round_trip o fp L bp gp0 g coff0 coff1 ow out :
  alloc_raster L = Some gp0 ->
  glyph_columns (fr_bytes fp) L g = Some (coff0, coff1) ->
  coff0 <> coff1 ->
  glyph_ow (fr_bytes fp) L g = Some ow ->
  (forall out',
     dump_glyph o (fr_bytes fp) bp L gp0 g out = Some out' ->
     exists gp top bot descent section rows,
       extract_glyph o bp L coff0 coff1 (clear_raster gp0) = Some gp /\
       scan_rows gp L = Some (top, bot) /\
       ink_rows gp L top bot /\
       toshort (fr_bytes fp) Hdr.ftDescent = Some descent /\
       dump_bitmap gp L (coff1 - coff0) top bot = Some section /\
       out' = out +:+ glyph_head L g ow coff0 coff1 top bot descent +:+
              section +:+ "ENDCHAR" +:+ nl /\
       decode_bitmap section (coff1 - coff0) = Some rows /\
       mapM (row_pixels gp L (coff1 - coff0)) (seqZ top (bot - top + 1)) = Some rows /\
       length rows = Z.to_nat (bot - top + 1) /\
       (forall i c, top <= i <= bot -> 0 <= c < coff1 - coff0 ->
          bit_at rows (i - top) c = gp_get gp (i * wd L + c) /\
          (bit_at rows (i - top) c = Some 1 <-> ink_at gp L i c)) /\
       (scanlines fp L = Some bp -> glyph_in_bounds fp L coff0 coff1 ->
        (forall i j, 0 <= i < ht L -> coff0 <= j < coff1 ->
           gp_get gp (i * wd L + (j - coff0)) = image_bit o bp L i j) /\
        (forall i j, top <= i <= bot -> coff0 <= j < coff1 ->
           (bit_at rows (i - top) (j - coff0) = Some 1 <->
            image_bit o bp L i j = Some 1)) /\
        (forall i j, 0 <= i < ht L -> coff0 <= j < coff1 ->
           image_bit o bp L i j = Some 1 -> top <= i <= bot))) /\
  (scanlines fp L = Some bp -> glyph_in_bounds fp L coff0 coff1 ->
   is_Some (dump_glyph o (fr_bytes fp) bp L gp0 g out)).
Proof.
  intros Hgp0 Hcols Hlive How. split.
  - intros out' Hrun.
    destruct (dump_glyph_inv _ _ _ _ _ _ _ _ _ _ _ Hgp0 Hcols Hlive How Hrun)
      as (gp & top & bot & descent & rows & Hgp & Hpix & Hscan & Hink & Hd & Hrows
          & Hmap & ->).
    exists gp, top, bot, descent, (bitmap_text false rows), rows.
    do 6 (split; [done|]).
    split; [apply decode_bitmap_text; by eapply rows_of_raster|].
    split; [done|].
    split; [by rewrite <- (length_mapM _ _ _ Hrows), length_seqZ|].
    assert (forall i c, top <= i <= bot -> 0 <= c < coff1 - coff0 ->
              bit_at rows (i - top) c = gp_get gp (i * wd L + c) /\
              (bit_at rows (i - top) c = Some 1 <-> ink_at gp L i c)) as Hbits.
    { intros i c Hi Hc.
      destruct (rows_bit_at _ _ _ _ _ _ (i - top) c Hrows) as (v & Hv & Hget);
        [lia|done|].
      replace (top + (i - top)) with i in Hget by lia.
      rewrite Hv, Hget. split; [done|]. unfold ink_at. rewrite Hget. split.
      - intros [= ->]. by exists 1.
      - intros (v' & [= <-] & Hne).
        destruct (gp_get_pixel _ _ _ Hpix Hget) as [->| ->]; done. }
    split; [done|].
    intros Hbp (Hht & Hrw & Hlen & Hc & Hspan).
    destruct (glyph_columns_inv _ _ _ _ _ Hcols) as (Hc0%toushort_range & _).
    pose proof (clear_raster_spec gp0) as [Hlen0 Hpix0].
    apply alloc_raster_size in Hgp0 as Hsize.
    destruct (extract_glyph_spec o bp L coff0 coff1) with (gp0 := clear_raster gp0)
      as (gp' & Hgp' & _ & _ & Himage); [done| |lia|done|].
    { intros i j Hi Hj. eapply image_bit_is_Some; eauto; lia. }
    assert (gp' = gp) as -> by congruence.
    split; [done|]. split.
    + intros i j Hi Hj.
      destruct (Hbits i (j - coff0)) as [-> _]; [done|lia|].
      rewrite Himage; [done| |done].
      destruct Hink as [(-> & -> & _)|(? & ? & _)]; lia.
    + intros i j Hi Hj Hset.
      destruct Hink as [(_ & _ & Hnone)|(_ & _ & _ & _ & Hall)].
      * destruct (Hnone i Hi). exists (j - coff0). split; [lia|].
        exists 1. by rewrite Himage.
      * apply Hall; [done|]. exists (j - coff0). split; [lia|].
        exists 1. by rewrite Himage.
  - intros Hbp (Hht & Hrw & Hlen & Hc & Hspan). apply alloc_raster_size in Hgp0.
    destruct (dump_glyph_live o fp L bp gp0 g coff0 coff1 ow out)
      as (gp & top & bot & descent & rows & _ & _ & _ & _ & _ & _ & ->); eauto.
Qed.

Lemma dump_glyph_bitmap_round_trip_witness :
  dump_glyph BigEndian (fr_bytes (Sample.scenario 1001)) (Sample.words [40960])
    Sample.scenario_layout [0; 0; 0; 0] 65 ""
  = Some ("" +:+ glyph_head Sample.scenario_layout 65 8 0 4 0 0 0 +:+
          ("a0" +:+ nl) +:+ "ENDCHAR" +:+ nl) /\
  extract_glyph BigEndian (Sample.words [40960]) Sample.scenario_layout 0 4
    (clear_raster [0; 0; 0; 0]) = Some [1; 0; 1; 0] /\
  ink_rows [1; 0; 1; 0] Sample.scenario_layout 0 0 /\
  decode_bitmap ("a0" +:+ nl) (4 - 0) = Some [[1; 0; 1; 0]] /\
  (forall i j, 0 <= i <= 0 -> 0 <= j < 4 ->
     (bit_at [[1; 0; 1; 0]] (i - 0) (j - 0) = Some 1 <->
      image_bit BigEndian (Sample.words [40960]) Sample.scenario_layout i j = Some 1)).
Proof.
  destruct (dump_glyph_bitmap_round_trip BigEndian (Sample.scenario 1001)
              Sample.scenario_layout (Sample.words [40960]) [0; 0; 0; 0] 65 0 4 8 "")
    as (Hrecord & Hdefined); [reflexivity|reflexivity|lia|reflexivity|].
  assert (glyph_in_bounds (Sample.scenario 1001) Sample.scenario_layout 0 4) as Hin
    by (repeat split; vm_compute; first [reflexivity | discriminate]).
  destruct Hdefined as [out' Hrun]; [reflexivity|exact Hin|].
  destruct (Hrecord out' Hrun)
    as (gp & top & bot & descent & section & rows & Hgp & Hscan & Hink & Hd & Hsection
        & Hout & Hdecode & Hrows & Hlen & Hbits & Himage).
  assert (gp = [1; 0; 1; 0]) as -> by (vm_compute in Hgp; by injection Hgp).
  assert (top = 0 /\ bot = 0) as [-> ->]
    by (vm_compute in Hscan; by injection Hscan).
  assert (descent = 0) as -> by (vm_compute in Hd; by injection Hd).
  assert (section = "a0" +:+ nl) as ->
    by (vm_compute in Hsection; by injection Hsection).
  assert (rows = [[1; 0; 1; 0]]) as -> by (vm_compute in Hrows; by injection Hrows).
  destruct (Himage eq_refl Hin) as (_ & Hset & _).
  split; [by rewrite Hrun, Hout|].
  split; [exact Hgp|].
  split; [exact Hink|]. split; [exact Hdecode|exact Hset].
Defined.

(** ** Glyphs without ink *)

Lemma empty_glyph_columns m L g :
  empty_glyph m L g = true <-> exists coff, glyph_columns m L g = Some (coff, coff).
Proof.
  unfold empty_glyph. destruct (glyph_columns m L g) as [[c0 c1]|]; split.
  - intros ->%Z.eqb_eq. eauto.
  - intros [c [= -> ->]]. apply Z.eqb_refl.
  - done.
  - by intros [c ?].
Qed.

Lemma info_glyph_empty o m bp L g st :
  empty_glyph m L g = true -> info_glyph o m bp L g st = Some st.
Proof.
  intros [coff Hcols]%empty_glyph_columns. destruct st as [gp ng].
  unfold info_glyph. rewrite Hcols. step. by rewrite Z.eqb_refl.
Qed.

Lemma dump_glyph_empty o m bp L gp0 g out :
  empty_glyph m L g = true -> dump_glyph o m bp L gp0 g out = Some out.
Proof.
  intros [coff Hcols]%empty_glyph_columns.
  unfold dump_glyph. rewrite Hcols. step. by rewrite Z.eqb_refl.
Qed.

Lemma INT16_succ n : INT16 (INT16 n + 1) = INT16 (n + 1).
Proof.
  unfold INT16. f_equal.
  replace ((n + 32768) mod 65536 - 32768 + 1 + 32768)
    with ((n + 32768) mod 65536 + 1) by lia.
  rewrite Zplus_mod_idemp_l. f_equal. lia.
Qed.

Lemma info_glyph_live_count o m bp L g gp ng gp' ng' :
  empty_glyph m L g = false ->
  info_glyph o m bp L g (gp, ng) = Some (gp', ng') -> ng' = INT16 (ng + 1).
Proof.
  unfold empty_glyph, info_glyph.
  destruct (glyph_columns m L g) as [[c0 c1]|]; [|done].
  step. intros ->.
  destruct (glyph_ow m L g); [|done]. step.
  destruct (overlay_glyph _ _ _ _ _ _ _); [|done]. step.
  by intros [= _ <-].
Qed.

Lemma info_glyphs_count o m bp L (l : list Z) : forall gp n gp' ng',
  Forall (fun g => empty_glyph m L g = false) l ->
  foldM (info_glyph o m bp L) l (gp, INT16 n) = Some (gp', ng') ->
  ng' = INT16 (n + Z.of_nat (length l)).
Proof.
  induction l as [|g l IH]; intros gp n gp' ng' Hl Hrun.
  - injection Hrun as _ <-. by rewrite Z.add_0_r.
  - apply Forall_cons in Hl as [Hg Hl]. cbn [foldM] in Hrun.
    destruct (info_glyph o m bp L g (gp, INT16 n)) as [[gp1 ng1]|] eqn:Hstep; [|done].
    step in Hrun.
    apply info_glyph_live_count in Hstep as ->; [|done].
    rewrite INT16_succ in Hrun. apply IH in Hrun as ->; [|done].
    f_equal. cbn [length]. lia.
Qed.

(** C6. A glyph whose two entries of the location table are equal
    contributes nothing.  The body of the glyph loop of [FontInfo] leaves
    the raster and the glyph count as they are, and the body of the glyph
    loop of [FontDump] writes nothing; so each loop gives what it gives
    on the glyphs with ink alone, and the count [FontInfo] returns is the
    number of those (as a [short]). *)
Theorem empty_glyphs_contribute_nothing o m bp L gp0 :
  0 <= fg L -> lg L < 65535 ->
  (forall g st, empty_glyph m L g = true -> info_glyph o m bp L g st = Some st) /\
  (forall g out, empty_glyph m L g = true -> dump_glyph o m bp L gp0 g out = Some out) /\
  (forall st, for_glyphs (info_glyph o m bp L) (fg L) (lg L) st
              = foldM (info_glyph o m bp L) (live_glyphs m L) st) /\
  (forall out, for_glyphs (dump_glyph o m bp L gp0) (fg L) (lg L) out
               = foldM (dump_glyph o m bp L gp0) (live_glyphs m L) out) /\
  (forall gp gp' ng, for_glyphs (info_glyph o m bp L) (fg L) (lg L) (gp, 0) = Some (gp', ng) ->
                     ng = INT16 (Z.of_nat (length (live_glyphs m L)))).
Proof.
  intros Hfg Hlg.
  split; [intros; by apply info_glyph_empty|].
  split; [intros; by apply dump_glyph_empty|].
  assert (forall st, for_glyphs (info_glyph o m bp L) (fg L) (lg L) st
                     = foldM (info_glyph o m bp L) (live_glyphs m L) st) as Hinfo.
  { intros st. rewrite for_glyphs_seqZ by done. unfold live_glyphs.
    apply foldM_skip. intros. by apply info_glyph_empty. }
  split; [done|]. split.
  - intros out. rewrite for_glyphs_seqZ by done. unfold live_glyphs.
    apply foldM_skip. intros. by apply dump_glyph_empty.
  - intros gp gp' ng. rewrite Hinfo. intros Hrun.
    change 0 with (INT16 0) in Hrun. apply info_glyphs_count in Hrun; [done|].
    unfold live_glyphs. apply Forall_forall. by intros g [? _]%list_elem_of_filter.
Qed.

Lemma empty_glyphs_contribute_nothing_witness :
  (forall g st, empty_glyph (fr_bytes (Sample.scenario 0)) Sample.scenario_layout g = true ->
     info_glyph BigEndian (fr_bytes (Sample.scenario 0)) (Sample.words [40960])
       Sample.scenario_layout g st = Some st) /\
  (forall g out, empty_glyph (fr_bytes (Sample.scenario 0)) Sample.scenario_layout g = true ->
     dump_glyph BigEndian (fr_bytes (Sample.scenario 0)) (Sample.words [40960])
       Sample.scenario_layout [0; 0; 0; 0] g out = Some out) /\
  (forall st, for_glyphs (info_glyph BigEndian (fr_bytes (Sample.scenario 0))
                            (Sample.words [40960]) Sample.scenario_layout)
                (fg Sample.scenario_layout) (lg Sample.scenario_layout) st
              = foldM (info_glyph BigEndian (fr_bytes (Sample.scenario 0))
                         (Sample.words [40960]) Sample.scenario_layout)
                  (live_glyphs (fr_bytes (Sample.scenario 0)) Sample.scenario_layout) st) /\
  (forall out, for_glyphs (dump_glyph BigEndian (fr_bytes (Sample.scenario 0))
                             (Sample.words [40960]) Sample.scenario_layout [0; 0; 0; 0])
                 (fg Sample.scenario_layout) (lg Sample.scenario_layout) out
               = foldM (dump_glyph BigEndian (fr_bytes (Sample.scenario 0))
                          (Sample.words [40960]) Sample.scenario_layout [0; 0; 0; 0])
                   (live_glyphs (fr_bytes (Sample.scenario 0)) Sample.scenario_layout) out) /\
  (forall gp gp' ng,
     for_glyphs (info_glyph BigEndian (fr_bytes (Sample.scenario 0))
                   (Sample.words [40960]) Sample.scenario_layout)
       (fg Sample.scenario_layout) (lg Sample.scenario_layout) (gp, 0) = Some (gp', ng) ->
     ng = INT16 (Z.of_nat (length
            (live_glyphs (fr_bytes (Sample.scenario 0)) Sample.scenario_layout)))).
Proof.
  apply (empty_glyphs_contribute_nothing BigEndian (fr_bytes (Sample.scenario 0))
           (Sample.words [40960]) Sample.scenario_layout [0; 0; 0; 0]).
  - simpl; lia.
  - simpl; lia.
Defined.

(** ** Resources the conversion is defined on *)

Lemma glyph_valid_inv m L g :
  glyph_valid m L g = true ->
  exists coff0 coff1,
    glyph_columns m L g = Some (coff0, coff1) /\
    (coff0 = coff1 \/
     coff0 <> coff1 /\
     exists ow, glyph_ow m L g = Some ow /\
       coff0 <= coff1 <= 16 * rw L /\ coff1 - coff0 <= wd L /\
       coff1 - coff0 + INT16 (Z.land (Z.shiftr ow 8) 255 + mk L) <= wd L).
Proof.
  unfold glyph_valid. destruct (glyph_columns m L g) as [[c0 c1]|]; [|done].
  intros H. exists c0, c1. split; [done|].
  destruct (Z.eqb_spec c0 c1) as [->|Hne]; [by left|]. right. split; [done|].
  simpl in H. destruct (glyph_ow m L g) as [ow|]; [|done].
  exists ow. split; [done|].
  repeat (apply andb_prop in H as [H ?]). lia.
Qed.

Lemma valid_font_inv fp L :
  valid_font fp L = true ->
  0 < ht L /\ 0 <= rw L /\ 0 <= wd L /\ lg L < 65535 /\
  bitImage + 2 * (ht L * rw L) <= Z.of_nat (length (fr_bytes fp)) /\
  forall g, fg L <= g <= lg L -> glyph_valid (fr_bytes fp) L g = true.
Proof.
  unfold valid_font. intros H.
  repeat (apply andb_prop in H as [H ?]).
  repeat (split; [lia|]).
  intros g Hg.
  match goal with Hall : forallb _ _ = true |- _ => rewrite forallb_forall in Hall; apply Hall end.
  apply list_elem_of_In, elem_of_seqZ. lia.
Qed.




Lemma decode_header_range m L :
  decode_header m = Some L -> 0 <= fg L < 65536 /\ 0 <= lg L < 65536.
Proof.
  unfold decode_header. intros H.
  destruct (toushort m Hdr.ftFirstChar) as [a|] eqn:Ea; [|done].
  destruct (toushort m Hdr.ftLastChar) as [b|] eqn:Eb; [|done].
  step in H.
  destruct (toshort m Hdr.ftKernMax); [|done].
  destruct (toshort m Hdr.ftFRectWidth); [|done].
  destruct (toshort m Hdr.ftFRectHeight); [|done].
  destruct (toushort m Hdr.ftOWTLoc); [|done].
  destruct (toshort m Hdr.ftRowWords); [|done].
  step in H. case_match; [done|].
  injection H as <-. simpl. eauto using toushort_range.
Qed.



(** * The rest of the code *)

(** ** The byte decoders *)

Lemma rd_None m k : rd m k = None <-> k < 0 \/ Z.of_nat (length m) <= k.
Proof.
  unfold rd. destruct (Z.ltb_spec k 0); [split; [auto|done]|].
  rewrite fmap_None, lookup_ge_None. lia.
Qed.

(** A value shifted left by [n] bits and a value of [n] bits share no
    bit: their [|] is their sum. *)
Lemma lor_shiftl_add a b n :
  0 <= n -> 0 <= b < 2 ^ n -> Z.lor (Z.shiftl a n) b = a * 2 ^ n + b.
Proof.
  intros Hn Hb.
  assert (Z.land (Z.shiftl a n) b = 0) as Hdisjoint.
  { apply Z.bits_inj'. intros k Hk. rewrite Z.land_spec, Z.bits_0.
    destruct (Z.lt_ge_cases k n).
    - by rewrite Z.shiftl_spec_low.
    - destruct (Z.eq_dec b 0) as [->|]; [by rewrite Z.bits_0, andb_false_r|].
      rewrite (Z.bits_above_log2 b k), andb_false_r; [done|lia|].
      apply Z.lt_le_trans with n; [|done].
      apply Z.log2_lt_pow2; [lia|]. apply Hb. }
  rewrite <- Z.lxor_lor, <- Z.add_nocarry_lxor by done.
  by rewrite Z.shiftl_mul_pow2.
Qed.

Lemma toushort_value m p b0 b1 :
  rd m p = Some b0 -> rd m (p + 1) = Some b1 ->
  toushort m p = Some (256 * b0 + b1).
Proof.
  intros H0 H1. unfold toushort. rewrite H0, H1. simpl. f_equal.
  pose proof (rd_range _ _ _ H0). pose proof (rd_range _ _ _ H1).
  rewrite lor_shiftl_add by (change (2 ^ 8) with 256; lia).
  change (2 ^ 8) with 256. unfold CARD16. rewrite Z.mod_small; lia.
Qed.

Lemma toushort_None m p :
  toushort m p = None <-> p < 0 \/ Z.of_nat (length m) < p + 2.
Proof.
  destruct (rd m p) as [b0|] eqn:H0.
  - destruct (rd m (p + 1)) as [b1|] eqn:H1.
    + rewrite (toushort_value _ _ _ _ H0 H1).
      assert (~ (p < 0 \/ Z.of_nat (length m) <= p)) by (rewrite <- rd_None; congruence).
      assert (~ (p + 1 < 0 \/ Z.of_nat (length m) <= p + 1))
        by (rewrite <- rd_None; congruence).
      split; [done|lia].
    + unfold toushort. rewrite H0, H1. simpl. apply rd_None in H1. split; [lia|done].
  - unfold toushort. rewrite H0. simpl. apply rd_None in H0. split; [lia|done].
Qed.

Lemma toushort_inv m p v :
  toushort m p = Some v ->
  exists b0 b1, rd m p = Some b0 /\ rd m (p + 1) = Some b1 /\
                v = 256 * b0 + b1 /\ b0 = v / 256 /\ b1 = v mod 256.
Proof.
  intros Hv. unfold toushort in Hv.
  destruct (rd m p) as [b0|] eqn:H0; [|done].
  destruct (rd m (p + 1)) as [b1|] eqn:H1; [|done].
  pose proof (toushort_value _ _ _ _ H0 H1) as Hval.
  unfold toushort in Hval. rewrite H0, H1 in Hval. simpl in Hv, Hval.
  assert (v = 256 * b0 + b1) as -> by congruence.
  pose proof (rd_range _ _ _ H0). pose proof (rd_range _ _ _ H1).
  exists b0, b1. repeat split; try done.
  - apply Z.div_unique with b1; lia.
  - apply Z.mod_unique with b0; lia.
Qed.

(** X1. [toushort] reads two bytes, the most significant first: it has
    no result exactly when one of them lies outside the object, and its
    result is 256 times the first byte plus the second, a value of
    sixteen bits from which both bytes can be recovered. *)
Theorem toushort_big_endian m p :
  (toushort m p = None <-> p < 0 \/ Z.of_nat (length m) < p + 2) /\
  (forall v, toushort m p = Some v ->
     0 <= v < 65536 /\
     exists b0 b1, rd m p = Some b0 /\ rd m (p + 1) = Some b1 /\
                   v = 256 * b0 + b1 /\ b0 = v / 256 /\ b1 = v mod 256).
Proof.
  split; [apply toushort_None|].
  intros v Hv. split; [by eapply toushort_range|by apply toushort_inv].
Qed.

Lemma INT16_range z : -32768 <= INT16 z < 32768.
Proof. unfold INT16. pose proof (Z.mod_pos_bound (z + 32768) 65536). lia. Qed.

Lemma toshort_range m p v : toshort m p = Some v -> -32768 <= v < 32768.
Proof.
  unfold toshort. destruct (toushort m p); [|done].
  intros [= <-]. apply INT16_range.
Qed.

(** X2. [toshort] is the two's complement reading of what [toushort]
    decodes: the same value below 32768, that value less 65536 from
    there on; so it is negative exactly when the first byte is 128 or
    more, and [toushort] is recovered from it modulo 65536. *)
Theorem toshort_twos_complement m p :
  (toshort m p = None <-> toushort m p = None) /\
  (forall u, toushort m p = Some u ->
     toshort m p = Some (if u <? 32768 then u else u - 65536)) /\
  (forall s, toshort m p = Some s ->
     -32768 <= s < 32768 /\
     toushort m p = Some (s mod 65536) /\
     (s < 0 <-> exists b0, rd m p = Some b0 /\ 128 <= b0)).
Proof.
  assert (forall u, toushort m p = Some u ->
     toshort m p = Some (if u <? 32768 then u else u - 65536)) as Hsigned.
  { intros u Hu. unfold toshort. rewrite Hu. simpl. f_equal.
    apply toushort_range in Hu. unfold INT16.
    destruct (Z.ltb_spec u 32768).
    - rewrite Z.mod_small; lia.
    - replace (u + 32768) with (u - 32768 + 1 * 65536) by lia.
      rewrite Z.mod_add, Z.mod_small; lia. }
  split; [unfold toshort; apply fmap_None|]. split; [done|].
  intros s Hs.
  destruct (toushort m p) as [u|] eqn:Hu; [|by unfold toshort in Hs; rewrite Hu in Hs].
  rewrite (Hsigned u eq_refl) in Hs. injection Hs as <-.
  pose proof (toushort_range _ _ _ Hu) as Hrange.
  destruct (toushort_inv _ _ _ Hu) as (b0 & b1 & H0 & H1 & Hv & Hb0 & Hb1).
  pose proof (rd_range _ _ _ H0). pose proof (rd_range _ _ _ H1).
  destruct (Z.ltb_spec u 32768).
  - split; [lia|]. split; [by rewrite Z.mod_small by lia|].
    split; [lia|]. intros (b & Hb & Hge). assert (b = b0) as -> by congruence. lia.
  - split; [lia|]. split.
    + replace (u - 65536) with (u + (-1) * 65536) by lia.
      rewrite Z.mod_add, Z.mod_small; [done|lia|lia].
    + split; [|lia]. intros _. exists b0. split; [done|lia].
Qed.

Lemma four_bytes b0 b1 b2 b3 :
  0 <= b1 < 256 -> 0 <= b2 < 256 -> 0 <= b3 < 256 ->
  Z.lor (Z.lor (Z.lor (Z.shiftl b0 24) (Z.shiftl b1 16)) (Z.shiftl b2 8)) b3
  = 16777216 * b0 + 65536 * b1 + 256 * b2 + b3.
Proof.
  intros H1 H2 H3.
  replace (Z.lor (Z.lor (Z.lor (Z.shiftl b0 24) (Z.shiftl b1 16)) (Z.shiftl b2 8)) b3)
    with (Z.lor (Z.shiftl (Z.lor (Z.shiftl (Z.lor (Z.shiftl b0 8) b1) 8) b2) 8) b3).
  - rewrite (lor_shiftl_add b0 b1 8) by (change (2 ^ 8) with 256; lia).
    rewrite (lor_shiftl_add _ b2 8) by (change (2 ^ 8) with 256; lia).
    rewrite (lor_shiftl_add _ b3 8) by (change (2 ^ 8) with 256; lia).
    change (2 ^ 8) with 256. lia.
  - rewrite !Z.shiftl_lor, !Z.shiftl_shiftl by lia. done.
Qed.

(** [p[0] << 24] as an [int]: the byte, read as a signed one, shifted. *)
Lemma INT_shiftl_24 b0 :
  0 <= b0 < 256 ->
  INT (Z.shiftl b0 24) = Z.shiftl (if b0 <? 128 then b0 else b0 - 256) 24.
Proof.
  intros H0. rewrite !Z.shiftl_mul_pow2 by lia. unfold INT.
  change (2 ^ 24) with 16777216.
  destruct (Z.ltb_spec b0 128).
  - rewrite Z.mod_small; lia.
  - replace (b0 * 16777216 + 2147483648)
      with (b0 * 16777216 - 2147483648 + 1 * 4294967296) by lia.
    rewrite Z.mod_add, Z.mod_small; lia.
Qed.

Lemma pow2_long bits :
  32 <= bits -> 2 ^ bits = 2 ^ 32 * 2 ^ (bits - 32) /\ 1 <= 2 ^ (bits - 32).
Proof.
  intros Hbits. split.
  - rewrite <- Z.pow_add_r by lia. f_equal. lia.
  - pose proof (Z.pow_pos_nonneg 2 (bits - 32)). lia.
Qed.

(** The two conversions of an [int]. *)
Lemma ULONG_int bits v :
  32 <= bits -> - 2 ^ 31 <= v < 2 ^ 31 ->
  ULONG bits v = if v <? 0 then v + 2 ^ bits else v.
Proof.
  intros Hbits Hv. unfold ULONG.
  destruct (pow2_long bits Hbits) as [Hpow Hone].
  change (2 ^ 31) with 2147483648 in Hv. change (2 ^ 32) with 4294967296 in Hpow.
  destruct (Z.ltb_spec v 0).
  - replace v with (v + 2 ^ bits + (-1) * 2 ^ bits) at 1 by lia.
    rewrite Z.mod_add by lia. apply Z.mod_small. nia.
  - apply Z.mod_small. nia.
Qed.

Lemma LONG_ULONG_int bits v :
  32 <= bits -> - 2 ^ 31 <= v < 2 ^ 31 -> LONG bits (ULONG bits v) = v.
Proof.
  intros Hbits Hv. unfold LONG, ULONG.
  destruct (pow2_long bits Hbits) as [Hpow Hone].
  assert (2 ^ bits = 2 * 2 ^ (bits - 1)) as Hhalf.
  { rewrite <- Z.pow_succ_r by lia. f_equal. lia. }
  change (2 ^ 31) with 2147483648 in Hv. change (2 ^ 32) with 4294967296 in Hpow.
  rewrite Zplus_mod_idemp_l. rewrite Z.mod_small; nia.
Qed.

(** X3. On a host whose [long] has at least 32 bits, [toulong] and
    [tolong] have a result exactly when the four bytes lie inside the
    object.  With [v] the value of the four bytes, most significant
    first (65536 times [toushort] of the first two plus [toushort] of
    the last two): when the first byte is below 128 both return [v];
    when it is 128 or more, [p[0] << 24] is a negative [int], [tolong]
    returns [v - 2^32], and [toulong] returns [v] only where [long] has
    32 bits: with a wider [long] it returns [v + 2^bits - 2^32]. *)
Theorem toulong_big_endian long_bits m p :
  32 <= long_bits ->
  (forall b0 b1 b2 b3,
     rd m p = Some b0 -> rd m (p + 1) = Some b1 ->
     rd m (p + 2) = Some b2 -> rd m (p + 3) = Some b3 ->
     toushort m p = Some (256 * b0 + b1) /\
     toushort m (p + 2) = Some (256 * b2 + b3) /\
     toulong long_bits m p
     = Some (16777216 * b0 + 65536 * b1 + 256 * b2 + b3 +
             (if b0 <? 128 then 0 else 2 ^ long_bits - 2 ^ 32)) /\
     tolong long_bits m p
     = Some (16777216 * b0 + 65536 * b1 + 256 * b2 + b3 -
             (if b0 <? 128 then 0 else 2 ^ 32))) /\
  (is_Some (toulong long_bits m p) <-> 0 <= p /\ p + 4 <= Z.of_nat (length m)) /\
  (is_Some (tolong long_bits m p) <-> 0 <= p /\ p + 4 <= Z.of_nat (length m)).
Proof.
  intros Hbits.
  assert (forall b0 b1 b2 b3,
     rd m p = Some b0 -> rd m (p + 1) = Some b1 ->
     rd m (p + 2) = Some b2 -> rd m (p + 3) = Some b3 ->
     toulong long_bits m p
     = Some (ULONG long_bits (16777216 * (if b0 <? 128 then b0 else b0 - 256) +
                              65536 * b1 + 256 * b2 + b3))) as Hint.
  { intros b0 b1 b2 b3 H0 H1 H2 H3. unfold toulong.
    rewrite H0, H1, H2, H3. simpl.
    apply rd_range in H0, H1, H2, H3.
    by rewrite INT_shiftl_24, four_bytes. }
  assert (is_Some (toulong long_bits m p) <->
          0 <= p /\ p + 4 <= Z.of_nat (length m)) as Hdefined.
  { unfold toulong.
    pose proof (rd_None m p) as N0. pose proof (rd_None m (p + 1)) as N1.
    pose proof (rd_None m (p + 2)) as N2. pose proof (rd_None m (p + 3)) as N3.
    destruct (rd m p), (rd m (p + 1)), (rd m (p + 2)), (rd m (p + 3)); simpl;
      (split; [intros [v Hv]; try done|intros Hin; try by eexists]);
      try (assert (~ (p < 0 \/ Z.of_nat (length m) <= p))
             by (rewrite <- N0; congruence));
      try (assert (~ (p + 3 < 0 \/ Z.of_nat (length m) <= p + 3))
             by (rewrite <- N3; congruence));
      try lia;
      try (assert (p < 0 \/ Z.of_nat (length m) <= p) by (by apply N0); lia);
      try (assert (p + 1 < 0 \/ Z.of_nat (length m) <= p + 1) by (by apply N1); lia);
      try (assert (p + 2 < 0 \/ Z.of_nat (length m) <= p + 2) by (by apply N2); lia);
      try (assert (p + 3 < 0 \/ Z.of_nat (length m) <= p + 3) by (by apply N3); lia). }
  split; [|split; [done|]].
  - intros b0 b1 b2 b3 H0 H1 H2 H3.
    split; [by apply toushort_value|].
    split; [apply toushort_value; [done|]; by replace (p + 2 + 1) with (p + 3) by lia|].
    unfold tolong. rewrite (Hint b0 b1 b2 b3) by done. simpl.
    apply rd_range in H0, H1, H2, H3.
    change (2 ^ 32) with 4294967296.
    destruct (Z.ltb_spec b0 128).
    + rewrite LONG_ULONG_int by (done || (change (2 ^ 31) with 2147483648; lia)).
      rewrite ULONG_int by (done || (change (2 ^ 31) with 2147483648; lia)).
      destruct (Z.ltb_spec (16777216 * b0 + 65536 * b1 + 256 * b2 + b3) 0); [lia|].
      split; f_equal; lia.
    + rewrite LONG_ULONG_int by (done || (change (2 ^ 31) with 2147483648; lia)).
      rewrite ULONG_int by (done || (change (2 ^ 31) with 2147483648; lia)).
      destruct (Z.ltb_spec (16777216 * (b0 - 256) + 65536 * b1 + 256 * b2 + b3) 0);
        [|lia].
      split; f_equal; lia.
  - unfold tolong. rewrite fmap_is_Some. done.
Qed.

Lemma toulong_big_endian_witness :
  toulong 64 (Sample.words [32768; 1]) 0 = Some 18446744071562067969 /\
  toulong 32 (Sample.words [32768; 1]) 0 = Some 2147483649 /\
  tolong 64 (Sample.words [32768; 1]) 0 = Some (-2147483647) /\
  toulong 64 (Sample.words [1; 515]) 0 = Some 66051.
Proof.
  destruct (toulong_big_endian 64 (Sample.words [32768; 1]) 0) as (Hwide & _); [lia|].
  destruct (toulong_big_endian 32 (Sample.words [32768; 1]) 0) as (Hlong & _); [lia|].
  destruct (toulong_big_endian 64 (Sample.words [1; 515]) 0) as (Hlow & _); [lia|].
  destruct (Hwide 128 0 0 1) as (_ & _ & Hu & Hs); [reflexivity..|].
  destruct (Hlong 128 0 0 1) as (_ & _ & Hu32 & _); [reflexivity..|].
  destruct (Hlow 0 1 2 3) as (_ & _ & Hu' & _); [reflexivity..|].
  repeat split; assumption.
Defined.

(** X4. The scanline words are loaded as [CARD16]s of the host, while
    the tables are read by the byte decoder: on a host that stores the
    most significant byte first a load is what [toushort] decodes from
    the same two bytes; on a host that stores the least significant byte
    first it is that value with its bytes exchanged, and equals it
    exactly when the two bytes are equal. *)
Theorem word_at_byte_order obj k :
  word_at BigEndian obj k = toushort obj (2 * k) /\
  (forall v, toushort obj (2 * k) = Some v ->
     word_at LittleEndian obj k = Some (256 * (v mod 256) + v / 256) /\
     (word_at LittleEndian obj k = Some v <-> v / 256 = v mod 256)).
Proof.
  split; [apply word_at_big_endian|].
  intros v Hv. unfold toushort in Hv. unfold word_at.
  destruct (rd obj (2 * k)) as [b0|] eqn:H0; [|done].
  destruct (rd obj (2 * k + 1)) as [b1|] eqn:H1; [|done].
  cbn [mbind option_bind] in *.
  pose proof (rd_range _ _ _ H0). pose proof (rd_range _ _ _ H1).
  injection Hv as <-. cbn [load16].
  rewrite !lor_shiftl_add by (change (2 ^ 8) with 256; lia).
  change (2 ^ 8) with 256. unfold CARD16. rewrite (Z.mod_small (b0 * 256 + b1)) by lia.
  assert ((b0 * 256 + b1) / 256 = b0) as -> by (symmetry; apply Z.div_unique with b1; lia).
  assert ((b0 * 256 + b1) mod 256 = b1) as -> by (symmetry; apply Z.mod_unique with b0; lia).
  split; [f_equal; lia|]. split; [intros [= ?]; lia|intros ->; f_equal; lia].
Qed.

(** ** The header *)

(** Twice the product of two [short]s leaves the range of [int] for one
    pair of values only. *)
Lemma product_overflows (a b : Z) :
  -32768 <= a < 32768 -> -32768 <= b < 32768 ->
  (2 ^ 31 <= Z.shiftl (a * b) 1 <-> a = -32768 /\ b = -32768).
Proof.
  intros Ha Hb. rewrite Z.shiftl_mul_pow2 by lia.
  change (2 ^ 31) with 2147483648. change (2 ^ 1) with 2.
  split; [|intros [-> ->]; lia].
  intros Hbig.
  destruct (Z.le_gt_cases 0 a), (Z.le_gt_cases 0 b); [nia|nia|nia|].
  assert ((a + 32768) * (- b) + 32768 * (b + 32768) <= 0) by nia.
  assert (0 <= (a + 32768) * (- b)) by nia.
  assert (0 <= 32768 * (b + 32768)) by nia.
  split; nia.
Qed.

(** X5. [FontInfo] and [FontDump] decode the 26 bytes of the header
    before anything else: on a resource shorter than that they have no
    result (a read outside the resource), [FontDump] as soon as its
    arguments pass its first test.  On a resource of 26 bytes or more
    the fields are decoded, first and last character as unsigned and the
    others as signed values, and the address of the location table is
    computed, unless the row words and the rectangle height are both
    -32768, for which [( rw * ht ) << 1] leaves the range of [int]. *)
Theorem header_decoding fp :
  ((length (fr_bytes fp) < 26)%nat ->
   decode_header (fr_bytes fp) = None /\
   (forall env ret, FontInfo env fp ret = None) /\
   (forall env name style size,
      size <> 0 -> FontDump env (Some fp) (Some name) style size = None)) /\
  ((26 <= length (fr_bytes fp))%nat ->
   exists rows height,
     toshort (fr_bytes fp) Hdr.ftRowWords = Some rows /\
     toshort (fr_bytes fp) Hdr.ftFRectHeight = Some height /\
     (decode_header (fr_bytes fp) = None <-> rows = -32768 /\ height = -32768) /\
     forall L, decode_header (fr_bytes fp) = Some L ->
       toushort (fr_bytes fp) Hdr.ftFirstChar = Some (fg L) /\
       toushort (fr_bytes fp) Hdr.ftLastChar = Some (lg L) /\
       toshort (fr_bytes fp) Hdr.ftKernMax = Some (mk L) /\
       toshort (fr_bytes fp) Hdr.ftFRectWidth = Some (wd L) /\
       ht L = height /\ rw L = rows).
Proof.
  split.
  - intros Hshort.
    assert (decode_header (fr_bytes fp) = None) as Hnone.
    { unfold decode_header.
      assert (toshort (fr_bytes fp) Hdr.ftRowWords = None) as Hrows.
      { unfold toshort. apply fmap_None. apply toushort_None.
        right. unfold Hdr.ftRowWords. lia. }
      destruct (toushort _ Hdr.ftFirstChar); [|done].
      destruct (toushort _ Hdr.ftLastChar); [|done]. step.
      destruct (toshort _ Hdr.ftKernMax); [|done].
      destruct (toshort _ Hdr.ftFRectWidth); [|done].
      destruct (toshort _ Hdr.ftFRectHeight); [|done].
      destruct (toushort _ Hdr.ftOWTLoc); [|done]. step.
      by rewrite Hrows. }
    split; [done|]. split.
    + intros env ret. unfold FontInfo. by rewrite Hnone.
    + intros env name style size Hsize. unfold FontDump.
      destruct (Z.eqb_spec size 0); [done|]. by rewrite Hnone.
  - intros Hlong.
    assert (forall p, 0 <= p <= 24 -> is_Some (toushort (fr_bytes fp) p)) as Hword.
    { intros p Hp. apply toushort_Some; lia. }
    assert (forall p, 0 <= p <= 24 -> is_Some (toshort (fr_bytes fp) p)) as Hshort.
    { intros p Hp. apply toshort_Some; lia. }
    unfold decode_header.
    destruct (Hword Hdr.ftFirstChar) as [a ->]; [unfold Hdr.ftFirstChar; lia|].
    destruct (Hword Hdr.ftLastChar) as [b ->]; [unfold Hdr.ftLastChar; lia|].
    destruct (Hshort Hdr.ftKernMax) as [k ->]; [unfold Hdr.ftKernMax; lia|].
    destruct (Hshort Hdr.ftFRectWidth) as [w ->]; [unfold Hdr.ftFRectWidth; lia|].
    destruct (Hshort Hdr.ftFRectHeight) as [h Hh]; [unfold Hdr.ftFRectHeight; lia|].
    destruct (Hword Hdr.ftOWTLoc) as [t ->]; [unfold Hdr.ftOWTLoc; lia|].
    destruct (Hshort Hdr.ftRowWords) as [r Hr]; [unfold Hdr.ftRowWords; lia|].
    rewrite Hh, Hr. step.
    exists r, h. split; [done|]. split; [done|].
    pose proof (product_overflows r h (toshort_range _ _ _ Hr) (toshort_range _ _ _ Hh))
      as Hover.
    destruct (Z.leb_spec (2 ^ 31) (Z.shiftl (r * h) 1)) as [Hbig|Hfits].
    + split; [split; [intros _; by apply Hover|done]|done].
    + split; [split; [done|intros Hboth; apply Hover in Hboth; lia]|].
      intros L [= <-]. done.
Qed.

(** ** More on the style namer *)

Lemma FontStyleName_bits sname style :
  FontStyleName sname style
  = name_of_bits (Z.testbit style 0) (Z.testbit style 1) (Z.testbit style 2)
      (Z.testbit style 3) (Z.testbit style 4) (Z.testbit style 5) (Z.testbit style 6).
Proof.
  pose proof (fun k H => land_pow2_testbit style k H) as Hbit.
  pose proof (Hbit 0 ltac:(lia)) as H0. pose proof (Hbit 1 ltac:(lia)) as H1.
  pose proof (Hbit 2 ltac:(lia)) as H2. pose proof (Hbit 3 ltac:(lia)) as H3.
  pose proof (Hbit 4 ltac:(lia)) as H4. pose proof (Hbit 5 ltac:(lia)) as H5.
  pose proof (Hbit 6 ltac:(lia)) as H6. clear Hbit.
  change (2 ^ 0) with 1 in H0. change (2 ^ 1) with 2 in H1.
  change (2 ^ 2) with 4 in H2. change (2 ^ 3) with 8 in H3.
  change (2 ^ 4) with 16 in H4. change (2 ^ 5) with 32 in H5.
  change (2 ^ 6) with 64 in H6.
  unfold FontStyleName. rewrite H0, H1, H2, H3, H4, H5, H6.
  destruct (Z.testbit style 0), (Z.testbit style 1), (Z.testbit style 2),
    (Z.testbit style 3), (Z.testbit style 4), (Z.testbit style 5),
    (Z.testbit style 6); reflexivity.
Qed.

Lemma testbit_land_127 style k :
  0 <= k < 7 -> Z.testbit (Z.land style 127) k = Z.testbit style k.
Proof.
  intros Hk. rewrite Z.land_spec. change 127 with (Z.ones 7).
  rewrite Z.ones_spec_low by lia. apply andb_true_r.
Qed.

Lemma land_127_range style : 0 <= Z.land style 127 < 128.
Proof.
  change 127 with (Z.ones 7). rewrite Z.land_ones by lia.
  change (2 ^ 7) with 128. apply Z.mod_pos_bound. lia.
Qed.

Lemma FontStyleName_low_bits sname style :
  FontStyleName sname style = FontStyleName sname (Z.land style 127).
Proof. rewrite !FontStyleName_bits, !testbit_land_127 by lia. done. Qed.

Lemma style_of_name_below_128 style :
  0 <= style < 128 -> style_of_name (FontStyleName "" style) = Some style.
Proof.
  intros Hstyle.
  assert (forallb (fun m => bool_decide (style_of_name (FontStyleName "" m) = Some m))
            (seqZ 0 128) = true) as Hall by (vm_compute; reflexivity).
  rewrite forallb_forall in Hall.
  specialize (Hall style). rewrite bool_decide_eq_true in Hall. apply Hall.
  apply list_elem_of_In, elem_of_seqZ. lia.
Qed.

(** X6. The name [FontStyleName] returns depends on the seven low bits
    of the style only, and determines them: the style below 128 is read
    back from the name, so two styles get the same name (and two fonts
    of a family and a size the same file) exactly when they agree on
    those bits. *)
Theorem FontStyleName_style_round_trip :
  (forall sname style,
     FontStyleName sname style = FontStyleName sname (Z.land style 127)) /\
  (forall sname style,
     style_of_name (FontStyleName sname style) = Some (Z.land style 127)) /\
  (forall s1 s2 a b,
     FontStyleName s1 a = FontStyleName s2 b <-> Z.land a 127 = Z.land b 127).
Proof.
  assert (forall sname style,
     style_of_name (FontStyleName sname style) = Some (Z.land style 127)) as Hback.
  { intros sname style. rewrite FontStyleName_low_bits.
    change (FontStyleName sname (Z.land style 127))
      with (FontStyleName "" (Z.land style 127)).
    apply style_of_name_below_128, land_127_range. }
  split; [apply FontStyleName_low_bits|]. split; [done|].
  intros s1 s2 a b. split.
  - intros Heq. pose proof (Hback s1 a) as Ha. rewrite Heq, Hback in Ha. congruence.
  - intros Heq. rewrite (FontStyleName_low_bits s1 a), (FontStyleName_low_bits s2 b), Heq.
    done.
Qed.

(** The length of the name of each of the 128 styles. *)
Lemma FontStyleName_length_below_128 (P : nat -> Z -> bool) sname style :
  forallb (fun m => P (String.length (FontStyleName "" m)) m) (seqZ 0 128) = true ->
  P (String.length (FontStyleName sname style)) (Z.land style 127) = true.
Proof.
  intros Hall. rewrite FontStyleName_low_bits.
  change (FontStyleName sname (Z.land style 127))
    with (FontStyleName "" (Z.land style 127)).
  pose proof (land_127_range style) as Hrange.
  rewrite forallb_forall in Hall. apply Hall.
  apply list_elem_of_In, elem_of_seqZ. lia.
Qed.

Lemma FontStyleName_length_cases sname style :
  (String.length (FontStyleName sname style) <= 53)%nat /\
  (String.length (FontStyleName sname style) = 0%nat <-> Z.land style 127 = 0).
Proof.
  pose proof (FontStyleName_length_below_128
    (fun n m => (n <=? 53)%nat && bool_decide (n = 0%nat <-> m = 0)) sname style) as H.
  cbv beta in H. rewrite andb_true_iff, bool_decide_eq_true, Nat.leb_le in H.
  apply H. vm_compute. reflexivity.
Qed.

(** X7. A style name has at most 53 characters, exactly 53 when the
    seven styles are all set and none when none is: with its NUL it
    always fits the 128 characters of the static buffer. *)
Theorem FontStyleName_length sname style :
  (String.length (FontStyleName sname style) <= 53)%nat /\
  (String.length (FontStyleName sname style) = 53%nat <-> Z.land style 127 = 127) /\
  (String.length (FontStyleName sname style) = 0%nat <-> Z.land style 127 = 0).
Proof.
  pose proof (FontStyleName_length_below_128
    (fun n m => (n <=? 53)%nat && bool_decide (n = 53%nat <-> m = 127)
                && bool_decide (n = 0%nat <-> m = 0)) sname style) as H.
  cbv beta in H. rewrite !andb_true_iff, !bool_decide_eq_true, Nat.leb_le in H.
  destruct H as [[? ?] ?]; [|done]. vm_compute. reflexivity.
Qed.

(** ** Strings in memory *)

Lemma strlen_chars cs rest :
  Forall (fun c => Ascii.eqb c zero = false) cs ->
  Buffers.strlen (cs ++ zero :: rest) = Some (length cs).
Proof.
  induction 1 as [|c cs Hc _ IH]; simpl; [done|].
  by rewrite Hc, IH.
Qed.

Lemma strlen_is_Some buf k :
  buf !! k = Some zero -> is_Some (Buffers.strlen buf).
Proof.
  revert k. induction buf as [|c buf IH]; intros k Hk; [done|].
  simpl. destruct (Ascii.eqb c zero) eqn:Hc; [eauto|].
  destruct k as [|k]; simpl in Hk.
  - injection Hk as ->. done.
  - destruct (IH k Hk) as [n ->]. simpl. eauto.
Qed.

Lemma list_ascii_of_string_app s1 s2 :
  list_ascii_of_string (s1 +:+ s2) = list_ascii_of_string s1 ++ list_ascii_of_string s2.
Proof.
  induction s1 as [|c s1 IH]; [done|].
  change (String c s1 +:+ s2) with (String c (s1 +:+ s2)). simpl. by rewrite IH.
Qed.

Lemma length_list_ascii_of_string s :
  length (list_ascii_of_string s) = String.length s.
Proof. induction s; simpl; congruence. Qed.

(** One test of the style namer keeps the buffer well formed, and the
    string it holds grows by the fragment unless the test fails. *)
Lemma strcat_holds (skip : bool) buf s bound frag :
  buffer_holds buf s bound -> no_nul frag -> (bound + String.length frag < 127)%nat ->
  exists buf',
    (if skip then Some buf else Buffers.strcat buf frag) = Some buf' /\
    buffer_holds buf' (if skip then s else strcat s frag) (bound + String.length frag).
Proof.
  intros (Hlen & Hlast & Hbound & Hs & rest & ->) Hfrag Hfit.
  destruct skip.
  { eexists. split; [done|]. repeat split; eauto. lia. }
  unfold Buffers.strcat. rewrite strlen_chars by done. step.
  rewrite length_app, length_list_ascii_of_string in Hlen. simpl in Hlen.
  rewrite !length_app, !length_list_ascii_of_string. simpl.
  destruct (Nat.ltb_spec
    (String.length s + S (length rest))
    (String.length s + (String.length frag + 1))); [lia|].
  eexists. split; [done|].
  assert (take (String.length s) (list_ascii_of_string s ++ zero :: rest)
          = list_ascii_of_string s) as ->.
  { rewrite take_app_length'; [done|symmetry; apply length_list_ascii_of_string]. }
  assert (drop (String.length s + (String.length frag + 1))
            (list_ascii_of_string s ++ zero :: rest)
          = drop (String.length frag) rest) as ->.
  { rewrite <- drop_drop, drop_app_length' by (symmetry; apply length_list_ascii_of_string).
    replace (String.length frag + 1)%nat with (S (String.length frag)) by lia. done. }
  unfold strcat.
  repeat split.
  - rewrite !length_app, !length_list_ascii_of_string, length_drop. simpl. lia.
  - rewrite lookup_app_r by (rewrite length_list_ascii_of_string; lia).
    rewrite length_list_ascii_of_string.
    rewrite lookup_app_r by (rewrite length_app, length_list_ascii_of_string; simpl; lia).
    rewrite length_app, length_list_ascii_of_string. simpl.
    rewrite lookup_drop.
    rewrite lookup_app_r in Hlast by (rewrite length_list_ascii_of_string; lia).
    rewrite length_list_ascii_of_string in Hlast.
    replace (127 - String.length s)%nat with (S (126 - String.length s)) in Hlast by lia.
    simpl in Hlast. rewrite <- Hlast. f_equal. lia.
  - assert (String.length (s +:+ frag) = (String.length s + String.length frag)%nat) as ->.
    { rewrite <- !length_list_ascii_of_string, list_ascii_of_string_app.
      apply length_app. }
    lia.
  - unfold no_nul. rewrite list_ascii_of_string_app. by apply Forall_app.
  - exists (drop (String.length frag) rest).
    rewrite list_ascii_of_string_app, <- !app_assoc. done.
Qed.

Lemma string_of_list_ascii_take_chars s rest :
  string_of_list_ascii (take (String.length s) (list_ascii_of_string s ++ rest)) = s.
Proof.
  rewrite take_app_length' by (symmetry; apply length_list_ascii_of_string).
  apply string_of_list_ascii_of_string.
Qed.

Lemma style_tests_zero style k :
  Z.land style 127 = 0 -> 0 <= k < 7 -> (Z.land style (2 ^ k) =? 0) = true.
Proof.
  intros Hzero Hk. rewrite land_pow2_testbit by lia.
  rewrite <- testbit_land_127, Hzero, Z.bits_0 by lia. done.
Qed.

(** The style namer on its buffer: the buffer it leaves, and the block
    it returns with the size asked for and the characters written. *)
Lemma FontStyleName_block sname style :
  length sname = 128%nat -> sname !! 127%nat = Some zero ->
  exists sname' block,
    Buffers.FontStyleName sname style = Some (sname', block) /\
    Buffers.blk_string block = FontStyleName "" style /\
    length sname' = 128%nat /\ sname' !! 127%nat = Some zero /\
    Buffers.blk_written block = S (String.length (FontStyleName "" style)) /\
    (Z.land style 127 <> 0 ->
     Buffers.blk_written block = (Buffers.blk_size block + 2)%nat) /\
    (Z.land style 127 = 0 ->
     Buffers.blk_written block = 1%nat /\
     Buffers.strlen (drop 1 sname) = Some (Buffers.blk_size block)).
Proof.
  intros Hlen Hlast.
  destruct sname as [|c0 rest0]; [done|].
  assert (buffer_holds (zero :: rest0) "" 0) as H0.
  { repeat split; [done|done|done|constructor|by exists rest0]. }
  destruct (strcat_holds (Z.land style 1 =? 0) _ _ _ "Bold" H0)
    as (b1 & E1 & H1); [by repeat constructor|simpl; lia|].
  destruct (strcat_holds (Z.land style 2 =? 0) _ _ _ "Italic" H1)
    as (b2 & E2 & H2); [by repeat constructor|simpl; lia|].
  destruct (strcat_holds (Z.land style 4 =? 0) _ _ _ "Underlined" H2)
    as (b3 & E3 & H3); [by repeat constructor|simpl; lia|].
  destruct (strcat_holds (Z.land style 8 =? 0) _ _ _ "Outlined" H3)
    as (b4 & E4 & H4); [by repeat constructor|simpl; lia|].
  destruct (strcat_holds (Z.land style 16 =? 0) _ _ _ "Shadowed" H4)
    as (b5 & E5 & H5); [by repeat constructor|simpl; lia|].
  destruct (strcat_holds (Z.land style 32 =? 0) _ _ _ "Condensed" H5)
    as (b6 & E6 & H6); [by repeat constructor|simpl; lia|].
  destruct (strcat_holds (Z.land style 64 =? 0) _ _ _ "Extended" H6)
    as (b7 & E7 & H7); [by repeat constructor|simpl; lia|].
  change (buffer_holds b7 (FontStyleName "" style) 53) in H7.
  unfold Buffers.FontStyleName, Buffers.strcpy_malloc. step.
  rewrite E1. step. rewrite E2. step.
  rewrite E3. step. rewrite E4. step.
  rewrite E5. step. rewrite E6. step.
  rewrite E7. step.
  assert (Z.land style 127 = 0 -> b7 = zero :: rest0) as Hsame.
  { intros Hzero.
    pose proof (fun k => style_tests_zero style k Hzero) as Htest.
    pose proof (Htest 0 ltac:(lia)) as T0. pose proof (Htest 1 ltac:(lia)) as T1.
    pose proof (Htest 2 ltac:(lia)) as T2. pose proof (Htest 3 ltac:(lia)) as T3.
    pose proof (Htest 4 ltac:(lia)) as T4. pose proof (Htest 5 ltac:(lia)) as T5.
    pose proof (Htest 6 ltac:(lia)) as T6.
    change (2 ^ 0) with 1 in T0. change (2 ^ 1) with 2 in T1.
    change (2 ^ 2) with 4 in T2. change (2 ^ 3) with 8 in T3.
    change (2 ^ 4) with 16 in T4. change (2 ^ 5) with 32 in T5.
    change (2 ^ 6) with 64 in T6.
    rewrite T0 in E1. rewrite T1 in E2. rewrite T2 in E3. rewrite T3 in E4.
    rewrite T4 in E5. rewrite T5 in E6. rewrite T6 in E7. congruence. }
  clear E1 E2 E3 E4 E5 E6 E7 H0 H1 H2 H3 H4 H5 H6.
  destruct H7 as (Hlen7 & Hlast7 & _ & Hnn & rest & ->).
  rewrite (strlen_chars _ rest Hnn), length_list_ascii_of_string.
  pose proof (FontStyleName_length_cases "" style) as (_ & Hempty).
  destruct (Z.eq_dec (Z.land style 127) 0) as [Hzero|Hlive].
  - specialize (Hsame Hzero).
    apply Hempty in Hzero as Hnone.
    destruct (FontStyleName "" style) as [|c name] eqn:Hname; [|done].
    simpl in Hsame. injection Hsame as ->. simpl.
    destruct (strlen_is_Some rest0 126) as [size Hsize]; [done|].
    rewrite drop_0, Hsize. step.
    do 2 eexists. split; [done|]. cbn. repeat split; try done.
  - assert (String.length (FontStyleName "" style) <> 0%nat) as Hname by tauto.
    destruct (FontStyleName "" style) as [|c name] eqn:Hstr; [done|].
    unfold no_nul in Hnn. cbn [list_ascii_of_string] in Hnn.
    apply Forall_cons in Hnn as [_ Hnn].
    simpl. rewrite drop_0, (strlen_chars _ rest Hnn), length_list_ascii_of_string.
    step.
    do 2 eexists. split; [done|]. cbn.
    split.
    { f_equal. apply string_of_list_ascii_take_chars. }
    repeat split; try done. lia.
Qed.

(** X8. On its static buffer of 128 characters (whose last character
    is a NUL, as it is at the start and stays), [FontStyleName] never
    writes outside the buffer and returns the style name; but the block
    it returns was asked from [malloc] with [strlen ( sname + 1 )]: for
    every style with one of the seven bits set, [strcpy] writes two
    characters more than the block has; for the other styles it writes
    the NUL alone, into a block whose size is the length of what the
    previous call left behind the first character of the buffer (none
    at the start). *)
Theorem FontStyleName_block_too_short sname style :
  length sname = 128%nat -> sname !! 127%nat = Some zero ->
  exists sname' block,
    Buffers.FontStyleName sname style = Some (sname', block) /\
    Buffers.blk_string block = FontStyleName "" style /\
    length sname' = 128%nat /\ sname' !! 127%nat = Some zero /\
    Buffers.blk_written block = S (String.length (FontStyleName "" style)) /\
    (Z.land style 127 <> 0 ->
     Buffers.blk_written block = (Buffers.blk_size block + 2)%nat) /\
    (Z.land style 127 = 0 ->
     Buffers.blk_written block = 1%nat /\
     Buffers.strlen (drop 1 sname) = Some (Buffers.blk_size block)).
Proof. apply FontStyleName_block. Qed.

Lemma FontStyleName_block_too_short_witness :
  exists sname' block,
    Buffers.FontStyleName (replicate 128 zero) 1 = Some (sname', block) /\
    Buffers.blk_string block = "Bold" /\
    Buffers.blk_size block = 3%nat /\ Buffers.blk_written block = 5%nat.
Proof.
  destruct (FontStyleName_block_too_short (replicate 128 zero) 1)
    as (sname' & block & Hrun & Hname & _ & _ & Hwritten & Hshort & _);
    [reflexivity|reflexivity|].
  exists sname', block. split; [done|]. split; [done|].
  specialize (Hshort ltac:(discriminate)).
  change (S (String.length (FontStyleName "" 1))) with 5%nat in Hwritten.
  split; [lia|done].
Defined.

Lemma strlen_Some_inv buf n :
  Buffers.strlen buf = Some n ->
  Forall (fun c => Ascii.eqb c zero = false) (take n buf) /\ buf !! n = Some zero.
Proof.
  revert n. induction buf as [|c buf IH]; intros n Hn; [done|].
  simpl in Hn. destruct (Ascii.eqb c zero) eqn:Hc.
  - injection Hn as <-. apply Ascii.eqb_eq in Hc as ->. split; [constructor|done].
  - destruct (Buffers.strlen buf) as [k|]; [|done]. injection Hn as <-.
    destruct (IH k eq_refl) as [Hchars Hnul]. split; [by constructor|done].
Qed.

Lemma strlen_None buf :
  Buffers.strlen buf = None <-> Forall (fun c => Ascii.eqb c zero = false) buf.
Proof.
  induction buf as [|c buf IH]; simpl; [split; [constructor|done]|].
  destruct (Ascii.eqb c zero) eqn:Hc.
  - split; [done|]. intros [H _]%Forall_cons. congruence.
  - rewrite fmap_None, IH. split; [by constructor|by intros [_ ?]%Forall_cons].
Qed.

(** X9. [strdup] asks [malloc] for exactly the characters [strcpy]
    writes, the string and its NUL; the string it copies has no NUL and
    is what its argument holds before the first NUL.  It has no result
    exactly when its argument holds no NUL at all. *)
Theorem strdup_block_exact (s : list ascii) :
  (forall block,
     Buffers.strdup s = Some block ->
     Buffers.blk_written block = Buffers.blk_size block /\
     Buffers.blk_size block = S (String.length (Buffers.blk_string block)) /\
     no_nul (Buffers.blk_string block) /\
     s = list_ascii_of_string (Buffers.blk_string block) ++
         zero :: drop (Buffers.blk_size block) s) /\
  (Buffers.strdup s = None <-> Forall (fun c => Ascii.eqb c zero = false) s).
Proof.
  unfold Buffers.strdup, Buffers.strcpy_malloc. split.
  - intros block Hrun.
    destruct (Buffers.strlen s) as [n|] eqn:Hn; [|done].
    step in Hrun. injection Hrun as <-. cbn.
    destruct (strlen_Some_inv _ _ Hn) as [Hchars Hnul].
    apply lookup_lt_Some in Hnul as Hlt.
    rewrite <- length_list_ascii_of_string, list_ascii_of_string_of_list_ascii.
    rewrite length_take, Nat.min_l by lia.
    split; [lia|]. split; [lia|]. split.
    + unfold no_nul. by rewrite list_ascii_of_string_of_list_ascii.
    + replace (n + 1)%nat with (S n) by lia.
      by rewrite take_drop_middle.
  - rewrite <- strlen_None. destruct (Buffers.strlen s); [|done].
    step. split; done.
Qed.

(** ** Calls of the emitter that return *)

(** One test of the style namer, on any buffer: when the test and its
    [strcat] have a result, the string the buffer holds has grown by the
    fragment unless the test failed. *)
Lemma strcat_chars (skip : bool) buf s frag buf' :
  no_nul s -> (exists rest, buf = list_ascii_of_string s ++ zero :: rest) ->
  no_nul frag ->
  (if skip then Some buf else Buffers.strcat buf frag) = Some buf' ->
  no_nul (if skip then s else strcat s frag) /\
  exists rest, buf' = list_ascii_of_string (if skip then s else strcat s frag)
                      ++ zero :: rest.
Proof.
  intros Hs (rest & ->) Hfrag Hrun. destruct skip.
  { injection Hrun as <-. eauto. }
  unfold Buffers.strcat in Hrun. rewrite strlen_chars in Hrun by done.
  step in Hrun.
  destruct (_ <? _)%nat; [done|]. injection Hrun as <-.
  split.
  - unfold no_nul, strcat. rewrite list_ascii_of_string_app. by apply Forall_app.
  - rewrite take_app_length. unfold strcat.
    rewrite list_ascii_of_string_app, <- !app_assoc. simpl.
    eexists. by rewrite <- app_assoc.
Qed.

(** Whatever the buffer, the block a call returns holds the style name. *)
Lemma FontStyleName_string sname style sname' block :
  Buffers.FontStyleName sname style = Some (sname', block) ->
  Buffers.blk_string block = FontStyleName "" style.
Proof.
  unfold Buffers.FontStyleName. intros Hrun.
  destruct sname as [|c0 rest0]; [done|]. step in Hrun.
  assert (no_nul "" /\ exists rest, zero :: rest0 = list_ascii_of_string "" ++ zero :: rest)
    as [N0 H0] by (split; [constructor|by exists rest0]).
  destruct (if Z.land style 1 =? 0 then _ else _) as [b1|] eqn:E1; [|done].
  step in Hrun.
  destruct (strcat_chars _ _ _ "Bold" _ N0 H0 ltac:(by repeat constructor) E1)
    as [N1 H1].
  destruct (if Z.land style 2 =? 0 then _ else _) as [b2|] eqn:E2; [|done].
  step in Hrun.
  destruct (strcat_chars _ _ _ "Italic" _ N1 H1 ltac:(by repeat constructor) E2)
    as [N2 H2].
  destruct (if Z.land style 4 =? 0 then _ else _) as [b3|] eqn:E3; [|done].
  step in Hrun.
  destruct (strcat_chars _ _ _ "Underlined" _ N2 H2 ltac:(by repeat constructor) E3)
    as [N3 H3].
  destruct (if Z.land style 8 =? 0 then _ else _) as [b4|] eqn:E4; [|done].
  step in Hrun.
  destruct (strcat_chars _ _ _ "Outlined" _ N3 H3 ltac:(by repeat constructor) E4)
    as [N4 H4].
  destruct (if Z.land style 16 =? 0 then _ else _) as [b5|] eqn:E5; [|done].
  step in Hrun.
  destruct (strcat_chars _ _ _ "Shadowed" _ N4 H4 ltac:(by repeat constructor) E5)
    as [N5 H5].
  destruct (if Z.land style 32 =? 0 then _ else _) as [b6|] eqn:E6; [|done].
  step in Hrun.
  destruct (strcat_chars _ _ _ "Condensed" _ N5 H5 ltac:(by repeat constructor) E6)
    as [N6 H6].
  destruct (if Z.land style 64 =? 0 then _ else _) as [b7|] eqn:E7; [|done].
  step in Hrun.
  destruct (strcat_chars _ _ _ "Extended" _ N6 H6 ltac:(by repeat constructor) E7)
    as [N7 H7].
  change (no_nul (FontStyleName "" style)) in N7.
  change (exists rest, b7 = list_ascii_of_string (FontStyleName "" style) ++ zero :: rest)
    in H7.
  clear - N7 H7 Hrun. destruct H7 as (rest & ->).
  destruct (Buffers.strlen (drop 1 _)) as [size|]; [|done]. step in Hrun.
  unfold Buffers.strcpy_malloc in Hrun.
  rewrite (strlen_chars _ rest N7), length_list_ascii_of_string in Hrun.
  step in Hrun. injection Hrun as <- <-. cbn.
  apply string_of_list_ascii_take_chars.
Qed.

Lemma style_name_string sname style sname' s :
  style_name sname style = Some (sname', s) -> s = FontStyleName "" style.
Proof.
  unfold style_name.
  destruct (Buffers.FontStyleName sname style) as [[b block]|] eqn:Hrun; [|done].
  step. destruct (Buffers.in_block block); [|done].
  intros [= <- <-]. by eapply FontStyleName_string.
Qed.



Lemma output_name_eq env name style size :
  font_id name (FontStyleName "" style) size +:+ ".bdf"
  = output_name env name style size.
Proof. reflexivity. Qed.

(** What a call of [FontDump] that returns has done. *)
Lemma FontDump_inv env fp name style size r eff :
  FontDump env fp name style size = Some (r, eff) ->
  (r = 1 /\ eff = no_effects /\
   (fp = None \/ name = None \/ size = 0 \/
    exists f L, fp = Some f /\ decode_header (fr_bytes f) = Some L /\ lg L = fg L)) \/
  (exists f n L,
     fp = Some f /\ name = Some n /\ size <> 0 /\
     decode_header (fr_bytes f) = Some L /\ lg L <> fg L /\
     (String.length (output_name env n style size) < 128)%nat /\
     ((r = 0 /\ can_create env (output_name env n style size) = false /\
       eff = {| created := None;
                to_stdout := "";
                to_stderr := progname env +:+ ": can't create output file " +:+
                             dq +:+ output_name env n style size +:+ dq +:+ nl |}) \/
      (r = 1 /\ can_create env (output_name env n style size) = true /\
       exists info ascent descent bp gp out,
         FontInfo env f (indeterminate env) = Some info /\
         toshort (fr_bytes f) Hdr.ftDescent = Some descent /\
         toshort (fr_bytes f) Hdr.ftAscent = Some ascent /\
         scanlines f L = Some bp /\ alloc_raster L = Some gp /\
         for_glyphs (dump_glyph (host_order env) (fr_bytes f) bp L gp) (fg L) (lg L)
           (font_head L (font_id n (FontStyleName "" style) size) size info
              ascent descent) = Some out /\
         eff = {| created := Some (output_name env n style size,
                                   out +:+ "ENDFONT" +:+ nl);
                  to_stdout :=
                    if quiet env then ""
                    else "Dumping " +:+ dec (ret_ng info) +:+ " glyphs to " +:+
                         dq +:+ output_name env n style size +:+ dq +:+ nl;
                  to_stderr := "" |}))).
Proof.
  unfold FontDump. intros Hrun.
  destruct fp as [f|];
    [|injection Hrun as <- <-; left; split; [done|]; split; [done|]; by left].
  destruct name as [n|];
    [|injection Hrun as <- <-; left; split; [done|]; split; [done|]; right; by left].
  destruct (Z.eqb_spec size 0) as [->|Hsize];
    [injection Hrun as <- <-; left; split; [done|]; split; [done|];
     right; right; by left|].
  destruct (decode_header (fr_bytes f)) as [L|] eqn:HL; [|done].
  step in Hrun.
  destruct (Z.eqb_spec (lg L) (fg L)) as [Heq|Hchars].
  { injection Hrun as <- <-. left. split; [done|]. split; [done|].
    do 3 right. eauto. }
  right. exists f, n, L. do 5 (split; [done|]).
  destruct (style_name (sname_static env) style) as [[b1 sn1]|] eqn:E1; [|done].
  step in Hrun. apply style_name_string in E1 as ->.
  rewrite (output_name_eq env) in Hrun.
  destruct (Nat.leb_spec 128 (String.length (output_name env n style size)));
    [done|].
  split; [lia|].
  destruct (can_create env (output_name env n style size)); cbn [negb] in Hrun;
    [|injection Hrun as <- <-; by left].
  right.
  destruct (FontInfo env f (indeterminate env)) as [info|] eqn:Hinfo; [|done].
  step in Hrun.
  destruct (if quiet env then _ else _) as [[b2 sn2]|] eqn:E2; [|done].
  step in Hrun.
  destruct (style_name b2 style) as [[b3 sn3]|] eqn:E3; [|done].
  step in Hrun.
  destruct (toshort (fr_bytes f) Hdr.ftDescent) as [descent|] eqn:Hd; [|done].
  destruct (toshort (fr_bytes f) Hdr.ftAscent) as [ascent|] eqn:Ha; [|done].
  step in Hrun.
  destruct (scanlines f L) as [bp|] eqn:Hbp; [|done]. step in Hrun.
  destruct (alloc_raster L) as [gp|] eqn:Hgp; [|done]. step in Hrun.
  destruct (for_glyphs _ _ _ _) as [out|] eqn:Hloop; [|done]. step in Hrun.
  injection Hrun as <- <-. split; [done|]. split; [done|].
  apply style_name_string in E3 as ->.
  exists info, ascent, descent, bp, gp, out.
  do 5 (split; [done|]). split; [exact Hloop|].
  destruct (quiet env); [reflexivity|].
  apply style_name_string in E2 as ->.
  unfold output_name. rewrite !append_assoc. reflexivity.
Qed.



(** With 65535 as last character code the glyph loops never exit: the
    global pass, and so the emitter once it has created the file, have
    no result. *)
Lemma for_glyphs_never_exits {S : Type} (body : Z -> S -> option S) (fg : Z) (s : S) :
  fg < 65536 -> for_glyphs body fg 65535 s = None.
Proof. intros Hfg. unfold for_glyphs. by apply glyph_loop_never_exits. Qed.

Lemma FontInfo_never_returns env fp L ret :
  decode_header (fr_bytes fp) = Some L ->
  lg L = 65535 -> fg L <> 65535 ->
  FontInfo env fp ret = None.
Proof.
  intros HL Hlg Hfg. pose proof (decode_header_range _ _ HL) as [Hrange _].
  unfold FontInfo. rewrite HL. step.
  destruct (Z.eqb_spec (lg L) (fg L)); [congruence|].
  destruct (scanlines fp L); [|done]. step.
  destruct (alloc_raster L); [|done]. step.
  rewrite Hlg, for_glyphs_never_exits by lia. done.
Qed.

Lemma FontDump_never_returns env fp L name style size :
  decode_header (fr_bytes fp) = Some L ->
  lg L = 65535 -> fg L <> 65535 -> size <> 0 ->
  can_create env (output_name env name style size) = true ->
  FontDump env (Some fp) (Some name) style size = None.
Proof.
  intros HL Hlg Hfg Hsize Hcreate.
  destruct (FontDump env (Some fp) (Some name) style size) as [[r eff]|] eqn:Hrun;
    [|done].
  apply FontDump_inv in Hrun
    as [(_ & _ & [?|[?|[?|(f & L' & [= <-] & HL' & Heq)]]])
       |(f & n & L' & [= <-] & [= <-] & _ & HL' & _ & _ & Hcase)];
    try done; try congruence.
  assert (L' = L) as -> by congruence.
  destruct Hcase as [(_ & Hfail & _)|(_ & _ & info & _ & _ & _ & _ & _ & Hinfo & _)];
    [congruence|].
  by rewrite (FontInfo_never_returns env fp L) in Hinfo.
Qed.





(** The scenario, and the resource without ink, are resources the
    conversion is defined on. *)
Lemma samples_defined :
  dump_defined (Sample.env BigEndian true) (Some (Sample.scenario 0)) (Some "Test") 0 12
  = true /\
  dump_defined (Sample.env LittleEndian true) (Some (Sample.scenario 1001)) (Some "Test")
    128 12 = true /\
  dump_defined (Sample.env BigEndian true) (Some Sample.blank) (Some "Test") 0 12 = true.
Proof. repeat split; vm_compute; reflexivity. Qed.

(** ** Glyph names *)

Lemma hex_value_hex_go u fuel : forall n rest,
  0 <= n < 16 ^ Z.of_nat fuel ->
  exists k : nat, (fuel <> 0%nat -> (1 <= k)%nat) /\
    String.length (hex_go u fuel n rest) = (k + String.length rest)%nat /\
    forall acc, hex_value (hex_go u fuel n rest) acc
                = hex_value rest (acc * 16 ^ Z.of_nat k + n).
Proof.
  induction fuel as [|fuel IH]; intros n rest Hn.
  - exists 0%nat. change (16 ^ Z.of_nat 0) with 1 in Hn.
    repeat split; [done|]. intros acc. simpl. f_equal. lia.
  - cbn [hex_go].
    assert (0 <= n mod 16 < 16) as Hdigit by (apply Z.mod_pos_bound; lia).
    pose proof (Z.div_mod n 16 ltac:(lia)) as Hdm.
    destruct (Z.eqb_spec (n / 16) 0) as [Hlast|Hmore].
    + exists 1%nat. repeat split; [lia|].
      intros acc. cbn [hex_value]. rewrite hex_digit_value_digit by done.
      step. f_equal. change (16 ^ Z.of_nat 1) with 16. lia.
    + destruct (IH (n / 16) (String (hex_digit u (n mod 16)) rest))
        as (k & _ & Hlen & Hval).
      { split; [apply Z.div_pos; lia|]. apply Z.div_lt_upper_bound; [lia|].
        rewrite Nat2Z.inj_succ, Z.pow_succ_r in Hn by lia. lia. }
      exists (S k). split; [lia|]. split; [rewrite Hlen; simpl; lia|].
      intros acc. rewrite Hval. cbn [hex_value].
      rewrite hex_digit_value_digit by done. step. f_equal.
      rewrite Nat2Z.inj_succ, Z.pow_succ_r by lia. lia.
Qed.

Lemma UINT_range v : 0 <= UINT v < 16 ^ Z.of_nat 8.
Proof.
  unfold UINT. change (16 ^ Z.of_nat 8) with 4294967296.
  apply Z.mod_pos_bound. lia.
Qed.

Lemma hex02_value u v :
  hex_value (hex02 u v) 0 = Some (UINT v) /\ (2 <= String.length (hex02 u v))%nat.
Proof.
  unfold hex02, pad02.
  destruct (hex_value_hex_go u 8 (UINT v) "" (UINT_range v)) as (k & Hk & Hlen & Hval).
  specialize (Hk ltac:(done)).
  destruct (Nat.ltb_spec (String.length (hex_go u 8 (UINT v) "")) 2).
  - split.
    + change ("0" +:+ ?s) with (String "0"%char s). cbn [hex_value].
      change (hex_digit_value "0") with (Some 0). step.
      rewrite Hval. done.
    + change ("0" +:+ ?s) with (String "0"%char s). cbn [String.length]. lia.
  - split; [|done]. rewrite Hval. done.
Qed.

(** X10. What [%02x] and [%02X] print is read back as the number
    printed (an [int] as the [unsigned int] of the same bits) and has at
    least two digits; so the name [GCID] followed by [%02X] of the
    character code, which [FontDump] gives a glyph, is a different name
    for every character code. *)
Theorem hex02_round_trip :
  (forall u v, hex_value (hex02 u v) 0 = Some (UINT v)) /\
  (forall u v, (2 <= String.length (hex02 u v))%nat) /\
  (forall g g', 0 <= g < 65536 -> 0 <= g' < 65536 ->
     "STARTCHAR GCID" +:+ hex02 true g = "STARTCHAR GCID" +:+ hex02 true g' -> g = g').
Proof.
  split; [intros u v; apply hex02_value|].
  split; [intros u v; apply hex02_value|].
  intros g g' Hg Hg' Heq.
  assert (hex02 true g = hex02 true g') as Hsame.
  { change ("STARTCHAR GCID" +:+ ?s) with
      (String "S" (String "T" (String "A" (String "R" (String "T" (String "C"
        (String "H" (String "A" (String "R" (String " " (String "G" (String "C"
          (String "I" (String "D" s)))))))))))))) in Heq.
    by simplify_eq. }
  pose proof (proj1 (hex02_value true g)) as Hv.
  rewrite Hsame, (proj1 (hex02_value true g')) in Hv.
  injection Hv as Hv. unfold UINT in Hv. rewrite !Z.mod_small in Hv; lia.
Qed.

(** ** The bounding box of a glyph record *)

Lemma length_chunks8 n r : length (chunks8 n r) = n.
Proof. revert r. induction n as [|n IH]; intros r; simpl; [done|]. by rewrite IH. Qed.

Lemma length_hex_pairs u (bs : list Z) :
  Forall (fun v => 0 <= v < 256) bs ->
  String.length (foldr (fun v s => hex02 u v +:+ s) "" bs) = (2 * length bs)%nat.
Proof.
  induction 1 as [|v bs Hv _ IH]; [done|].
  cbn [foldr]. rewrite hex02_byte by done.
  change (String ?a (String ?b "") +:+ ?s) with (String a (String b s)).
  cbn [String.length length]. rewrite IH. lia.
Qed.

Lemma length_row_hex u r :
  Forall pixel r ->
  String.length (row_hex u r) = (2 * ((length r + 7) `div` 8))%nat.
Proof.
  intros Hr. unfold row_hex, row_bytes.
  rewrite length_hex_pairs.
  - by rewrite length_fmap, length_chunks8.
  - apply Forall_fmap. eapply Forall_impl; [by apply chunks8_pixel|].
    intros c [Hc Hlen]. by apply pack_byte_range.
Qed.

Lemma lines_of_bitmap_text u rows :
  lines_of (bitmap_text u rows) = row_hex u <$> rows.
Proof.
  induction rows as [|r rows IH]; [done|].
  cbn [bitmap_text foldr]. rewrite lines_of_line by apply row_hex_one_line.
  fold (bitmap_text u rows). by rewrite IH.
Qed.

Lemma span_bytes span :
  ((Z.to_nat span + 7) `div` 8)%nat = Z.to_nat ((span + 7) / 8).
Proof.
  destruct (Z.le_gt_cases 0 span) as [Hpos|Hneg].
  - rewrite <- (Nat2Z.id ((Z.to_nat span + 7) `div` 8)). f_equal.
    rewrite Nat2Z.inj_div, Nat2Z.inj_add, Z2Nat.id by done. done.
  - replace (Z.to_nat span) with 0%nat by lia.
    assert ((span + 7) / 8 <= 0); [|by replace (Z.to_nat ((span + 7) / 8)) with 0%nat by lia].
    apply Z.lt_succ_r, Z.div_lt_upper_bound; lia.
Qed.

(** X11. In the record of a glyph, the [BBX] line and the [BITMAP]
    section agree: the section has as many lines as the height on the
    [BBX] line says (none when that height is not positive), and every
    line has two hexadecimal digits for each eight columns, begun or
    complete, of the width on the [BBX] line.  When the glyph has ink
    the height is at least 1 and at most the height of the font, and
    the first and the last line are rows with ink; when it has none
    (though its two entries of the location table differ) the height on
    the [BBX] line is 1 less the height of the font, and the section is
    empty. *)
Theorem dump_glyph_bbx_rows o m bp L gp0 g coff0 coff1 ow out out' :
  alloc_raster L = Some gp0 ->
  glyph_columns m L g = Some (coff0, coff1) ->
  coff0 <> coff1 ->
  glyph_ow m L g = Some ow ->
  dump_glyph o m bp L gp0 g out = Some out' ->
  exists gp top bot descent section,
    extract_glyph o bp L coff0 coff1 (clear_raster gp0) = Some gp /\
    toshort m Hdr.ftDescent = Some descent /\
    out' = out +:+ glyph_head L g ow coff0 coff1 top bot descent +:+
           section +:+ "ENDCHAR" +:+ nl /\
    length (lines_of section) = Z.to_nat (bot - top + 1) /\
    Forall (fun line =>
              String.length line = (2 * Z.to_nat ((coff1 - coff0 + 7) / 8))%nat)
           (lines_of section) /\
    ((exists i, 0 <= i < ht L /\ inked gp L i) ->
     1 <= bot - top + 1 <= ht L /\ inked gp L top /\ inked gp L bot) /\
    ((forall i, 0 <= i < ht L -> ~ inked gp L i) ->
     top = ht L /\ bot = 0 /\ (0 < ht L -> section = "")).
Proof.
  intros Hgp0 Hcols Hlive How Hrun.
  destruct (dump_glyph_inv _ _ _ _ _ _ _ _ _ _ _ Hgp0 Hcols Hlive How Hrun)
    as (gp & top & bot & descent & rows & Hgp & Hpix & Hscan & Hink & Hdescent
        & Hrows & Hsection & ->).
  exists gp, top, bot, descent, (bitmap_text false rows).
  split; [done|]. split; [done|]. split; [done|].
  rewrite lines_of_bitmap_text, length_fmap.
  apply length_mapM in Hrows as Hcount. rewrite length_seqZ in Hcount.
  split; [done|]. split.
  - apply Forall_fmap. eapply Forall_impl; [by eapply rows_of_raster|].
    intros r [Hr Hlen]. unfold compose. rewrite length_row_hex, Hlen by done.
    by rewrite span_bytes.
  - destruct Hink as [(-> & -> & Hnone)|(Htop & Hbot & Hitop & Hibot & Hall)].
    + split; [intros (i & Hi & Hinked); by destruct (Hnone i)|].
      intros _. split; [done|]. split; [done|]. intros Hht.
      replace (Z.to_nat (0 - ht L + 1)) with 0%nat in Hcount by lia.
      by destruct rows.
    + split; [intros _; split; [lia|done]|].
      intros Hnone. destruct (Hnone top); [lia|done].
Qed.

Lemma dump_glyph_bbx_rows_witness :
  exists gp top bot section,
    extract_glyph BigEndian (Sample.words [40960]) Sample.scenario_layout 0 4
      (clear_raster [0; 0; 0; 0]) = Some gp /\
    length (lines_of section) = Z.to_nat (bot - top + 1) /\
    Forall (fun line => String.length line = (2 * Z.to_nat ((4 - 0 + 7) / 8))%nat)
      (lines_of section).
Proof.
  destruct (dump_glyph_bbx_rows BigEndian (fr_bytes (Sample.scenario 0))
              (Sample.words [40960]) Sample.scenario_layout [0; 0; 0; 0] 65 0 4 8 ""
              (glyph_head Sample.scenario_layout 65 8 0 4 0 0 0 +:+ "a0" +:+ nl +:+
               "ENDCHAR" +:+ nl))
    as (gp & top & bot & descent & section & Hgp & _ & _ & Hlines & Hwidth & _);
    [reflexivity|reflexivity|lia|reflexivity|vm_compute; reflexivity|].
  exists gp, top, bot, section. auto.
Defined.

(** ** The file *)



(** A glyph with ink adds its record to the file. *)
Lemma dump_glyph_record o m bp L gp0 g out out' :
  alloc_raster L = Some gp0 ->
  empty_glyph m L g = false ->
  dump_glyph o m bp L gp0 g out = Some out' ->
  exists record, glyph_record o m bp L gp0 g record /\ out' = out +:+ record.
Proof.
  intros Hgp0 Hlive Hrun.
  destruct (glyph_columns m L g) as [[c0 c1]|] eqn:Hcols;
    [|unfold dump_glyph in Hrun; by rewrite Hcols in Hrun].
  assert (c0 <> c1) as Hne.
  { unfold empty_glyph in Hlive. rewrite Hcols in Hlive. by apply Z.eqb_neq. }
  destruct (glyph_ow m L g) as [ow|] eqn:How.
  2: { unfold dump_glyph in Hrun. rewrite Hcols in Hrun. step in Hrun.
       destruct (Z.eqb_spec c0 c1); [done|]. by rewrite How in Hrun. }
  destruct (dump_glyph_inv _ _ _ _ _ _ _ _ _ _ _ Hgp0 Hcols Hne How Hrun)
    as (gp & top & bot & descent & rows & Hgp & _ & _ & Hink & Hd & Hrows & _ & ->).
  exists (glyph_head L g ow c0 c1 top bot descent +:+ bitmap_text false rows +:+
          "ENDCHAR" +:+ nl).
  split; [|done].
  exists c0, c1, ow, descent, gp, top, bot, rows. done.
Qed.

Lemma dump_glyphs_records o m bp L gp0 (l : list Z) : forall out out',
  alloc_raster L = Some gp0 ->
  Forall (fun g => empty_glyph m L g = false) l ->
  foldM (dump_glyph o m bp L gp0) l out = Some out' ->
  exists records,
    Forall2 (glyph_record o m bp L gp0) l records /\
    out' = out +:+ foldr append "" records.
Proof.
  induction l as [|g l IH]; intros out out' Hgp0 Hl Hrun.
  - injection Hrun as <-. exists []. split; [constructor|].
    by rewrite append_nil_r.
  - apply Forall_cons in Hl as [Hg Hl]. cbn [foldM] in Hrun.
    destruct (dump_glyph o m bp L gp0 g out) as [out1|] eqn:Hstep; [|done].
    step in Hrun.
    destruct (dump_glyph_record _ _ _ _ _ _ _ _ Hgp0 Hg Hstep) as (record & Hrecord & ->).
    destruct (IH _ _ Hgp0 Hl Hrun) as (records & Hrecords & ->).
    exists (record :: records). split; [by constructor|].
    cbn [foldr]. by rewrite append_assoc.
Qed.

(** The file of a call that returns after creating it: the header, the
    records of the live glyphs, and the [ENDFONT] line. *)
Lemma FontDump_created env fp name style size r eff fname text :
  FontDump env (Some fp) (Some name) style size = Some (r, eff) ->
  created eff = Some (fname, text) ->
  exists L info ascent descent bp gp0 records,
    decode_header (fr_bytes fp) = Some L /\ lg L <> fg L /\ lg L <> 65535 /\
    FontInfo env fp (indeterminate env) = Some info /\
    toshort (fr_bytes fp) Hdr.ftAscent = Some ascent /\
    toshort (fr_bytes fp) Hdr.ftDescent = Some descent /\
    scanlines fp L = Some bp /\ alloc_raster L = Some gp0 /\
    fname = font_id name (FontStyleName "" style) size +:+ ".bdf" /\
    text = font_head L (font_id name (FontStyleName "" style) size) size info
             ascent descent +:+
           foldr append "" records +:+ "ENDFONT" +:+ nl /\
    Forall2 (glyph_record (host_order env) (fr_bytes fp) bp L gp0)
      (live_glyphs (fr_bytes fp) L) records /\
    to_stdout eff = (if quiet env then ""
                     else "Dumping " +:+ dec (ret_ng info) +:+ " glyphs to " +:+
                          dq +:+ fname +:+ dq +:+ nl) /\
    to_stderr eff = "" /\ r = 1.
Proof.
  intros Hrun Hcreated.
  apply FontDump_inv in Hrun
    as [(_ & -> & _)|(f & n & L & [= <-] & [= <-] & Hsize & HL & Hchars & _ & Hcase)];
    [done|].
  destruct Hcase as [(_ & _ & ->)
                    |(-> & _ & info & ascent & descent & bp & gp0 & out
                      & Hinfo & Hd & Ha & Hbp & Hgp0 & Hloop & ->)]; [done|].
  cbn [created] in Hcreated. injection Hcreated as <- <-.
  pose proof (decode_header_range _ _ HL) as [Hfg Hlg].
  destruct (Z.eq_dec (lg L) 65535) as [Hlast|Hlast].
  { rewrite Hlast, for_glyphs_never_exits in Hloop by lia. done. }
  rewrite for_glyphs_seqZ in Hloop by lia.
  rewrite (foldM_skip _ (empty_glyph (fr_bytes fp) L)) in Hloop
    by (intros; by apply dump_glyph_empty).
  fold (live_glyphs (fr_bytes fp) L) in Hloop.
  assert (Forall (fun g => empty_glyph (fr_bytes fp) L g = false)
            (live_glyphs (fr_bytes fp) L)) as Hlive.
  { unfold live_glyphs. apply Forall_forall. by intros g [? _]%list_elem_of_filter. }
  destruct (dump_glyphs_records _ _ _ _ _ _ _ _ Hgp0 Hlive Hloop)
    as (records & Hrecords & ->).
  exists L, info, ascent, descent, bp, gp0, records.
  do 8 (split; [done|]). split; [done|].
  split; [by rewrite !append_assoc|]. split; [done|].
  cbn [to_stdout to_stderr]. done.
Qed.




(** ** The file name and the glyph loop *)

Lemma length_append (s1 s2 : string) :
  String.length (s1 +:+ s2) = (String.length s1 + String.length s2)%nat.
Proof.
  induction s1 as [|c s1 IH]; [done|].
  change (String c s1 +:+ s2) with (String c (s1 +:+ s2)). simpl. by rewrite IH.
Qed.

Lemma length_pretty_N_go (k : nat) : forall (x : N) (s : string),
  (x < 10 ^ N.of_nat k)%N ->
  (String.length (pretty_N_go x s) <= k + String.length s)%nat.
Proof.
  induction k as [|k IH]; intros x s Hx.
  - change (10 ^ N.of_nat 0)%N with 1%N in Hx.
    assert (x = 0%N) as -> by lia. by rewrite pretty_N_go_0.
  - destruct (decide (x = 0%N)) as [->|Hne].
    { rewrite pretty_N_go_0. lia. }
    rewrite pretty_N_go_step by lia.
    etrans; [apply IH|simpl; lia].
    apply N.Div0.div_lt_upper_bound.
    rewrite Nat2N.inj_succ, N.pow_succ_r' in Hx. lia.
Qed.

(** [%d] of an [int] takes at most eleven characters. *)
Lemma length_dec z :
  - 2 ^ 31 <= z < 2 ^ 31 -> (String.length (dec z) <= 11)%nat.
Proof.
  change (2 ^ 31) with 2147483648. intros Hz. unfold dec, pretty, pretty_Z.
  assert (forall p, (Z.pos p <= 2147483648) ->
            (String.length (pretty (N.pos p)) <= 10)%nat) as Hpos.
  { intros p Hp. unfold pretty, pretty_N. rewrite decide_False by done.
    etrans; [apply (length_pretty_N_go 10)|simpl; lia].
    change (10 ^ N.of_nat 10)%N with 10000000000%N. lia. }
  destruct z as [|p|p].
  - simpl. lia.
  - etrans; [apply (Hpos p); lia|lia].
  - change (S (String.length (pretty (N.pos p))) <= 11)%nat.
    apply le_n_S. etrans; [apply (Hpos p); lia|lia].
Qed.

Lemma length_output_name env name style size :
  String.length (output_name env name style size)
  = (String.length name + String.length (FontStyleName "" style) + 1 +
     String.length (dec size) + 4)%nat.
Proof.
  unfold output_name, font_id. rewrite !length_append.
  change (FontStyleName (string_of_list_ascii (sname_static env)) style)
    with (FontStyleName "" style).
  simpl. lia.
Qed.

(** X13. The name of the file is built in [char fname [ 128 ]].  For a
    family name of at most 58 characters it fits, whatever the style
    and the size (an [int]); a name of 128 characters or more does not:
    [sprintf] writes outside [fname], and [FontDump] has no result.  58
    is the largest such bound: a family name of 59 characters, the seven
    styles and the size -2147483648 give a name of 128 characters. *)
Theorem FontDump_file_name_fits env fp name style size :
  - 2 ^ 31 <= size < 2 ^ 31 ->
  ((String.length name <= 58)%nat ->
   (String.length (output_name env name style size) < 128)%nat) /\
  ((128 <= String.length (output_name env name style size))%nat ->
   size <> 0 ->
   (exists L, decode_header (fr_bytes fp) = Some L /\ lg L <> fg L) ->
   FontDump env (Some fp) (Some name) style size = None) /\
  String.length
    (output_name env "Avant-Garde-Gothic-Demi-Oblique-Condensed-Alternate-Sm-Caps"
       127 (- 2 ^ 31)) = 128%nat.
Proof.
  intros Hsize. split; [|split].
  - intros Hname. rewrite length_output_name.
    pose proof (length_dec size Hsize).
    pose proof (FontStyleName_length_cases "" style) as [Hstyle _]. lia.
  - intros Hlong Hnz (L & HL & Hchars).
    destruct (FontDump env (Some fp) (Some name) style size) as [[r eff]|] eqn:Hrun;
      [|done].
    apply FontDump_inv in Hrun
      as [(_ & _ & [?|[?|[?|(f & L' & [= <-] & HL' & Heq)]]])
         |(f & n & L' & [= <-] & [= <-] & _ & _ & _ & Hfits & _)];
      try done; [congruence|lia].
  - vm_compute. reflexivity.
Qed.

Lemma FontDump_file_name_fits_witness :
  (String.length (output_name (Sample.env BigEndian true) "Test" 0 12) < 128)%nat.
Proof.
  destruct (FontDump_file_name_fits (Sample.env BigEndian true) (Sample.scenario 0)
              "Test" 0 12) as [Hfits _]; [lia|].
  apply Hfits. simpl. lia.
Defined.

(** X14. With a last character code of 65535 the test [g <= lg] of the
    glyph loop holds for every [CARD16]: the loop has no result whatever
    the number of tests it is allowed, and whatever its body does; so
    [FontInfo] never returns on such a resource (unless the first
    character code is 65535 too), and neither does [FontDump] once it
    has created the file. *)
Theorem last_char_65535_never_returns :
  (forall (S : Type) (body : Z -> S -> option S) (fuel : nat) (g : Z) (s : S),
     g < 65536 -> glyph_loop body 65535 fuel g s = None) /\
  (forall env fp L ret,
     decode_header (fr_bytes fp) = Some L -> lg L = 65535 -> fg L <> 65535 ->
     FontInfo env fp ret = None) /\
  (forall env fp L name style size,
     decode_header (fr_bytes fp) = Some L -> lg L = 65535 -> fg L <> 65535 ->
     size <> 0 -> can_create env (output_name env name style size) = true ->
     FontDump env (Some fp) (Some name) style size = None).
Proof.
  split; [intros; by apply glyph_loop_never_exits|].
  split; [intros; by eapply FontInfo_never_returns|].
  intros. by eapply FontDump_never_returns.
Qed.

(** ** The search for the left and the right of the bounding box *)

Lemma col_ink_before_next gp L i j j' :
  0 <= i ->
  col_ink_before gp L i (j + 1) j' <->
  col_ink_before gp L i j j' \/ (j' = j /\ ink_at gp L i j).
Proof.
  intros Hi. unfold col_ink_before. split.
  - intros (i' & Hi' & Hseen & Hink).
    destruct (decide (i' = i /\ j' = j)) as [[-> ->]|Hne]; [by right|].
    left. exists i'. split; [done|]. split; [lia|done].
  - intros [(i' & Hi' & Hseen & Hink)|(-> & Hink)].
    + exists i'. split; [done|]. split; [lia|done].
    + exists i. split; [done|]. split; [lia|done].
Qed.

Lemma col_ink_before_row_end gp L i j :
  0 <= j < wd L ->
  col_ink_before gp L i (0 + Z.max 0 (wd L)) j <-> col_ink_before gp L (i + 1) 0 j.
Proof.
  intros Hj. unfold col_ink_before.
  split; intros (i' & Hi' & Hseen & Hink); exists i'; (split; [done|]);
    (split; [lia|done]).
Qed.

Lemma cols_scanned_row_end gp L i lr :
  cols_scanned gp L i (0 + Z.max 0 (wd L)) lr -> cols_scanned gp L (i + 1) 0 lr.
Proof.
  destruct lr as [lft rgt]. unfold cols_scanned.
  intros [(-> & -> & Hnone)|(Hlr & Hrgt & Hilft & Hirgt & Hall)]; [left|right].
  - split; [done|]. split; [done|].
    intros j Hj H%col_ink_before_row_end; [|done]. by eapply Hnone.
  - split; [done|]. split; [done|].
    rewrite <- !col_ink_before_row_end by lia.
    split; [done|]. split; [done|].
    intros j Hj H%col_ink_before_row_end; [|done]. by apply Hall.
Qed.

Lemma cols_scanned_step gp L i j bit lft rgt :
  0 <= i < ht L -> 0 <= j < wd L ->
  gp_get gp (i * wd L + j) = Some bit ->
  cols_scanned gp L i j (lft, rgt) ->
  cols_scanned gp L i (j + 1)
    (if negb (bit =? 0) && (j <? lft) then j else lft,
     if negb (bit =? 0) && (rgt <? j) then j else rgt).
Proof.
  intros Hi Hj Hbit Hinv. unfold cols_scanned in *.
  destruct (Z.eqb_spec bit 0) as [->|Hne]; simpl.
  - assert (forall j', col_ink_before gp L i (j + 1) j' <-> col_ink_before gp L i j j')
      as Hsame.
    { intros j'. rewrite col_ink_before_next by lia. split; [|by left].
      intros [?|(_ & v & Hv & Hv0)]; [done|]. congruence. }
    destruct Hinv as [(-> & -> & Hnone)|(Hlr & Hrgt & Hilft & Hirgt & Hall)]; [left|right].
    + split; [done|]. split; [done|]. intros j' Hj'. rewrite Hsame. by apply Hnone.
    + rewrite !Hsame. split; [done|]. split; [done|]. split; [done|]. split; [done|].
      intros j' Hj'. rewrite Hsame. by apply Hall.
  - assert (col_ink_before gp L i (j + 1) j) as Hnew.
    { apply col_ink_before_next; [lia|]. right. split; [done|]. by exists bit. }
    right.
    destruct Hinv as [(-> & -> & Hnone)|(Hlr & Hrgt & Hilft & Hirgt & Hall)].
    + destruct (Z.ltb_spec j (wd L)); [|lia].
      assert ((if 0 <? j then j else 0) = j) as ->.
      { destruct (Z.ltb_spec 0 j); lia. }
      split; [lia|]. split; [lia|]. split; [done|]. split; [done|].
      intros j' Hj' [Hold|(-> & _)]%col_ink_before_next; [|lia|lia].
      by apply Hnone in Hold.
    + assert (forall j', col_ink_before gp L i j j' -> col_ink_before gp L i (j + 1) j')
        as Hkeep.
      { intros j' H. apply col_ink_before_next; [lia|]. by left. }
      destruct (Z.ltb_spec j lft), (Z.ltb_spec rgt j); try lia.
      * split; [lia|]. split; [lia|]. split; [done|]. split; [by apply Hkeep|].
        intros j' Hj' [Hold|(-> & _)]%col_ink_before_next; [|lia|lia].
        apply Hall in Hold; lia.
      * split; [lia|]. split; [lia|]. split; [by apply Hkeep|]. split; [done|].
        intros j' Hj' [Hold|(-> & _)]%col_ink_before_next; [|lia|lia].
        apply Hall in Hold; lia.
      * split; [lia|]. split; [lia|]. split; [by apply Hkeep|]. split; [by apply Hkeep|].
        intros j' Hj' [Hold|(-> & _)]%col_ink_before_next; [|lia|lia].
        apply Hall in Hold; lia.
Qed.

(** [scan_cols] is defined on a raster of [wd * ht] cells and finds the
    first and the last column with ink. *)
Lemma scan_cols_spec gp L :
  Z.of_nat (length gp) = wd L * ht L ->
  exists lft rgt, scan_cols gp L = Some (lft, rgt) /\ ink_cols gp L lft rgt.
Proof.
  intros Hlen. unfold scan_cols.
  destruct (foldM_seqZ_invariant (fun i lr => cols_scanned gp L i 0 lr)
    (fun i lr => foldM (fun j '(lft, rgt) =>
        bit ← gp_get gp (i * wd L + j);
        let lft := if negb (bit =? 0) && (j <? lft) then j else lft in
        let rgt := if negb (bit =? 0) && (rgt <? j) then j else rgt in
        Some (lft, rgt)) (seqZ 0 (wd L)) lr)
    0 (ht L) (wd L, 0)) as ([lft rgt] & Hfold & Hinv).
  - left. split; [done|]. split; [done|].
    intros j Hj (i & Hi & Hseen & _). lia.
  - intros i lr Hi Hlr.
    destruct (foldM_seqZ_invariant (fun j lr => cols_scanned gp L i j lr)
      (fun j '(lft, rgt) =>
        bit ← gp_get gp (i * wd L + j);
        let lft := if negb (bit =? 0) && (j <? lft) then j else lft in
        let rgt := if negb (bit =? 0) && (rgt <? j) then j else rgt in
        Some (lft, rgt))
      0 (wd L) lr) as (lr' & Hfold' & Hlr'); [done| |].
    + intros j [lft rgt] Hj Hinv.
      destruct (gp_get_is_Some gp (i * wd L + j)) as [bit Hbit].
      { rewrite Hlen. apply cell_in_raster; lia. }
      rewrite Hbit. simpl. eexists. split; [done|].
      by apply cols_scanned_step.
    + exists lr'. split; [exact Hfold'|]. by apply cols_scanned_row_end.
  - exists lft, rgt. split; [exact Hfold|].
    assert (forall j, 0 <= j < wd L ->
              col_ink_before gp L (0 + Z.max 0 (ht L)) 0 j <-> col_inked gp L j) as Hall.
    { intros j Hj. unfold col_ink_before, col_inked. split.
      - intros (i & Hi & Hseen & Hink). exists i. split; [lia|done].
      - intros (i & Hi & Hink). exists i. split; [lia|]. split; [lia|done]. }
    unfold cols_scanned in Hinv. unfold ink_cols.
    destruct Hinv as [(-> & -> & Hnone)|(Hlr & Hrgt & Hilft & Hirgt & Hrange)]; [left|right].
    + split; [done|]. split; [done|]. intros j Hj Hink. apply (Hnone j); [lia|].
      by apply Hall.
    + split; [done|]. split; [done|].
      rewrite <- !Hall by lia. split; [done|]. split; [done|].
      intros j Hj Hink. apply Hrange; [lia|]. by apply Hall.
Qed.

(** ** The overlay of the glyphs *)

(** The [|=] of a pixel into a cell. *)
Lemma lor_pixel a b : pixel a -> pixel b ->
  pixel (Z.lor a b) /\ (Z.lor a b <> 0 <-> a <> 0 \/ b = 1).
Proof.
  unfold pixel.
  intros [-> | ->] [-> | ->]; rewrite ?Z.lor_0_l, ?Z.lor_0_r, ?Z.lor_diag; lia.
Qed.

(** Distinct cells of a raster, row by row, have distinct places. *)
Lemma cell_other (w i i' c c' : Z) :
  0 <= c < w -> 0 <= c' < w -> ~ (i' = i /\ c' = c) -> i' * w + c' <> i * w + c.
Proof.
  intros Hc Hc' Hne Heq.
  destruct (Z.lt_trichotomy i' i) as [Hlt|[->|Hgt]].
  - assert ((i' + 1) * w <= i * w) by (apply Z.mul_le_mono_nonneg_r; lia). lia.
  - lia.
  - assert ((i + 1) * w <= i' * w) by (apply Z.mul_le_mono_nonneg_r; lia). lia.
Qed.

Section Overlay.

Variables (o : byte_order) (bp : list byte) (L : Layout) (coff0 coff1 xoff : Z).
Hypothesis Hplace : coff1 - coff0 + xoff <= wd L.
Hypothesis Hbits : forall i j, 0 <= i < ht L -> coff0 <= j < coff1 ->
  is_Some (image_bit o bp L i j).

(** The overlay of a glyph that lies inside the raster is defined, and
    adds to the raster the cells the glyph sets. *)
Lemma overlay_glyph_spec gp0 :
  Z.of_nat (length gp0) = wd L * ht L -> Forall pixel gp0 ->
  exists gp, overlay_glyph o bp L coff0 coff1 xoff gp0 = Some gp /\
    length gp = length gp0 /\ Forall pixel gp /\
    forall i c, 0 <= i < ht L -> 0 <= c < wd L ->
      (ink_at gp L i c <->
       ink_at gp0 L i c \/
       exists j, coff0 <= j < coff1 /\ c = j - coff0 + xoff /\
                 image_bit o bp L i j = Some 1).
Proof.
  intros Hlen Hpix. unfold overlay_glyph.
  destruct (foldM_seqZ_invariant
    (fun i gp => overlaid o bp L coff0 coff1 xoff gp0 i coff0 gp)
    (fun i gp => foldM (fun j gp =>
      if (j - coff0) + xoff <? 0 then Some gp
      else
        bit ← image_bit o bp L i j;
        old ← gp_get gp (i * wd L + (j - coff0) + xoff);
        gp_set gp (i * wd L + (j - coff0) + xoff) (Z.lor old bit))
      (seqZ coff0 (coff1 - coff0)) gp)
    0 (ht L) gp0) as (gp & Hfold & Hgp).
  - split; [done|]. split; [done|]. intros i' c Hi' Hc. split; [by left|].
    intros [?|(j' & Hj' & Hseen & _)]; [done|lia].
  - intros i gp1 Hi Hinv.
    destruct (foldM_seqZ_invariant
      (fun j gp => overlaid o bp L coff0 coff1 xoff gp0 i j gp)
      (fun j gp =>
        if (j - coff0) + xoff <? 0 then Some gp
        else
          bit ← image_bit o bp L i j;
          old ← gp_get gp (i * wd L + (j - coff0) + xoff);
          gp_set gp (i * wd L + (j - coff0) + xoff) (Z.lor old bit))
      coff0 (coff1 - coff0) gp1) as (gp' & Hfold' & Hgp'); [done| |].
    + intros j gp2 Hj (Hlen2 & Hpix2 & Hinv2).
      destruct (Z.ltb_spec (j - coff0 + xoff) 0) as [Hskip|Hcell].
      { exists gp2. split; [done|]. split; [done|]. split; [done|].
        intros i' c Hi' Hc. rewrite Hinv2 by done.
        split; (intros [?|(j' & Hj' & Hseen & Hcj & Hbit)]; [by left|right]);
          exists j'; (split; [done|]); (split; [lia|done]). }
      destruct (Hbits i j) as [bit Hbit]; [lia..|]. rewrite Hbit. step.
      replace (i * wd L + (j - coff0) + xoff) with (i * wd L + (j - coff0 + xoff)) by lia.
      assert (0 <= i * wd L + (j - coff0 + xoff) < Z.of_nat (length gp2)) as Hidx.
      { rewrite Hlen2, Hlen. apply cell_in_raster; lia. }
      destruct (gp_get_is_Some gp2 _ Hidx) as [old Hold]. rewrite Hold. step.
      destruct (gp_set_spec gp2 _ (Z.lor old bit) Hidx)
        as (gp3 & -> & Hlen3 & Hget & Hother & Hpix3).
      assert (pixel old) as Hpold by eauto using gp_get_pixel.
      assert (pixel bit) as Hpbit by eauto using image_bit_pixel.
      destruct (lor_pixel old bit Hpold Hpbit) as [Hplor Hlor].
      exists gp3. split; [done|]. split; [congruence|]. split; [by apply Hpix3|].
      intros i' c Hi' Hc.
      destruct (decide (i' = i /\ c = j - coff0 + xoff)) as [[-> ->]|Hne].
      * unfold ink_at at 1. rewrite Hget.
        assert ((exists v, Some (Z.lor old bit) = Some v /\ v <> 0) <->
                old <> 0 \/ bit = 1) as ->.
        { rewrite <- Hlor. split; [by intros (v & [= <-] & ?)|eauto]. }
        assert (old <> 0 <-> ink_at gp2 L i (j - coff0 + xoff)) as ->.
        { unfold ink_at. rewrite Hold. split; [eauto|by intros (v & [= <-] & ?)]. }
        rewrite Hinv2 by done. split.
        -- intros [[?|(j' & Hj' & Hseen & Hcj & Hb)]| ->]; [by left| |].
           ++ right. exists j'. split; [done|]. split; [lia|done].
           ++ right. exists j. split; [lia|]. split; [lia|done].
        -- intros [?|(j' & Hj' & Hseen & Hcj & Hb)]; [by left; left|].
           destruct (decide (j' = j)) as [->|Hjj].
           ++ right. congruence.
           ++ left. right. exists j'. split; [done|]. split; [lia|done].
      * unfold ink_at at 1. rewrite Hother by (apply cell_other; lia).
        fold (ink_at gp2 L i' c). rewrite Hinv2 by done.
        split; (intros [?|(j' & Hj' & Hseen & Hcj & Hb)]; [by left|right]);
          exists j'; (split; [done|]); (split; [lia|done]).
    + exists gp'. split; [exact Hfold'|].
      destruct Hgp' as (Hlen' & Hpix' & Hinv').
      split; [done|]. split; [done|].
      intros i' c Hi' Hc. rewrite Hinv' by done.
      split; (intros [?|(j' & Hj' & Hseen & Hcj & Hb)]; [by left|right]);
        exists j'; (split; [done|]); (split; [lia|done]).
  - exists gp. split; [exact Hfold|]. destruct Hgp as (Hlen' & Hpix' & Hinv').
    split; [done|]. split; [done|].
    intros i c Hi Hc. rewrite Hinv' by done.
    split; (intros [?|H]; [by left|right]).
    + destruct H as (j' & Hj' & Hseen & Hcj & Hb). eauto.
    + destruct H as (j' & Hj' & Hcj & Hb). exists j'.
      split; [done|]. split; [lia|done].
Qed.

End Overlay.

(** ** The bounding box of the font *)

Lemma alloc_raster_blank L gp i c :
  alloc_raster L = Some gp -> ~ ink_at gp L i c.
Proof.
  unfold alloc_raster. destruct (wd L * ht L <? 0); [done|].
  intros [= <-] (v & Hv & Hne). unfold gp_get in Hv.
  destruct (i * wd L + c <? 0); [done|].
  apply lookup_replicate in Hv as [-> _]. done.
Qed.

(** One iteration of the glyph loop of the global pass, on a glyph that
    can be converted: the cells the glyph sets are added to the raster,
    and the glyph is counted unless it is empty. *)
Lemma info_glyph_ink o fp L bp g gp ng :
  scanlines fp L = Some bp ->
  bitImage + 2 * (ht L * rw L) <= Z.of_nat (length (fr_bytes fp)) ->
  glyph_valid (fr_bytes fp) L g = true ->
  Z.of_nat (length gp) = wd L * ht L -> Forall pixel gp ->
  exists gp' ng',
    info_glyph o (fr_bytes fp) bp L g (gp, ng) = Some (gp', ng') /\
    length gp' = length gp /\ Forall pixel gp' /\
    forall i c, 0 <= i < ht L -> 0 <= c < wd L ->
      (ink_at gp' L i c <->
       ink_at gp L i c \/ glyph_ink o (fr_bytes fp) bp L g i c).
Proof.
  intros Hbp Hlen Hvalid Hsize Hpix.
  destruct (glyph_valid_inv _ _ _ Hvalid)
    as (c0 & c1 & Hcols & [->|(Hne & ow & How & Hc & Hspan & Hplace)]).
  - exists gp, ng. split.
    { unfold info_glyph. rewrite Hcols. step. by rewrite Z.eqb_refl. }
    split; [done|]. split; [done|].
    intros i c Hi Hc. split; [by left|].
    intros [?|(c0 & c1' & ow & j & Hcols' & Hne & _)]; [done|]. congruence.
  - destruct (glyph_columns_inv _ _ _ _ _ Hcols) as (Hc0%toushort_range & _).
    destruct (overlay_glyph_spec o bp L c0 c1
                (INT16 (Z.land (Z.shiftr ow 8) 255 + mk L)) Hplace) with (gp0 := gp)
      as (gp' & Hov & Hlen' & Hpix' & Hink); [|done|done|].
    { intros i j Hi Hj. eapply image_bit_is_Some; eauto. lia. }
    exists gp', (INT16 (ng + 1)). split.
    { unfold info_glyph. rewrite Hcols. step.
      destruct (Z.eqb_spec c0 c1); [done|].
      rewrite How. step. by rewrite Hov. }
    split; [done|]. split; [done|].
    intros i c Hi Hcell. rewrite Hink by done.
    split; (intros [?|H]; [by left|right]).
    + destruct H as (j & Hj & -> & Hbit). exists c0, c1, ow, j. done.
    + destruct H as (c0' & c1' & ow' & j & Hcols' & _ & How' & Hj & -> & Hbit).
      assert (c0' = c0 /\ c1' = c1 /\ ow' = ow) as (-> & -> & ->)
        by (repeat split; congruence).
      eauto.
Qed.

(** The glyph loop of the global pass, on glyphs that can be converted:
    the raster holds the cells it held and the cells the glyphs set. *)
Lemma info_glyphs_ink o fp L bp (l : list Z) : forall gp ng,
  scanlines fp L = Some bp ->
  bitImage + 2 * (ht L * rw L) <= Z.of_nat (length (fr_bytes fp)) ->
  Forall (fun g => glyph_valid (fr_bytes fp) L g = true) l ->
  Z.of_nat (length gp) = wd L * ht L -> Forall pixel gp ->
  exists gp' ng',
    foldM (info_glyph o (fr_bytes fp) bp L) l (gp, ng) = Some (gp', ng') /\
    length gp' = length gp /\
    forall i c, 0 <= i < ht L -> 0 <= c < wd L ->
      (ink_at gp' L i c <->
       ink_at gp L i c \/ exists g, g ∈ l /\ glyph_ink o (fr_bytes fp) bp L g i c).
Proof.
  induction l as [|g l IH]; intros gp ng Hbp Hlen Hvalid Hsize Hpix.
  - exists gp, ng. split; [done|]. split; [done|].
    intros i c Hi Hc. split; [by left|]. intros [?|(g & Hg & _)]; [done|].
    by apply elem_of_nil in Hg.
  - apply Forall_cons in Hvalid as [Hg Hvalid]. cbn [foldM].
    destruct (info_glyph_ink o fp L bp g gp ng)
      as (gp1 & ng1 & -> & Hlen1 & Hpix1 & Hink1); [done..|].
    step.
    destruct (IH gp1 ng1) as (gp2 & ng2 & -> & Hlen2 & Hink2); [done..|lia|done|].
    exists gp2, ng2. split; [done|]. split; [congruence|].
    intros i c Hi Hc. rewrite Hink2, Hink1 by done.
    split.
    + intros [[?|?]|(g' & Hg' & ?)]; [by left| |].
      * right. exists g. split; [left|done].
      * right. exists g'. split; [by right|done].
    + intros [?|(g' & [->|Hg']%elem_of_cons & ?)]; [by left; left|by left; right|].
      right. eauto.
Qed.

(** The raster of the global pass on a resource that can be converted:
    its set cells are the ink of the font, and [FontInfo] returns the
    first and the last of its rows and of its columns that have a set
    cell. *)
Lemma FontInfo_raster env fp L ret :
  decode_header (fr_bytes fp) = Some L ->
  lg L <> fg L ->
  valid_font fp L = true ->
  exists bp gp0 gp top lft bot rgt,
    scanlines fp L = Some bp /\
    alloc_raster L = Some gp0 /\
    FontInfo env fp ret
    = Some {| ret_top := top;
              ret_left := INT16 (lft + mk L);
              ret_bottom := bot;
              ret_right := INT16 (rgt + mk L);
              ret_ng := INT16 (Z.of_nat (length (live_glyphs (fr_bytes fp) L))) |} /\
    ink_rows gp L top bot /\ ink_cols gp L lft rgt /\
    (forall i c, 0 <= i < ht L -> 0 <= c < wd L ->
       (ink_at gp L i c <-> font_ink (host_order env) (fr_bytes fp) bp L i c)) /\
    (forall i c, font_ink (host_order env) (fr_bytes fp) bp L i c ->
       0 <= i < ht L /\ 0 <= c < wd L).
Proof.
  intros HL Hchars Hvalid.
  pose proof Hvalid as (Hht & Hrw & Hwd & Hlg & Hlen & Hglyphs)%valid_font_inv.
  pose proof (decode_header_range _ _ HL) as [Hfg _].
  set (o := host_order env). set (m := fr_bytes fp).
  destruct (scanlines_words o fp L) as (bp & Hbp & _); [nia|done|].
  destruct (alloc_raster_spec L) as (gp0 & Hgp0 & Hsize0 & Hpix0); [nia|].
  destruct (info_glyphs_ink o fp L bp (seqZ (fg L) (lg L - fg L + 1)) gp0 0)
    as (gp & ng & Hloop & Hsize & Hink); [done|done| |done|done|].
  { apply Forall_forall. intros g Hg%elem_of_seqZ. apply Hglyphs. lia. }
  assert (forall i c, 0 <= i < ht L -> 0 <= c < wd L ->
            (ink_at gp L i c <-> font_ink o m bp L i c)) as Hcells.
  { intros i c Hi Hc. rewrite Hink by done. unfold font_ink. split.
    - intros [Hblank|(g & Hg%elem_of_seqZ & Hglyph)];
        [by apply (alloc_raster_blank _ _ _ _ Hgp0) in Hblank|].
      split; [done|]. split; [lia|]. exists g. split; [lia|done].
    - intros (_ & _ & g & Hg & Hglyph). right. exists g.
      split; [apply elem_of_seqZ; lia|done]. }
  assert (forall i c, font_ink o m bp L i c -> 0 <= i < ht L /\ 0 <= c < wd L)
    as Hinside.
  { intros i c (Hi & Hc & g & Hg & c0 & c1 & ow & j & Hcols & Hne & How & Hj & -> & _).
    split; [done|]. split; [done|].
    destruct (glyph_valid_inv _ _ _ (Hglyphs g Hg))
      as (c0' & c1' & Hcols' & [->|(_ & ow' & How' & _ & _ & Hplace)]).
    - fold m in Hcols'. congruence.
    - fold m in Hcols', How'.
      assert (c0' = c0 /\ c1' = c1 /\ ow' = ow) as (-> & -> & ->)
        by (repeat split; congruence).
      lia. }
  assert (ng = INT16 (Z.of_nat (length (live_glyphs m L)))) as ->.
  { rewrite (foldM_skip _ (empty_glyph m L)) in Hloop
      by (intros; by apply info_glyph_empty).
    fold (live_glyphs m L) in Hloop. change 0 with (INT16 0) in Hloop.
    apply info_glyphs_count in Hloop; [done|].
    unfold live_glyphs. apply Forall_forall. by intros g [? _]%list_elem_of_filter. }
  destruct (scan_rows_spec gp L) as (top & bot & Hrows & Hinkrows); [lia|].
  destruct (scan_cols_spec gp L) as (lft & rgt & Hcolumns & Hinkcols); [lia|].
  exists bp, gp0, gp, top, lft, bot, rgt. split; [done|]. split; [done|]. split.
  { unfold FontInfo. rewrite HL. step.
    destruct (Z.eqb_spec (lg L) (fg L)); [done|].
    rewrite Hbp. step. rewrite Hgp0. step.
    rewrite for_glyphs_seqZ by lia. fold o. rewrite Hloop. step.
    rewrite Hrows. step. rewrite Hcolumns. done. }
  done.
Qed.

(** The box [FontInfo] returns is the box of the ink of the font. *)
Lemma FontInfo_ink_box env fp L ret :
  decode_header (fr_bytes fp) = Some L ->
  lg L <> fg L ->
  valid_font fp L = true ->
  exists bp top lft bot rgt,
    scanlines fp L = Some bp /\
    FontInfo env fp ret
    = Some {| ret_top := top;
              ret_left := INT16 (lft + mk L);
              ret_bottom := bot;
              ret_right := INT16 (rgt + mk L);
              ret_ng := INT16 (Z.of_nat (length (live_glyphs (fr_bytes fp) L))) |} /\
    (forall i c, font_ink (host_order env) (fr_bytes fp) bp L i c ->
       top <= i <= bot /\ lft <= c <= rgt) /\
    ((exists i c, font_ink (host_order env) (fr_bytes fp) bp L i c) ->
     (exists c, font_ink (host_order env) (fr_bytes fp) bp L top c) /\
     (exists c, font_ink (host_order env) (fr_bytes fp) bp L bot c) /\
     (exists i, font_ink (host_order env) (fr_bytes fp) bp L i lft) /\
     (exists i, font_ink (host_order env) (fr_bytes fp) bp L i rgt)) /\
    ((forall i c, ~ font_ink (host_order env) (fr_bytes fp) bp L i c) ->
     top = ht L /\ bot = 0 /\ lft = wd L /\ rgt = 0) /\
    ((0 <= top <= bot /\ bot < ht L /\ 0 <= lft <= rgt /\ rgt < wd L) \/
     (top = ht L /\ bot = 0 /\ lft = wd L /\ rgt = 0)).
Proof.
  intros HL Hchars Hvalid.
  destruct (FontInfo_raster env fp L ret HL Hchars Hvalid)
    as (bp & gp0 & gp & top & lft & bot & rgt & Hbp & _ & Hrun & Hinkrows & Hinkcols
        & Hcells & Hinside).
  exists bp, top, lft, bot, rgt. split; [done|]. split; [done|].
  assert (forall i, 0 <= i < ht L ->
            (inked gp L i <->
             exists c, font_ink (host_order env) (fr_bytes fp) bp L i c)) as Hrow.
  { intros i Hi. unfold inked. split.
    - intros (c & Hc & Hcell). exists c. by apply Hcells.
    - intros (c & Hcell). pose proof (Hinside _ _ Hcell) as [_ Hc].
      exists c. split; [done|]. by apply Hcells. }
  assert (forall c, 0 <= c < wd L ->
            (col_inked gp L c <->
             exists i, font_ink (host_order env) (fr_bytes fp) bp L i c)) as Hcol.
  { intros c Hc. unfold col_inked. split.
    - intros (i & Hi & Hcell). exists i. by apply Hcells.
    - intros (i & Hcell). pose proof (Hinside _ _ Hcell) as [Hi _].
      exists i. split; [done|]. by apply Hcells. }
  destruct Hinkrows as [(-> & -> & Hnorow)|(Htb & Hbot & Hitop & Hibot & Hrange)].
  - (* no ink *)
    assert (forall i c, ~ font_ink (host_order env) (fr_bytes fp) bp L i c) as Hnone.
    { intros i c Hcell. pose proof (Hinside _ _ Hcell) as [Hi _].
      apply (Hnorow i Hi). apply Hrow; eauto. }
    destruct Hinkcols as [(-> & -> & _)|(Hlr & Hrgt & Hilft & _)].
    + split; [intros i c Hcell; by destruct (Hnone i c)|].
      split; [intros (i & c & Hcell); by destruct (Hnone i c)|].
      split; [done|by right].
    + apply Hcol in Hilft as (i & Hcell); [|lia]. by destruct (Hnone i lft).
  - destruct Hinkcols as [(-> & -> & Hnocol)|(Hlr & Hrgt & Hilft & Hirgt & Hcrange)].
    + apply Hrow in Hitop as (c & Hcell); [|lia].
      pose proof (Hinside _ _ Hcell) as [_ Hc].
      destruct (Hnocol c Hc). apply Hcol; eauto.
    + split.
      { intros i c Hcell. pose proof (Hinside _ _ Hcell) as [Hi Hc]. split.
        - apply Hrange; [done|]. apply Hrow; eauto.
        - apply Hcrange; [done|]. apply Hcol; eauto. }
      split.
      { intros _.
        split; [apply Hrow; [lia|done]|]. split; [apply Hrow; [lia|done]|].
        split; [apply Hcol; [lia|done]|]. apply Hcol; [lia|done]. }
      split; [|by left].
      intros Hnone. apply Hrow in Hitop as (c & Hcell); [|lia].
      by destruct (Hnone top c).
Qed.

(** X15. On a resource that can be converted, [FontInfo] returns the
    bounding box of the ink of the font and the number of its glyphs.
    The ink is the set of cells [(i, c)] such that some glyph whose two
    entries of the location table differ has a column, with its bit set
    in scanline [i], that its origin offset and the kerning maximum move
    to column [c], columns to the left of the raster being dropped.
    Every cell of the ink lies between the top and the bottom returned
    and between the left and the right returned (less the kerning
    maximum); when there is ink, each of the four bounds is reached;
    when there is none, top is the height, left the width, and bottom
    and right are 0.  The count is the number of those glyphs, as a
    [short]. *)
Theorem FontInfo_bounding_box env fp L ret :
  decode_header (fr_bytes fp) = Some L ->
  lg L <> fg L ->
  valid_font fp L = true ->
  exists bp top lft bot rgt,
    scanlines fp L = Some bp /\
    FontInfo env fp ret
    = Some {| ret_top := top;
              ret_left := INT16 (lft + mk L);
              ret_bottom := bot;
              ret_right := INT16 (rgt + mk L);
              ret_ng := INT16 (Z.of_nat (length (live_glyphs (fr_bytes fp) L))) |} /\
    (forall i c, font_ink (host_order env) (fr_bytes fp) bp L i c ->
       top <= i <= bot /\ lft <= c <= rgt) /\
    ((exists i c, font_ink (host_order env) (fr_bytes fp) bp L i c) ->
     (exists c, font_ink (host_order env) (fr_bytes fp) bp L top c) /\
     (exists c, font_ink (host_order env) (fr_bytes fp) bp L bot c) /\
     (exists i, font_ink (host_order env) (fr_bytes fp) bp L i lft) /\
     (exists i, font_ink (host_order env) (fr_bytes fp) bp L i rgt)) /\
    ((forall i c, ~ font_ink (host_order env) (fr_bytes fp) bp L i c) ->
     top = ht L /\ bot = 0 /\ lft = wd L /\ rgt = 0).
Proof.
  intros HL Hchars Hvalid.
  destruct (FontInfo_ink_box env fp L ret HL Hchars Hvalid)
    as (bp & top & lft & bot & rgt & Hbp & Hrun & Hbox & Hink & Hnone & _).
  by exists bp, top, lft, bot, rgt.
Qed.

Lemma FontInfo_bounding_box_witness :
  exists bp top lft bot rgt,
    scanlines (Sample.scenario 0) Sample.scenario_layout = Some bp /\
    FontInfo (Sample.env BigEndian true) (Sample.scenario 0)
      (indeterminate (Sample.env BigEndian true))
    = Some {| ret_top := top;
              ret_left := INT16 (lft + mk Sample.scenario_layout);
              ret_bottom := bot;
              ret_right := INT16 (rgt + mk Sample.scenario_layout);
              ret_ng := INT16 (Z.of_nat (length
                          (live_glyphs (fr_bytes (Sample.scenario 0))
                             Sample.scenario_layout))) |} /\
    (forall i c,
       font_ink BigEndian (fr_bytes (Sample.scenario 0)) bp Sample.scenario_layout i c ->
       top <= i <= bot /\ lft <= c <= rgt).
Proof.
  destruct (FontInfo_bounding_box (Sample.env BigEndian true) (Sample.scenario 0)
              Sample.scenario_layout (indeterminate (Sample.env BigEndian true)))
    as (bp & top & lft & bot & rgt & Hbp & Hinfo & Hbox & _);
    [reflexivity|vm_compute; discriminate|vm_compute; reflexivity|].
  exists bp, top, lft, bot, rgt. auto.
Defined.

(** ** The rows of a glyph and the rows of the font *)





Section ExtractedInk.

Variables (o : byte_order) (bp : list byte) (L : Layout) (coff0 coff1 : Z).
Hypothesis Hfits : coff1 - coff0 <= wd L.
Hypothesis Hbits : forall i j, 0 <= i < ht L -> coff0 <= j < coff1 ->
  is_Some (image_bit o bp L i j).


End ExtractedInk.



(** ** The bounding box in the file *)

Lemma decode_header_mk m L : decode_header m = Some L -> -32768 <= mk L < 32768.
Proof.
  unfold decode_header. intros H.
  destruct (toushort m Hdr.ftFirstChar); [|done].
  destruct (toushort m Hdr.ftLastChar); [|done]. step in H.
  destruct (toshort m Hdr.ftKernMax) as [k|] eqn:Hk; [|done].
  destruct (toshort m Hdr.ftFRectWidth); [|done].
  destruct (toshort m Hdr.ftFRectHeight); [|done].
  destruct (toushort m Hdr.ftOWTLoc); [|done].
  destruct (toshort m Hdr.ftRowWords); [|done].
  step in H. case_match; [done|].
  injection H as <-. simpl. by eapply toshort_range.
Qed.

Lemma INT16_id z : -32768 <= z < 32768 -> INT16 z = z.
Proof. intros Hz. unfold INT16. rewrite Z.mod_small; lia. Qed.

(** X17. The [FONTBOUNDINGBOX] line of the file of a call that returns
    after creating it, on a resource that can be converted and whose
    width plus kerning maximum is a [short].  The line carries
    [rgt - lft + 1], [bot - top + 1], the kerning maximum, and the
    height less the descent less [bot + 1], where [top], [bot], [lft]
    and [rgt] bound the ink of the font exactly: every cell of the ink
    lies in rows [top] to [bot] and columns [lft] to [rgt], and when
    there is ink each of the four is reached by a cell of the ink, so
    that the first two numbers are the width and the height of the box
    of the ink.  When the font has no ink (the file is created all the
    same) [top] is the height, [lft] the width, [bot] and [rgt] are 0:
    the line carries 1 less the width and 1 less the height of the font
    rectangle, neither of them positive. *)
Theorem FontDump_font_bounding_box env fp name style size r eff fname text L :
  FontDump env (Some fp) (Some name) style size = Some (r, eff) ->
  created eff = Some (fname, text) ->
  decode_header (fr_bytes fp) = Some L ->
  valid_font fp L = true ->
  wd L + mk L < 32768 ->
  exists bp top lft bot rgt descent rest,
    scanlines fp L = Some bp /\
    toshort (fr_bytes fp) Hdr.ftDescent = Some descent /\
    text = "STARTFONT 2.1" +:+ nl +:+
           "FONT " +:+ font_id name (FontStyleName "" style) size +:+ nl +:+
           "SIZE " +:+ dec size +:+ " " +:+ dec 72 +:+ " " +:+ dec 72 +:+ nl +:+
           "FONTBOUNDINGBOX " +:+ dec (rgt - lft + 1) +:+ " " +:+
              dec (bot - top + 1) +:+ " " +:+ dec (mk L) +:+ " " +:+
              dec (ht L - descent - (bot + 1)) +:+ nl +:+ rest /\
    (forall i c, font_ink (host_order env) (fr_bytes fp) bp L i c ->
       top <= i <= bot /\ lft <= c <= rgt) /\
    ((exists i c, font_ink (host_order env) (fr_bytes fp) bp L i c) ->
     (exists c, font_ink (host_order env) (fr_bytes fp) bp L top c) /\
     (exists c, font_ink (host_order env) (fr_bytes fp) bp L bot c) /\
     (exists i, font_ink (host_order env) (fr_bytes fp) bp L i lft) /\
     (exists i, font_ink (host_order env) (fr_bytes fp) bp L i rgt) /\
     1 <= rgt - lft + 1 <= wd L /\ 1 <= bot - top + 1 <= ht L) /\
    ((forall i c, ~ font_ink (host_order env) (fr_bytes fp) bp L i c) ->
     top = ht L /\ bot = 0 /\ lft = wd L /\ rgt = 0).
Proof.
  intros Hrun Hcreated HL Hvalid Hfit.
  destruct (FontDump_created _ _ _ _ _ _ _ _ _ Hrun Hcreated)
    as (L' & info & ascent & descent & bp & gp0 & records & HL' & Hchars & Hlast & Hinfo
        & Ha & Hd & Hbp & Hgp0 & Hname & Htext & Hrecords & Hout & Herr & Hr).
  assert (L' = L) as -> by congruence.
  destruct (FontInfo_ink_box env fp L (indeterminate env) HL Hchars Hvalid)
    as (bp' & top & lft & bot & rgt & Hbp' & Hbox & Hinside & Hreached & Hnone & Hcases).
  assert (bp' = bp) as -> by congruence.
  rewrite Hinfo in Hbox. injection Hbox as ->.
  pose proof (decode_header_mk _ _ HL) as Hmk.
  pose proof Hvalid as (Hht & _ & Hwd & _)%valid_font_inv.
  assert (INT16 (rgt + mk L) - INT16 (lft + mk L) + 1 = rgt - lft + 1) as Hwidth.
  { rewrite !INT16_id; [lia| |];
      destruct Hcases as [(? & ? & ? & ?)|(_ & _ & -> & ->)]; lia. }
  exists bp, top, lft, bot, rgt, descent,
    ("STARTPROPERTIES 2" +:+ nl +:+
     "FONT_ASCENT " +:+ dec ascent +:+ nl +:+
     "FONT_DESCENT " +:+ dec descent +:+ nl +:+
     "ENDPROPERTIES" +:+ nl +:+
     "CHARS " +:+ dec (INT16 (Z.of_nat (length (live_glyphs (fr_bytes fp) L)))) +:+ nl +:+
     foldr append "" records +:+ "ENDFONT" +:+ nl).
  split; [done|]. split; [done|]. split.
  { rewrite Htext. unfold font_head.
    cbn [ret_top ret_left ret_bottom ret_right ret_ng].
    rewrite Hwidth, !append_assoc. done. }
  split; [done|]. split; [|done].
  intros Hink. destruct (Hreached Hink) as (Htop & Hbot & Hlft & Hrgt).
  do 4 (split; [done|]).
  destruct Hcases as [(? & ? & ? & ?)|(-> & _)]; [lia|].
  destruct Htop as (c & Hcell). destruct Hcell as (Hrow & _). lia.
Qed.

Lemma FontDump_font_bounding_box_witness :
  exists bp top lft bot rgt rest,
    scanlines (Sample.scenario 0) Sample.scenario_layout = Some bp /\
    Sample.scenario_file "a0"
    = "STARTFONT 2.1" +:+ nl +:+
      "FONT " +:+ font_id "Test" (FontStyleName "" 0) 12 +:+ nl +:+
      "SIZE " +:+ dec 12 +:+ " " +:+ dec 72 +:+ " " +:+ dec 72 +:+ nl +:+
      "FONTBOUNDINGBOX " +:+ dec (rgt - lft + 1) +:+ " " +:+
         dec (bot - top + 1) +:+ " " +:+ dec (mk Sample.scenario_layout) +:+ " " +:+
         dec (ht Sample.scenario_layout - 0 - (bot + 1)) +:+ nl +:+ rest /\
    (forall i c,
       font_ink BigEndian (fr_bytes (Sample.scenario 0)) bp Sample.scenario_layout i c ->
       top <= i <= bot /\ lft <= c <= rgt) /\
    ((exists i c, font_ink BigEndian (fr_bytes (Sample.scenario 0)) bp
                    Sample.scenario_layout i c) ->
     (exists i, font_ink BigEndian (fr_bytes (Sample.scenario 0)) bp
                  Sample.scenario_layout i lft) /\
     (exists i, font_ink BigEndian (fr_bytes (Sample.scenario 0)) bp
                  Sample.scenario_layout i rgt)).
Proof.
  destruct (FontDump_font_bounding_box (Sample.env BigEndian true) (Sample.scenario 0)
    "Test" 0 12 1
    {| created := Some ("Test-12.bdf", Sample.scenario_file "a0");
       to_stdout := "Dumping 1 glyphs to " +:+ dq +:+ "Test-12.bdf" +:+ dq +:+ nl;
       to_stderr := "" |} "Test-12.bdf" (Sample.scenario_file "a0")
    Sample.scenario_layout)
    as (bp & top & lft & bot & rgt & descent & rest & Hbp & Hd & Htext & Hinside
        & Hreached & _);
    [vm_compute; reflexivity|reflexivity|reflexivity|vm_compute; reflexivity
    |vm_compute; reflexivity|].
  assert (descent = 0) as -> by (vm_compute in Hd; by injection Hd).
  exists bp, top, lft, bot, rgt, rest.
  split; [done|]. split; [done|]. split; [done|].
  intros Hink. destruct (Hreached Hink) as (_ & _ & Hlft & Hrgt & _). auto.
Defined.
